(** * The Neon serverless client: [connect] and SCRAM-SHA-256 authentication

    A shallow embedding of [src/client.ts] (class [NeonClient], a subclass of
    node-postgres' [Client]) together with the properties its design document
    states about it.

    Conventions of the embedding:
    - a JavaScript string is the list of its UTF-16 code units, each a [Z];
    - a byte array ([Uint8Array], [Buffer], [ArrayBuffer]) is a list of bytes,
      each a [Z] in [0, 256);
    - a JavaScript number that holds an integer is a [Z]; doubles are exact
      up to [Number.MAX_SAFE_INTEGER], and the theorems that depend on the
      value of the iteration count carry that bound;
    - the methods mutate the client and talk to the outside world; they are
      functions from a [World] to an outcome and a new [World], the outside
      world being a chronological log of the calls made to it;
    - what the file imports ([crypto.subtle], node-postgres' [Client]) is
      not part of the repository: the crypto primitives and the listeners
      that node-postgres attaches are fields of the environment, [importKey]
      rejects the empty key as the Web Cryptography API has it, and the
      methods of node-postgres that get called leave their name in the log;
    - an [async] method is run in one piece: what happens between its
      [await]s is not modelled. *)

From Stdlib Require Import ZArith List String Ascii Bool Lia.
From stdpp Require Import base option list gmap strings.
Import ListNotations.

Local Open Scope Z_scope.

(* ===================================================================== *)
(** * JavaScript strings and byte arrays *)
(* ===================================================================== *)

Abbreviation jsstring := (list Z) (only parsing).
Abbreviation bytes := (list Z) (only parsing).

(** A string literal of the source, as code units. *)
Definition lit (s : string) : jsstring :=
  map (fun a : ascii => Z.of_nat (nat_of_ascii a)) (list_ascii_of_string s).

(** [s.startsWith(p)] *)
Fixpoint startsWith (s p : jsstring) : bool :=
  match p, s with
  | [], _ => true
  | _ :: _, [] => false
  | c :: p', d :: s' => (c =? d) && startsWith s' p'
  end.

(** [s.length] *)
Definition jslength (s : jsstring) : Z := Z.of_nat (length s).

(** [s.split(',')]: the pieces between the commas; never the empty array. *)
Fixpoint split_comma (s : jsstring) : list jsstring :=
  match s with
  | [] => [[]]
  | c :: s' =>
      if c =? 44 then [] :: split_comma s'
      else match split_comma s' with
           | [] => [[c]]
           | piece :: pieces => (c :: piece) :: pieces
           end
  end.

(** [String(n)] for an integer [n >= 0]: its decimal digits.  This is what
    JavaScript prints for the numbers it holds exactly, those up to
    [Number.MAX_SAFE_INTEGER]; the theorems that depend on the printed text
    carry that bound. *)
Fixpoint digits_fuel (fuel : nat) (n : Z) (acc : jsstring) : jsstring :=
  match fuel with
  | O => acc
  | S fuel' =>
      let acc' := (48 + n mod 10) :: acc in
      if n <? 10 then acc' else digits_fuel fuel' (n / 10) acc'
  end.

Definition number_toString (n : Z) : jsstring :=
  digits_fuel (S (Z.to_nat (Z.log2 n))) n [].

(** [parseInt(s, 10)] on a string of decimal digits: the number they
    write, which is what JavaScript returns as long as that number is at
    most [Number.MAX_SAFE_INTEGER] (beyond it [parseInt] rounds to a
    double); the theorems that depend on the value carry that bound. *)
Definition parseInt10 (s : jsstring) : Z :=
  fold_left (fun acc c => 10 * acc + (c - 48)) s 0.

(** [new TextEncoder().encode(s)]: the UTF-8 encoding of a UTF-16 string; a
    surrogate without its partner becomes U+FFFD. *)
Definition utf8_2 (c : Z) : bytes :=
  [Z.lor 192 (Z.shiftr c 6); Z.lor 128 (Z.land c 63)].
Definition utf8_3 (c : Z) : bytes :=
  [Z.lor 224 (Z.shiftr c 12); Z.lor 128 (Z.land (Z.shiftr c 6) 63);
   Z.lor 128 (Z.land c 63)].
Definition utf8_4 (c : Z) : bytes :=
  [Z.lor 240 (Z.shiftr c 18); Z.lor 128 (Z.land (Z.shiftr c 12) 63);
   Z.lor 128 (Z.land (Z.shiftr c 6) 63); Z.lor 128 (Z.land c 63)].

Definition is_high_surrogate (c : Z) : bool := (55296 <=? c) && (c <? 56320).
Definition is_low_surrogate (c : Z) : bool := (56320 <=? c) && (c <? 57344).

Fixpoint TextEncoder_encode (s : jsstring) : bytes :=
  match s with
  | [] => []
  | c :: rest =>
      if c <? 128 then c :: TextEncoder_encode rest
      else if c <? 2048 then utf8_2 c ++ TextEncoder_encode rest
      else if is_high_surrogate c then
        match rest with
        | d :: rest' =>
            if is_low_surrogate d
            then utf8_4 (65536 + Z.shiftl (c - 55296) 10 + (d - 56320))
                   ++ TextEncoder_encode rest'
            else utf8_3 65533 ++ TextEncoder_encode rest
        | [] => utf8_3 65533
        end
      else if is_low_surrogate c then utf8_3 65533 ++ TextEncoder_encode rest
      else utf8_3 c ++ TextEncoder_encode rest
  end.

(** ** Base64 *)

(** The character of a 6-bit value. *)
Definition b64char (n : Z) : Z :=
  if n <? 26 then 65 + n
  else if n <? 52 then 97 + (n - 26)
  else if n <? 62 then 48 + (n - 52)
  else if n =? 62 then 43 else 47.

(** [buf.toString('base64')] *)
Fixpoint toString_base64 (bs : bytes) : jsstring :=
  match bs with
  | [] => []
  | [a] =>
      [b64char (Z.shiftr a 2); b64char (Z.shiftl (Z.land a 3) 4); 61; 61]
  | [a; b] =>
      [b64char (Z.shiftr a 2);
       b64char (Z.lor (Z.shiftl (Z.land a 3) 4) (Z.shiftr b 4));
       b64char (Z.shiftl (Z.land b 15) 2); 61]
  | a :: b :: c :: rest =>
      [b64char (Z.shiftr a 2);
       b64char (Z.lor (Z.shiftl (Z.land a 3) 4) (Z.shiftr b 4));
       b64char (Z.lor (Z.shiftl (Z.land b 15) 2) (Z.shiftr c 6));
       b64char (Z.land c 63)] ++ toString_base64 rest
  end.

(** The 6-bit value of a character of the alphabet [A-Za-z0-9+/]. *)
Definition b64value (c : Z) : option Z :=
  if (65 <=? c) && (c <=? 90) then Some (c - 65)
  else if (97 <=? c) && (c <=? 122) then Some (c - 97 + 26)
  else if (48 <=? c) && (c <=? 57) then Some (c - 48 + 52)
  else if c =? 43 then Some 62
  else if c =? 47 then Some 63
  else None.

(** The sextets of a base64 text up to its padding. *)
Fixpoint sextets (s : jsstring) : list Z :=
  match s with
  | [] => []
  | c :: s' =>
      match b64value c with
      | Some v => v :: sextets s'
      | None => if c =? 61 then [] else sextets s'
      end
  end.

Fixpoint bytes_of_sextets (vs : list Z) : bytes :=
  match vs with
  | a :: b :: c :: d :: rest =>
      [Z.lor (Z.shiftl a 2) (Z.shiftr b 4);
       Z.lor (Z.shiftl (Z.land b 15) 4) (Z.shiftr c 2);
       Z.lor (Z.shiftl (Z.land c 3) 6) d] ++ bytes_of_sextets rest
  | [a; b; c] =>
      [Z.lor (Z.shiftl a 2) (Z.shiftr b 4);
       Z.lor (Z.shiftl (Z.land b 15) 4) (Z.shiftr c 2)]
  | [a; b] => [Z.lor (Z.shiftl a 2) (Z.shiftr b 4)]
  | _ => []
  end.

(** [Buffer.from(s, 'base64')]; on a text that passed the salt's format
    check this is the decoder of RFC 4648. *)
Definition Buffer_from_base64 (s : jsstring) : bytes :=
  bytes_of_sextets (sextets s).

(** ** The regular expressions of the challenge validation *)

(** The [.] of a regular expression without the [s] flag: any code unit but
    a line terminator. *)
Definition re_dot (c : Z) : bool :=
  negb ((c =? 10) || (c =? 13) || (c =? 8232) || (c =? 8233)).

(** [/^.=/.test(s)] *)
Definition re_attr_pair (s : jsstring) : bool :=
  match s with
  | c :: 61 :: _ => re_dot c
  | _ => false
  end.

(** The class [[!-+--~]]: printable ASCII above the space, without the
    comma. *)
Definition re_nonce_char (c : Z) : bool :=
  ((33 <=? c) && (c <=? 43)) || ((45 <=? c) && (c <=? 126)).

(** [/^[!-+--~]+$/.test(s)] *)
Definition re_nonce (s : jsstring) : bool :=
  match s with
  | [] => false
  | _ => forallb re_nonce_char s
  end.

(** The class [[a-zA-Z0-9+/]]. *)
Definition re_b64_char (c : Z) : bool :=
  ((97 <=? c) && (c <=? 122)) || ((65 <=? c) && (c <=? 90))
  || ((48 <=? c) && (c <=? 57)) || (c =? 43) || (c =? 47).

(** [/^(?:[a-zA-Z0-9+/]{4})*(?:[a-zA-Z0-9+/]{2}==|[a-zA-Z0-9+/]{3}=)?$/.test(s)] *)
Fixpoint re_base64 (s : jsstring) : bool :=
  match s with
  | [] => true
  | a :: b :: c :: d :: rest =>
      re_b64_char a && re_b64_char b &&
      match rest with
      | [] =>
          (re_b64_char c && (re_b64_char d || (d =? 61)))
          || ((c =? 61) && (d =? 61))
      | _ => re_b64_char c && re_b64_char d && re_base64 rest
      end
  | _ => false
  end.

(** [/^[1-9][0-9]*$/.test(s)] *)
Definition re_digit (c : Z) : bool := (48 <=? c) && (c <=? 57).
Definition re_iterations (s : jsstring) : bool :=
  match s with
  | c :: s' => (49 <=? c) && (c <=? 57) && forallb re_digit s'
  | [] => false
  end.

(* ===================================================================== *)
(** * SHA-256 and HMAC-SHA-256 (FIPS 180-4, RFC 2104)

    The client obtains the two primitives from the runtime's
    [crypto.subtle]; the model of the client below takes them from its
    environment.  This is the standard algorithm, used to run the model on
    published test vectors and to show that what is assumed of the
    primitives holds of the real ones. *)
(* ===================================================================== *)

Module Sha256.

Definition w32 (x : Z) : Z := x mod 4294967296.
Definition add32 (x y : Z) : Z := w32 (x + y).
Definition rotr (n x : Z) : Z :=
  Z.lor (Z.shiftr x n) (w32 (Z.shiftl x (32 - n))).
Definition not32 (x : Z) : Z := 4294967295 - x.

Definition Ch (x y z : Z) : Z := Z.lxor (Z.land x y) (Z.land (not32 x) z).
Definition Maj (x y z : Z) : Z :=
  Z.lxor (Z.lxor (Z.land x y) (Z.land x z)) (Z.land y z).
Definition Sigma0 (x : Z) : Z := Z.lxor (Z.lxor (rotr 2 x) (rotr 13 x)) (rotr 22 x).
Definition Sigma1 (x : Z) : Z := Z.lxor (Z.lxor (rotr 6 x) (rotr 11 x)) (rotr 25 x).
Definition sigma0 (x : Z) : Z := Z.lxor (Z.lxor (rotr 7 x) (rotr 18 x)) (Z.shiftr x 3).
Definition sigma1 (x : Z) : Z := Z.lxor (Z.lxor (rotr 17 x) (rotr 19 x)) (Z.shiftr x 10).

Definition K : list Z :=
  [1116352408; 1899447441; 3049323471; 3921009573; 961987163; 1508970993;
   2453635748; 2870763221; 3624381080; 310598401; 607225278; 1426881987;
   1925078388; 2162078206; 2614888103; 3248222580; 3835390401; 4022224774;
   264347078; 604807628; 770255983; 1249150122; 1555081692; 1996064986;
   2554220882; 2821834349; 2952996808; 3210313671; 3336571891; 3584528711;
   113926993; 338241895; 666307205; 773529912; 1294757372; 1396182291;
   1695183700; 1986661051; 2177026350; 2456956037; 2730485921; 2820302411;
   3259730800; 3345764771; 3516065817; 3600352804; 4094571909; 275423344;
   430227734; 506948616; 659060556; 883997877; 958139571; 1322822218;
   1537002063; 1747873779; 1955562222; 2024104815; 2227730452; 2361852424;
   2428436474; 2756734187; 3204031479; 3329325298].

(** The eight working variables, and the hash value, of the algorithm. *)
Record state := State { ra : Z; rb : Z; rc : Z; rd : Z; re : Z; rf : Z; rg : Z; rh : Z }.

Definition H0 : state :=
  State 1779033703 3144134277 1013904242 2773480762
        1359893119 2600822924 528734635 1541459225.

Definition round (s : state) (k w : Z) : state :=
  let t1 := w32 (rh s + Sigma1 (re s) + Ch (re s) (rf s) (rg s) + k + w) in
  let t2 := w32 (Sigma0 (ra s) + Maj (ra s) (rb s) (rc s)) in
  State (add32 t1 t2) (ra s) (rb s) (rc s) (add32 (rd s) t1) (re s) (rf s) (rg s).

(** The window holds the sixteen most recent words of the message
    schedule, oldest first; sliding it yields the next word. *)
Definition next_window (w : list Z) : list Z :=
  tl w ++ [w32 (sigma1 (nth 14 w 0) + nth 9 w 0 + sigma0 (nth 1 w 0) + nth 0 w 0)].

Fixpoint rounds (ks : list Z) (w : list Z) (s : state) : state :=
  match ks with
  | [] => s
  | k :: ks' => rounds ks' (next_window w) (round s k (nth 0 w 0))
  end.

Definition compress (h : state) (block : list Z) : state :=
  let s := rounds K block h in
  State (add32 (ra h) (ra s)) (add32 (rb h) (rb s)) (add32 (rc h) (rc s))
        (add32 (rd h) (rd s)) (add32 (re h) (re s)) (add32 (rf h) (rf s))
        (add32 (rg h) (rg s)) (add32 (rh h) (rh s)).

Definition be32 (x : Z) : bytes :=
  [Z.shiftr x 24 mod 256; Z.shiftr x 16 mod 256; Z.shiftr x 8 mod 256; x mod 256].

Definition be64 (x : Z) : bytes := be32 (Z.shiftr x 32) ++ be32 (w32 x).

Fixpoint words_of_bytes (bs : bytes) : list Z :=
  match bs with
  | a :: b :: c :: d :: rest =>
      Z.lor (Z.lor (Z.shiftl a 24) (Z.shiftl b 16)) (Z.lor (Z.shiftl c 8) d)
      :: words_of_bytes rest
  | _ => []
  end.

Definition pad (msg : bytes) : bytes :=
  let len := Z.of_nat (length msg) in
  msg ++ [128] ++ repeat 0 (Z.to_nat ((55 - len) mod 64)) ++ be64 (8 * len).

Fixpoint blocks (n : nat) (ws : list Z) (h : state) : state :=
  match n with
  | O => h
  | S n' => blocks n' (skipn 16 ws) (compress h (firstn 16 ws))
  end.

Definition digest (msg : bytes) : bytes :=
  let ws := words_of_bytes (pad msg) in
  let h := blocks (Nat.div (length ws) 16) ws H0 in
  be32 (ra h) ++ be32 (rb h) ++ be32 (rc h) ++ be32 (rd h)
  ++ be32 (re h) ++ be32 (rf h) ++ be32 (rg h) ++ be32 (rh h).

(** HMAC with SHA-256, whose block is 64 bytes long. *)
Definition hmac_key (key : bytes) : bytes :=
  let k := if (64 <? Z.of_nat (length key)) then digest key else key in
  k ++ repeat 0 (64 - length k)%nat.

Definition hmac (key data : bytes) : bytes :=
  let k := hmac_key key in
  digest (map (Z.lxor 92) k ++ digest (map (Z.lxor 54) k ++ data)).

End Sha256.

(* ===================================================================== *)
(** * The client, its runtime and its world *)
(* ===================================================================== *)

(** A JavaScript value of which the code only asks whether it is a string
    or [null]. *)
Inductive JsValue :=
| JsString (s : jsstring)
| JsNull
| JsUndefined
| JsOther.

(** What a method throws: [new Error(message)], the [TypeError] of a
    property read on [undefined], or the [DataError] with which
    [crypto.subtle.importKey] rejects. *)
Inductive Exn :=
| Error (message : jsstring)
| TypeError
| DataError.

Inductive Outcome (A : Type) :=
| Return (a : A)
| Throw (e : Exn).
Arguments Return {A} a.
Arguments Throw {A} e.

(** The [neonConfig] options that [connect] reads off the socket shim. *)
Inductive PipelineConnect := PipelinePassword | PipelineOff.

Record Socket := {
  forceDisablePgSSL : bool;
  useSecureWebSocket : bool;
  pipelineTLS : bool;
  pipelineConnect : PipelineConnect;
  disableWarningInBrowsers : bool
}.

(** The functions that get registered on the connection's event emitter:
    those of node-postgres, known by a number only, and the four closures
    that [connect] creates. *)
Inductive Fn :=
| PgListener (id : nat)
| InjectSSLAccept            (* () => con.stream.emit('data', 'S') *)
| RearmReadyForQuery         (* () => con.on('readyForQuery', this._handleReadyForQuery.bind(this)) *)
| BoundHandleReadyForQuery   (* this._handleReadyForQuery.bind(this) *)
| PipelinedStartup.          (* the listener of lines 98-105 *)

Record Listener := { once : bool; fn : Fn }.

#[global] Instance Fn_eq_dec : EqDecision Fn.
Proof. solve_decision. Defined.
#[global] Instance Listener_eq_dec : EqDecision Listener.
Proof. solve_decision. Defined.

Record Connection := {
  con_ssl : bool;
  stream : Socket;
  listeners : gmap string (list Listener)
}.

Record ClientConfig := {
  cfg_host : option jsstring;
  cfg_connectionString : option jsstring
}.

(** [config?: string | ClientConfig] *)
Inductive Config :=
| ConfigUndefined
| ConfigString (s : jsstring)
| ConfigObject (c : ClientConfig).

(** The session object that node-postgres creates when the server asks for
    SASL authentication. *)
Record SaslSession := {
  message : jsstring;
  clientNonce : jsstring;
  serverSignature : option jsstring;
  response : jsstring
}.

Record NeonClient := {
  config : Config;
  host : jsstring;
  user : option jsstring;
  database : option jsstring;
  password : JsValue;
  ssl : bool;
  connection : Connection;
  saslSession : option SaslSession
}.

(** The calls that leave the two methods, in the order they are made. *)
Inductive Effect :=
| ConsoleWarn (text : jsstring)
| SuperConnect                 (* node-postgres' connect: opens the channel *)
| PgListenerCalled (id : nat)
| StreamEmitData (data : jsstring)
| WarnIfBrowser
| HandleAuthCleartextPassword  (* sends the password message *)
| HandleReadyForQuery          (* marks the client ready, runs queued queries *)
| ImportKey (raw : bytes)
| Sign (key data : bytes)
| Digest (data : bytes)
| SendSCRAMClientFinalMessage (text : jsstring).

Record World := { this : NeonClient; trace : list Effect }.

(** [crypto.subtle] with its HMAC-SHA-256 [sign] and SHA-256 [digest]. *)
Record SubtleCrypto := {
  subtle_sign : bytes -> bytes -> bytes;
  subtle_digest : bytes -> bytes
}.

(** The global [crypto] in the three ways it can be unusable, or usable. *)
Inductive CryptoGlobal :=
| CryptoUndefined
| SubtleUndefined
| ImportKeyUndefined
| CryptoSubtle (cs : SubtleCrypto).

(** What the methods find around them: the crypto global, the variables of
    [process.env], and the listeners that node-postgres' own [connect]
    attaches to the connection (event, once, number). *)
Record Env := {
  crypto : CryptoGlobal;
  PGHOST : option jsstring;
  USER : option jsstring;
  USERNAME : option jsstring;
  pg_listeners : list (string * (bool * nat))
}.

(** ** A state and exception monad over the world *)

Definition M (A : Type) : Type := World -> Outcome A * World.

Definition ret {A} (a : A) : M A := fun w => (Return a, w).
Definition throw {A} (e : Exn) : M A := fun w => (Throw e, w).
Definition bind {A B} (m : M A) (k : A -> M B) : M B :=
  fun w => match m w with
           | (Return a, w') => k a w'
           | (Throw e, w') => (Throw e, w')
           end.

Declare Scope js_scope.
Delimit Scope js_scope with js.
Notation "x <- m ;; k" := (bind m (fun x => k))
  (at level 20, m at level 99, k at level 200, only parsing) : js_scope.
Notation "m ;; k" := (bind m (fun _ => k))
  (at level 100, k at level 200, right associativity, only parsing) : js_scope.
Local Open Scope js_scope.

Definition get_this : M NeonClient := fun w => (Return (this w), w).
Definition set_this (f : NeonClient -> NeonClient) : M unit :=
  fun w => (Return tt, {| this := f (this w); trace := trace w |}).
Definition perform (e : Effect) : M unit :=
  fun w => (Return tt, {| this := this w; trace := trace w ++ [e] |}).
Definition when (b : bool) (m : M unit) : M unit := if b then m else ret tt.

(** Field updates of the client. *)
Definition with_ssl (b : bool) (c : NeonClient) : NeonClient :=
  {| config := config c; host := host c; user := user c;
     database := database c; password := password c; ssl := b;
     connection := {| con_ssl := b; stream := stream (connection c);
                      listeners := listeners (connection c) |};
     saslSession := saslSession c |}.

Definition with_listeners (f : gmap string (list Listener) -> gmap string (list Listener))
    (c : NeonClient) : NeonClient :=
  {| config := config c; host := host c; user := user c;
     database := database c; password := password c; ssl := ssl c;
     connection := {| con_ssl := con_ssl (connection c);
                      stream := stream (connection c);
                      listeners := f (listeners (connection c)) |};
     saslSession := saslSession c |}.

Definition with_saslSession (s : SaslSession) (c : NeonClient) : NeonClient :=
  {| config := config c; host := host c; user := user c;
     database := database c; password := password c; ssl := ssl c;
     connection := connection c; saslSession := Some s |}.

Notation "' p <- m ;; k" := (bind m (fun p => k))
  (at level 20, p pattern, m at level 99, k at level 200,
   only parsing) : js_scope.

(* ===================================================================== *)
(** * [_handleAuthSASLContinue] (client.ts, lines 111-264) *)
(* ===================================================================== *)

(** The message node-postgres hands over: [msg.data] is the server-first
    message of the SCRAM exchange. *)
Record AuthenticationMessage := { data : JsValue }.

Record CryptoKey := { key_raw : bytes }.

(** The three operations of [crypto.subtle] that the method awaits.
    [importKey('raw', raw, {name: 'HMAC', ...}, false, ['sign'])] rejects a
    key of no bytes with a [DataError] (Web Cryptography API, HMAC, import
    key: a key of length zero); the method does not catch it. *)
Definition importKey (raw : bytes) : M CryptoKey :=
  perform (ImportKey raw);;
  match raw with
  | [] => throw DataError
  | _ :: _ => ret {| key_raw := raw |}
  end.
Definition sign (cs : SubtleCrypto) (key : CryptoKey) (d : bytes) : M bytes :=
  perform (Sign (key_raw key) d);; ret (subtle_sign cs (key_raw key) d).
Definition digest (cs : SubtleCrypto) (d : bytes) : M bytes :=
  perform (Digest d);; ret (subtle_digest cs d).

(** [a.map((_, i) => a[i] ^ b[i])]: as long as [a]; a missing [b[i]] is
    [undefined], which [^] reads as 0. *)
Definition xor_map (a b : bytes) : bytes :=
  imap (fun i x => Z.lxor x (nth i b 0)) a.

(** Lines 112-122. *)
Definition require_subtle (env : Env) : M SubtleCrypto :=
  match crypto env with
  | CryptoSubtle cs => ret cs
  | _ => throw (Error (lit "Cannot use SASL auth when `crypto.subtle` is not defined"))
  end.

Definition as_string (v : JsValue) : option jsstring :=
  match v with JsString s => Some s | _ => None end.

(** Lines 127-132; reading [session.message] off a missing session is a
    [TypeError]. *)
Definition check_protocol (session : option SaslSession) (password serverData : JsValue)
    : M (SaslSession * jsstring * jsstring) :=
  match session with
  | None => throw TypeError
  | Some session =>
      match bool_decide (message session = lit "SASLInitialResponse"),
            as_string password, as_string serverData with
      | true, Some password, Some serverData => ret (session, password, serverData)
      | _, _, _ => throw (Error (lit "SASL: protocol error"))
      end
  end.

(** Lines 135-141: the callback of [map] runs over the pieces from left to
    right and throws at the first one that is not [name=value]. *)
Fixpoint map_attr_pairs (pieces : list jsstring) : Outcome (list (jsstring * jsstring)) :=
  match pieces with
  | [] => Return []
  | attrValue :: rest =>
      if negb (re_attr_pair attrValue)
      then Throw (Error (lit "SASL: Invalid attribute pair entry"))
      else
        let name := firstn 1 attrValue in
        let value := skipn 2 attrValue in
        match map_attr_pairs rest with
        | Return entries => Return ((name, value) :: entries)
        | Throw e => Throw e
        end
  end.

(** [Object.fromEntries]: a later entry replaces an earlier one of the same
    name. *)
Definition fromEntries (entries : list (jsstring * jsstring)) : gmap (list Z) (list Z) :=
  fold_left (fun o e => <[fst e := snd e]> o) entries ∅.

(** Lines 134-142. *)
Definition parse_attrPairs (serverData : jsstring) : M (gmap (list Z) (list Z)) :=
  match map_attr_pairs (split_comma serverData) with
  | Return entries => ret (fromEntries entries)
  | Throw e => throw e
  end.

(** [if (!v || !re.test(v)) throw new Error(text)]: [v] is missing, empty or
    does not match. *)
Definition check_attr (v : option jsstring) (re : jsstring -> bool) (text : string)
    : M jsstring :=
  match v with
  | Some (c :: s) => if re (c :: s) then ret (c :: s) else throw (Error (lit text))
  | _ => throw (Error (lit text))
  end.

(** The loop of lines 193-196, [n] rounds of it.  The counter [i] and the
    bound [iterations - 1] are numbers of JavaScript: they count exactly up
    to [Number.MAX_SAFE_INTEGER], and the theorems about the loop carry
    that bound. *)
Fixpoint hmac_rounds (cs : SubtleCrypto) (iterHmacKey : CryptoKey) (n : nat)
    (ui1 ui : bytes) : M bytes :=
  match n with
  | O => ret ui
  | S n' =>
      ui1 <- sign cs iterHmacKey ui1;;
      let ui := xor_map ui ui1 in
      hmac_rounds cs iterHmacKey n' ui1 ui
  end.

(** Lines 175-197. *)
Definition derive_saltedPassword (cs : SubtleCrypto) (password salt : jsstring)
    (iterations : Z) : M bytes :=
  let saltBytes := Buffer_from_base64 salt in
  let passwordBytes := TextEncoder_encode password in
  iterHmacKey <- importKey passwordBytes;;
  ui1 <- sign cs iterHmacKey (saltBytes ++ [0; 0; 0; 1]);;
  hmac_rounds cs iterHmacKey (Z.to_nat (iterations - 1)) ui1 ui1.

(** Lines 123-172: the checks on the session, the password and the
    challenge; they hand on what the computation needs. *)
Definition validate_challenge (c : NeonClient) (msg : AuthenticationMessage)
    : M (SaslSession * jsstring * (jsstring * jsstring * jsstring)) :=
  '(session, password, serverData) <-
     check_protocol (saslSession c) (password c) (data msg);;
  attrPairs <- parse_attrPairs serverData;;
  nonce <- check_attr (attrPairs !! lit "r") re_nonce
             "SASL: SCRAM-SERVER-FIRST-MESSAGE: nonce missing/unprintable";;
  salt <- check_attr (attrPairs !! lit "s") re_base64
             "SASL: SCRAM-SERVER-FIRST-MESSAGE: salt missing/not base64";;
  iterationText <- check_attr (attrPairs !! lit "i") re_iterations
             "SASL: SCRAM-SERVER-FIRST-MESSAGE: missing/invalid iteration count";;
  when (negb (startsWith nonce (clientNonce session)))
    (throw (Error (lit "SASL: SCRAM-SERVER-FIRST-MESSAGE: server nonce does not start with client nonce")));;
  when (jslength nonce =? jslength (clientNonce session))
    (throw (Error (lit "SASL: SCRAM-SERVER-FIRST-MESSAGE: server nonce is too short")));;
  ret (session, password, (nonce, salt, iterationText)).

(** Lines 174-263: the keys, the proof, the expected server signature, and
    the final message of the client. *)
Definition respond (cs : SubtleCrypto) (session : SaslSession)
    (password nonce salt iterationText : jsstring) : M unit :=
  let iterations := parseInt10 iterationText in
  saltedPassword <- derive_saltedPassword cs password salt iterations;;

  ckHmacKey <- importKey saltedPassword;;
  clientKey <- sign cs ckHmacKey (TextEncoder_encode (lit "Client Key"));;
  storedKey <- digest cs clientKey;;

  let clientFirstMessageBare := lit "n=*,r=" ++ clientNonce session in
  let serverFirstMessage :=
    lit "r=" ++ nonce ++ lit ",s=" ++ salt ++ lit ",i=" ++ number_toString iterations in
  let clientFinalMessageWithoutProof := lit "c=biws,r=" ++ nonce in
  let authMessage :=
    clientFirstMessageBare ++ lit "," ++ serverFirstMessage ++ lit ","
    ++ clientFinalMessageWithoutProof in

  csHmacKey <- importKey storedKey;;
  clientSignature <- sign cs csHmacKey (TextEncoder_encode authMessage);;
  let clientProofBytes := xor_map clientKey clientSignature in
  let clientProof := toString_base64 clientProofBytes in

  skHmacKey <- importKey saltedPassword;;
  serverKey <- sign cs skHmacKey (TextEncoder_encode (lit "Server Key"));;
  ssbHmacKey <- importKey serverKey;;
  serverSignatureBytes <- sign cs ssbHmacKey (TextEncoder_encode authMessage);;

  let session' :=
    {| message := lit "SASLResponse";
       clientNonce := clientNonce session;
       serverSignature := Some (toString_base64 serverSignatureBytes);
       response := clientFinalMessageWithoutProof ++ lit ",p=" ++ clientProof |} in
  set_this (with_saslSession session');;

  c <- get_this;;
  match saslSession c with
  | Some s => perform (SendSCRAMClientFinalMessage (response s))
  | None => throw TypeError
  end.

Definition _handleAuthSASLContinue (env : Env) (msg : AuthenticationMessage) : M unit :=
  cs <- require_subtle env;;
  c <- get_this;;
  '(session, password, (nonce, salt, iterationText)) <- validate_challenge c msg;;
  respond cs session password nonce salt iterationText.

(* ===================================================================== *)
(** * The connection as an event emitter

    [con] is a Node.js [EventEmitter]: [on] and [once] append a listener to
    the list of its event, [removeAllListeners] drops the list, and [emit]
    calls the listeners that were registered when it started, in the order
    of registration, a [once] listener being taken off the list just before
    it is called. *)
(* ===================================================================== *)

Definition listeners_of (ev : string) (ls : gmap string (list Listener)) : list Listener :=
  default [] (ls !! ev).

Definition addListener (ev : string) (l : Listener) (ls : gmap string (list Listener))
    : gmap string (list Listener) :=
  <[ev := listeners_of ev ls ++ [l]]> ls.

Fixpoint remove_first (l : Listener) (ls : list Listener) : list Listener :=
  match ls with
  | [] => []
  | l' :: ls' => if decide (l = l') then ls' else l' :: remove_first l ls'
  end.

(** The wrapper that [once] installs removes itself; the entries carry no
    identity here, so the first equal entry goes, which leaves the same list
    as long as equal entries are called in the order of registration, as
    [emit] does. *)
Definition removeListener (ev : string) (l : Listener) (ls : gmap string (list Listener))
    : gmap string (list Listener) :=
  match remove_first l (listeners_of ev ls) with
  | [] => delete ev ls
  | rest => <[ev := rest]> ls
  end.

Definition con_on (ev : string) (f : Fn) : M unit :=
  set_this (with_listeners (addListener ev {| once := false; fn := f |})).
Definition con_once (ev : string) (f : Fn) : M unit :=
  set_this (with_listeners (addListener ev {| once := true; fn := f |})).
Definition con_removeAllListeners (ev : string) : M unit :=
  set_this (with_listeners (delete ev)).

(** What calling each function does. *)
Definition call (f : Fn) : M unit :=
  match f with
  | PgListener id => perform (PgListenerCalled id)
  | InjectSSLAccept => perform (StreamEmitData (lit "S"))
  | RearmReadyForQuery => con_on "readyForQuery" BoundHandleReadyForQuery
  | BoundHandleReadyForQuery => perform HandleReadyForQuery
  | PipelinedStartup =>
      c <- get_this;;
      when (negb (disableWarningInBrowsers (stream (connection c))))
        (perform WarnIfBrowser);;
      perform HandleAuthCleartextPassword;;
      perform HandleReadyForQuery
  end.

Fixpoint call_listeners (ev : string) (ls : list Listener) : M unit :=
  match ls with
  | [] => ret tt
  | l :: ls' =>
      when (once l) (set_this (with_listeners (removeListener ev l)));;
      call (fn l);;
      call_listeners ev ls'
  end.

(** [con.emit(ev, ...)] *)
Definition con_emit (ev : string) : M unit :=
  c <- get_this;;
  call_listeners ev (listeners_of ev (listeners (connection c))).

(* ===================================================================== *)
(** * [connect] (client.ts, lines 33-109) *)
(* ===================================================================== *)

(** [super.connect(callback)]: node-postgres starts opening the connection
    and attaches its own listeners; failures reach the callback or the
    promise later, not the caller. *)
Fixpoint attach_listeners (ls : list (string * (bool * nat))) : M unit :=
  match ls with
  | [] => ret tt
  | (ev, (o, id)) :: ls' =>
      (if o then con_once ev (PgListener id) else con_on ev (PgListener id));;
      attach_listeners ls'
  end.

Definition super_connect (env : Env) : M unit :=
  perform SuperConnect;;
  attach_listeners (pg_listeners env).

(** Lines 49-53. *)
Definition hasConfiguredHost (env : Env) (c : NeonClient) : bool :=
  match config c with
  | ConfigObject o => bool_decide (cfg_host o <> None)
  | _ => false
  end
  || match config c with
     | ConfigObject o => bool_decide (cfg_connectionString o <> None)
     | _ => false
     end
  || bool_decide (PGHOST env <> None).

(** [process.env.USER ?? process.env.USERNAME] *)
Definition defaultUser (env : Env) : option jsstring :=
  match USER env with
  | Some u => Some u
  | None => USERNAME env
  end.

(** A value inside a template literal. *)
Definition template_value (v : option jsstring) : jsstring :=
  match v with
  | Some s => s
  | None => lit "undefined"
  end.

Definition double_encryption_warning : jsstring :=
  lit "SSL is enabled for both Postgres (e.g. ?sslmode=require in the connection string + forceDisablePgSSL = false) and the WebSocket tunnel (useSecureWebSocket = true). Double encryption will increase latency and CPU usage. It may be appropriate to disable SSL in the Postgres connection parameters or set forceDisablePgSSL = true.".

Definition missing_parameters_message (env : Env) : jsstring :=
  lit "No database host or connection string was set, and key parameters have default values (host: localhost, user: "
  ++ template_value (defaultUser env) ++ lit ", db: "
  ++ template_value (defaultUser env)
  ++ lit ", password: null). Is an environment variable missing? Alternatively, if you intended to connect with these parameters, please set the host to 'localhost' explicitly.".

(** The condition of lines 55-61. *)
Definition likely_missing_parameters (env : Env) (c : NeonClient) : bool :=
  negb (hasConfiguredHost env c)
  && bool_decide (host c = lit "localhost")
  && bool_decide (user c = defaultUser env)
  && bool_decide (database c = defaultUser env)
  && match password c with JsNull => true | _ => false end.

Definition connect (env : Env) : M unit :=
  c <- get_this;;
  let neonConfig := stream (connection c) in

  when (forceDisablePgSSL neonConfig) (set_this (with_ssl false));;

  c <- get_this;;
  when (ssl c && useSecureWebSocket neonConfig)
    (perform (ConsoleWarn double_encryption_warning));;

  when (likely_missing_parameters env c)
    (throw (Error (missing_parameters_message env)));;

  super_connect env;;

  c <- get_this;;
  let pipelineTLS' := pipelineTLS neonConfig && ssl c in
  let pipelineConnect' :=
    match pipelineConnect neonConfig with
    | PipelinePassword => true
    | PipelineOff => false
    end in

  if negb pipelineTLS'
     && match pipelineConnect neonConfig with PipelineOff => true | _ => false end
  then ret tt
  else
    when pipelineTLS' (con_on "connect" InjectSSLAccept);;

    when pipelineConnect'
      (con_removeAllListeners "authenticationCleartextPassword";;
       con_removeAllListeners "readyForQuery";;
       con_once "readyForQuery" RearmReadyForQuery;;
       c <- get_this;;
       let connectEvent := (if ssl c then "sslconnect" else "connect")%string in
       con_on connectEvent PipelinedStartup).

(* ===================================================================== *)
(** * The words of the design document, as definitions *)
(* ===================================================================== *)

(** ** SCRAM's [Hi] (RFC 5802, section 2.2)

    [U1 = HMAC(str, salt || INT(1))], [U(k+1) = HMAC(str, Uk)] and
    [Hi(str, salt, i) = U1 XOR U2 XOR ... XOR Ui]. *)

Definition bytes_xor (a b : bytes) : bytes := zip_with Z.lxor a b.

(** [scram_U hmac str salt k] is [Uk]; at 0 it is the text that the first
    round signs. *)
Fixpoint scram_U (hmac : bytes -> bytes -> bytes) (str salt : bytes) (k : nat) : bytes :=
  match k with
  | O => salt ++ [0; 0; 0; 1]
  | S k' => hmac str (scram_U hmac str salt k')
  end.

Definition scram_Hi (hmac : bytes -> bytes -> bytes) (str salt : bytes) (i : nat) : bytes :=
  match map (scram_U hmac str salt) (seq 1 i) with
  | [] => []
  | u1 :: us => fold_left bytes_xor us u1
  end.

(** What is assumed of [crypto.subtle.sign]: an HMAC-SHA-256 tag is 32
    bytes long. *)
Definition hmac_sha256_sized (cs : SubtleCrypto) : Prop :=
  forall key d, length (subtle_sign cs key d) = 32%nat.

(** What is assumed of [crypto.subtle.digest]: a SHA-256 hash is 32 bytes
    long. *)
Definition sha256_sized (cs : SubtleCrypto) : Prop :=
  forall d, length (subtle_digest cs d) = 32%nat.

(** The calls to [crypto.subtle] among the effects. *)
Definition is_crypto_call (e : Effect) : Prop :=
  match e with
  | ImportKey _ | Sign _ _ | Digest _ => True
  | _ => False
  end.

(** ** Failures

    The code throws plain [Error]s; the design document's [AuthError] is an
    [Error] whose text starts with [SASL: ] and goes on with the reason, its
    [ConfigurationError] the [Error] about the missing [crypto.subtle]. *)
Definition AuthError (e : Exn) : Prop :=
  exists reason : jsstring, e = Error (lit "SASL: " ++ reason).

Definition ConfigurationError : Exn :=
  Error (lit "Cannot use SASL auth when `crypto.subtle` is not defined").

(** ** A runtime with the real primitives *)

Definition real_subtle : SubtleCrypto :=
  {| subtle_sign := Sha256.hmac; subtle_digest := Sha256.digest |}.

(** ** The challenge in the words of the design document *)

(** The [r], [s] or [i] attribute of the challenge, if it has one. *)
Definition challenge_attr (msg : AuthenticationMessage) (name : string) : option jsstring :=
  match data msg with
  | JsString serverData =>
      match map_attr_pairs (split_comma serverData) with
      | Return entries => fromEntries entries !! lit name
      | Throw _ => None
      end
  | _ => None
  end.

(** An attribute is missing or is not as [P] asks. *)
Definition missing_or_not (P : jsstring -> Prop) (v : option jsstring) : Prop :=
  forall s, v = Some s -> ~ P s.

(** A nonce of printable ASCII characters, none of them a comma. *)
Definition printable_ascii (c : Z) : Prop := 32 <= c <= 126.
Definition printable_nonce (s : jsstring) : Prop :=
  Forall (fun c => printable_ascii c /\ c <> 44) s.

(** A base64 text (RFC 4648, section 4): groups of four characters of the
    alphabet, the last of which may be padded with one or two [=]. *)
Definition base64_alphabet (c : Z) : Prop :=
  65 <= c <= 90 \/ 97 <= c <= 122 \/ 48 <= c <= 57 \/ c = 43 \/ c = 47.

Inductive base64_text : jsstring -> Prop :=
| base64_end : base64_text []
| base64_group a b c d rest :
    base64_alphabet a -> base64_alphabet b -> base64_alphabet c ->
    base64_alphabet d -> base64_text rest ->
    base64_text (a :: b :: c :: d :: rest)
| base64_pad1 a b c :
    base64_alphabet a -> base64_alphabet b -> base64_alphabet c ->
    base64_text [a; b; c; 61]
| base64_pad2 a b :
    base64_alphabet a -> base64_alphabet b ->
    base64_text [a; b; 61; 61].

(** The decimal text of a positive integer. *)
Definition positive_integer_text (s : jsstring) : Prop :=
  s <> [] /\ Forall (fun c => 48 <= c <= 57) s /\ 0 < parseInt10 s.

(** A challenge that passes every check of the validation against the
    session's client nonce, with the three attributes it carries. *)
Definition valid_challenge (session : SaslSession) (msg : AuthenticationMessage)
    (nonce salt iterationText : jsstring) : Prop :=
  challenge_attr msg "r" = Some nonce /\ re_nonce nonce = true /\
  challenge_attr msg "s" = Some salt /\ salt <> [] /\ re_base64 salt = true /\
  challenge_attr msg "i" = Some iterationText /\ re_iterations iterationText = true /\
  startsWith nonce (clientNonce session) = true /\
  jslength nonce <> jslength (clientNonce session).

(** ** A client in the middle of a SCRAM exchange, and its runtime

    The session is the one node-postgres opens for the client nonce of
    RFC 7677's example; the runtime has the real primitives. *)

Definition example_socket : Socket :=
  {| forceDisablePgSSL := false; useSecureWebSocket := true;
     pipelineTLS := true; pipelineConnect := PipelinePassword;
     disableWarningInBrowsers := false |}.

Definition example_session : SaslSession :=
  {| message := lit "SASLInitialResponse";
     clientNonce := lit "rOprNGfwEbeRWgbNEkqO";
     serverSignature := None;
     response := lit "n,,n=*,r=rOprNGfwEbeRWgbNEkqO" |}.

Definition example_client : NeonClient :=
  {| config := ConfigObject {| cfg_host := Some (lit "db.example.com");
                               cfg_connectionString := None |};
     host := lit "db.example.com";
     user := Some (lit "user");
     database := Some (lit "main");
     password := JsString (lit "pencil");
     ssl := true;
     connection := {| con_ssl := true; stream := example_socket; listeners := ∅ |};
     saslSession := Some example_session |}.

Definition example_world : World := {| this := example_client; trace := [] |}.

(** The same client with the empty string for its password. *)
Definition example_world_empty_password : World :=
  {| this :=
       {| config := config example_client; host := host example_client;
          user := user example_client; database := database example_client;
          password := JsString (lit ""); ssl := ssl example_client;
          connection := connection example_client;
          saslSession := saslSession example_client |};
     trace := [] |}.

(** node-postgres' own listeners, as its [connect] attaches them. *)
Definition example_pg_listeners : list (string * (bool * nat)) :=
  [("connect"%string, (false, 0%nat)); ("sslconnect"%string, (false, 1%nat));
   ("authenticationCleartextPassword"%string, (false, 2%nat));
   ("authenticationSASLContinue"%string, (false, 3%nat));
   ("readyForQuery"%string, (false, 4%nat)); ("end"%string, (true, 5%nat))].

Definition example_env : Env :=
  {| crypto := CryptoSubtle real_subtle;
     PGHOST := None; USER := Some (lit "user"); USERNAME := None;
     pg_listeners := example_pg_listeners |}.

(** The same runtime without [crypto.subtle]. *)
Definition example_env_no_subtle : Env :=
  {| crypto := SubtleUndefined;
     PGHOST := None; USER := Some (lit "user"); USERNAME := None;
     pg_listeners := example_pg_listeners |}.

Definition challenge (text : string) : AuthenticationMessage :=
  {| data := JsString (lit text) |}.

(** The text of a challenge, empty when [msg.data] is no string. *)
Definition data_text (msg : AuthenticationMessage) : jsstring :=
  match data msg with
  | JsString s => s
  | _ => []
  end.

(** ** [connect] in the words of the design document *)

(** The listeners of an event on the client's connection. *)
Definition con_listeners (w : World) (ev : string) : list Listener :=
  listeners_of ev (listeners (connection (this w))).

(** A listener that is not one of [connect]'s own four. *)
Definition foreign (l : Listener) : Prop := exists id, fn l = PgListener id.

(** Before [connect] the connection carries foreign listeners only. *)
Definition foreign_listeners (w : World) : Prop :=
  forall ev l, In l (con_listeners w ev) -> foreign l.

(** What a call of a listener leaves in the trace. *)
Definition call_effects (neonConfig : Socket) (f : Fn) : list Effect :=
  match f with
  | PgListener id => [PgListenerCalled id]
  | InjectSSLAccept => [StreamEmitData (lit "S")]
  | RearmReadyForQuery => []
  | BoundHandleReadyForQuery => [HandleReadyForQuery]
  | PipelinedStartup =>
      (if disableWarningInBrowsers neonConfig then [] else [WarnIfBrowser])
      ++ [HandleAuthCleartextPassword; HandleReadyForQuery]
  end.

(** The listeners of node-postgres, attached. *)
Definition attached (pg : list (string * (bool * nat)))
    (ls : gmap string (list Listener)) : gmap string (list Listener) :=
  fold_left
    (fun ls e => addListener (fst e) {| once := fst (snd e); fn := PgListener (snd (snd e)) |} ls)
    pg ls.

(** The listeners a [connect] that returns leaves behind. *)
Definition connected_listeners (env : Env) (neonConfig : Socket) (ssl : bool)
    (ls : gmap string (list Listener)) : gmap string (list Listener) :=
  let ls1 := attached (pg_listeners env) ls in
  let ls2 :=
    if pipelineTLS neonConfig && ssl
    then addListener "connect" {| once := false; fn := InjectSSLAccept |} ls1
    else ls1 in
  match pipelineConnect neonConfig with
  | PipelineOff => ls2
  | PipelinePassword =>
      addListener (if ssl then "sslconnect" else "connect")
        {| once := false; fn := PipelinedStartup |}
        (addListener "readyForQuery" {| once := true; fn := RearmReadyForQuery |}
           (delete "readyForQuery"
              (delete "authenticationCleartextPassword" ls2)))
  end.

(** The events of a list, emitted one after the other. *)
Fixpoint emit_all (evs : list string) : M unit :=
  match evs with
  | [] => ret tt
  | ev :: evs' => con_emit ev;; emit_all evs'
  end.

(** The host and the connection string of the configuration object. *)
Definition config_host (c : Config) : option jsstring :=
  match c with ConfigObject o => cfg_host o | _ => None end.
Definition config_connectionString (c : Config) : option jsstring :=
  match c with ConfigObject o => cfg_connectionString o | _ => None end.

Definition with_useSecureWebSocket (b : bool) (c : NeonClient) : NeonClient :=
  {| config := config c; host := host c; user := user c;
     database := database c; password := password c; ssl := ssl c;
     connection :=
       {| con_ssl := con_ssl (connection c);
          stream :=
            {| forceDisablePgSSL := forceDisablePgSSL (stream (connection c));
               useSecureWebSocket := b;
               pipelineTLS := pipelineTLS (stream (connection c));
               pipelineConnect := pipelineConnect (stream (connection c));
               disableWarningInBrowsers :=
                 disableWarningInBrowsers (stream (connection c)) |};
          listeners := listeners (connection c) |};
     saslSession := saslSession c |}.

(** The claim that the accept byte is injected when the connect event
    fires: after a [connect] that returned, emitting [connect] puts the
    byte [S] into the stream's data events. *)
Definition accept_injected_on_connect (env : Env) (w : World) : Prop :=
  forall w1, connect env w = (Return tt, w1) ->
  exists w2 effects,
    con_emit "connect" w1 = (Return tt, w2)
    /\ trace w2 = trace w1 ++ effects
    /\ In (StreamEmitData (lit "S")) effects.

(** The example client without Postgres-level SSL. *)
Definition example_client_plain : NeonClient := with_ssl false example_client.
Definition example_world_plain : World :=
  {| this := example_client_plain; trace := [] |}.

(** A client made with no configuration at all. *)
Definition example_client_defaults : NeonClient :=
  {| config := ConfigUndefined;
     host := lit "localhost";
     user := Some (lit "user");
     database := Some (lit "user");
     password := JsNull;
     ssl := false;
     connection := {| con_ssl := false; stream := example_socket; listeners := ∅ |};
     saslSession := None |}.
Definition example_world_defaults : World :=
  {| this := example_client_defaults; trace := [] |}.

(** The listeners of a client that awaits the event [cev] to start up with
    the password: the re-arming listener alone on [readyForQuery], the
    pipelined start-up last on [cev], and on the other events foreign
    listeners and the injection of the accept byte. *)
Definition awaiting_startup (cev : string) (w : World) : Prop :=
  con_listeners w "readyForQuery" = [{| once := true; fn := RearmReadyForQuery |}]
  /\ (exists pre,
        con_listeners w cev = pre ++ [{| once := false; fn := PipelinedStartup |}]
        /\ Forall foreign pre)
  /\ (forall ev l,
        ev <> "readyForQuery"%string -> ev <> cev ->
        In l (con_listeners w ev) -> foreign l \/ fn l = InjectSSLAccept).

(** The pipelined start-up listens to [sslconnect] and to nothing else. *)
Definition startup_on_sslconnect_only (w : World) : Prop :=
  forall ev l,
    In l (con_listeners w ev) -> fn l = PipelinedStartup -> ev = "sslconnect"%string.

(** ** Further words about the challenge and the connection *)

(** The session is the one node-postgres opened, and the password is a
    string: the checks of lines 127-132 pass on the client's side. *)
Definition session_ready (w : World) (session : SaslSession) : Prop :=
  saslSession (this w) = Some session
  /\ message session = lit "SASLInitialResponse"
  /\ exists pw, password (this w) = JsString pw.

(** The challenge is a string whose pieces all are [name=value] pairs. *)
Definition parses_to (msg : AuthenticationMessage)
    (entries : list (jsstring * jsstring)) : Prop :=
  exists serverData,
    data msg = JsString serverData
    /\ map_attr_pairs (split_comma serverData) = Return entries.

(** [v] is there, is not empty and matches [re]. *)
Definition passes (re : jsstring -> bool) (v : option jsstring) : bool :=
  match v with
  | Some (c :: s) => re (c :: s)
  | _ => false
  end.

(** The calls of [sign] among the effects. *)
Definition is_sign (e : Effect) : Prop :=
  match e with
  | Sign _ _ => True
  | _ => False
  end.

(** [pieces.join(',')] *)
Fixpoint join_comma (pieces : list jsstring) : jsstring :=
  match pieces with
  | [] => []
  | [p] => p
  | p :: rest => p ++ 44 :: join_comma rest
  end.

(** The value of the last entry of a name. *)
Fixpoint last_value (name : jsstring) (entries : list (jsstring * jsstring))
    : option jsstring :=
  match entries with
  | [] => None
  | (n, v) :: rest =>
      match last_value name rest with
      | Some v' => Some v'
      | None => if decide (n = name) then Some v else None
      end
  end.

(** The listeners that node-postgres attaches to one event, in order. *)
Definition pg_listeners_of (ev : string) (pg : list (string * (bool * nat)))
    : list Listener :=
  map (fun e => {| once := fst (snd e); fn := PgListener (snd (snd e)) |})
    (filter (fun e => fst e = ev) pg).

(** A byte. *)
Definition is_byte (b : Z) : Prop := 0 <= b < 256.

(** A value of six bits. *)
Definition sextet_ok (x : Z) : bool := (0 <=? x) && (x <? 64).


(** The example client told to do without Postgres-level SSL. *)
Definition example_socket_forced : Socket :=
  {| forceDisablePgSSL := true; useSecureWebSocket := true;
     pipelineTLS := true; pipelineConnect := PipelinePassword;
     disableWarningInBrowsers := false |}.
Definition example_world_forced : World :=
  {| this :=
       {| config := config example_client; host := host example_client;
          user := user example_client; database := database example_client;
          password := password example_client; ssl := true;
          connection := {| con_ssl := true; stream := example_socket_forced;
                           listeners := ∅ |};
          saslSession := saslSession example_client |};
     trace := [] |}.

(** The example client with TLS pipelining alone. *)
Definition example_socket_unpipelined : Socket :=
  {| forceDisablePgSSL := false; useSecureWebSocket := false;
     pipelineTLS := true; pipelineConnect := PipelineOff;
     disableWarningInBrowsers := false |}.
Definition example_world_unpipelined : World :=
  {| this :=
       {| config := config example_client; host := host example_client;
          user := user example_client; database := database example_client;
          password := password example_client; ssl := true;
          connection := {| con_ssl := true; stream := example_socket_unpipelined;
                           listeners := ∅ |};
          saslSession := saslSession example_client |};
     trace := [] |}.

(** An effect of a listener of node-postgres. *)
Definition pg_effect (e : Effect) : Prop := exists id, e = PgListenerCalled id.

(** The world after some more effects. *)
Definition after (w : World) (effects : list Effect) : World :=
  {| this := this w; trace := trace w ++ effects |}.

(** A computation that does nothing but call [crypto.subtle]: it returns,
    or it throws the [DataError] of [importKey], and either way it has made
    such calls and changed nothing else. *)
Definition crypto_only {A} (m : M A) : Prop :=
  forall w, exists calls,
    Forall is_crypto_call calls
    /\ (m w = (Throw DataError, after w calls)
        \/ exists a, m w = (Return a, after w calls)).

(** A computation that answers the challenge after calls to
    [crypto.subtle], or fails in one of them and leaves the session alone. *)
Definition answers_or_rejects (m : M unit) : Prop :=
  forall w, exists calls,
    Forall is_crypto_call calls
    /\ (m w = (Throw DataError, after w calls)
        \/ exists s',
             message s' = lit "SASLResponse"
             /\ m w = (Return tt,
                       {| this := with_saslSession s' (this w);
                          trace := trace w ++ calls
                                   ++ [SendSCRAMClientFinalMessage (response s')] |})).

(** [Number.MAX_SAFE_INTEGER]: up to it the numbers of JavaScript are the
    integers, and [parseInt], [i++] and the conversion to a string are
    exact. *)
Definition MAX_SAFE_INTEGER : Z := 9007199254740991.
(** ** The accept byte and the start of TLS *)

(** Modelled from the spec: the states of the TLS Upgrade Controller
    (section 4.3), whose code, the socket shim with its [startTls], is not
    under src/.  In software-TLS mode the controller goes from [TlsOpen] to
    [AwaitingSSLAck] when the SSL request is sent, on to [Upgrading] with
    the accept byte [S], where the stream is handed to the TLS engine and
    the encrypting stream takes its place, and to [Secure] when the
    handshake is complete.  The rejection of the upgrade plays no part here
    and is left out. *)
Inductive TlsState := TlsOpen | AwaitingSSLAck | Upgrading | Secure.

(** Modelled from the spec: what moves the controller on (section 4.3):
    the SSL request sent, the accept byte, and the end of the handshake,
    which the TLS engine reports once the server has answered. *)
Inductive TlsInput := SSLRequestSent | AcceptByte | HandshakeComplete.

(** Modelled from the spec: the transitions of section 4.3. *)
Definition tls_step (s : TlsState) (i : TlsInput) : TlsState :=
  match s, i with
  | TlsOpen, SSLRequestSent => AwaitingSSLAck
  | AwaitingSSLAck, AcceptByte => Upgrading
  | Upgrading, HandshakeComplete => Secure
  | _, _ => s
  end.

(** The listeners of [connect], called as [emit] calls them, with what the
    listener of line 80 sets off inside its call.  By the comment of lines
    76-81 the accept byte that it hands to the stream's [data] event
    "prompts call to tls.connect and immediate 'sslconnect' event":
    node-postgres, which waits for the server's answer to its SSL request,
    takes the byte for that answer, starts TLS and emits [sslconnect] on
    the connection at once.  No answer of the server has been read by then:
    the end of the handshake is an input of its own, later. *)
Fixpoint call_connect_listeners (ls : list Listener) (s : TlsState) : M TlsState :=
  match ls with
  | [] => ret s
  | l :: ls' =>
      when (once l) (set_this (with_listeners (removeListener "connect" l)));;
      call (fn l);;
      s' <- match fn l, s with
            | InjectSSLAccept, AwaitingSSLAck =>
                con_emit "sslconnect";; ret (tls_step s AcceptByte)
            | _, _ => ret s
            end;;
      call_connect_listeners ls' s'
  end.

(** The channel has opened on a connection that uses Postgres-level SSL:
    node-postgres emits [connect] on the connection, and its own listener
    of that event sends the SSL request.  The result is the state of the
    TLS upgrade when the event is over. *)
Definition channel_opens : M TlsState :=
  c <- get_this;;
  call_connect_listeners (listeners_of "connect" (listeners (connection c)))
    (tls_step TlsOpen SSLRequestSent).

(* ===================================================================== *)
(** * Properties of the primitives and of the monad *)
(* ===================================================================== *)

Lemma be32_length x : length (Sha256.be32 x) = 4%nat.
Proof. reflexivity. Qed.

Lemma digest_length msg : length (Sha256.digest msg) = 32%nat.
Proof.
  unfold Sha256.digest. cbv zeta.
  repeat rewrite length_app. repeat rewrite be32_length. reflexivity.
Qed.

Lemma real_subtle_sha256_sized : sha256_sized real_subtle.
Proof. intros d. apply digest_length. Qed.

Lemma real_subtle_sized : hmac_sha256_sized real_subtle.
Proof. intros key d. apply digest_length. Qed.

(** Published answers: SHA-256 of "abc" (FIPS 180-4), HMAC-SHA-256 of
    RFC 4231's second test case. *)
Example sha256_abc :
  Sha256.digest (lit "abc")
  = [186; 120; 22; 191; 143; 1; 207; 234; 65; 65; 64; 222; 93; 174; 34; 35;
     176; 3; 97; 163; 150; 23; 122; 156; 180; 16; 255; 97; 242; 0; 21; 173].
Proof. vm_compute. reflexivity. Qed.

Example hmac_sha256_rfc4231_2 :
  Sha256.hmac (lit "Jefe") (lit "what do ya want for nothing?")
  = [91; 220; 193; 70; 191; 96; 117; 78; 106; 4; 36; 38; 8; 149; 117; 199;
     90; 0; 63; 8; 157; 39; 57; 131; 157; 236; 88; 185; 100; 236; 56; 67].
Proof. vm_compute. reflexivity. Qed.

Lemma bind_run {A B} (m : M A) (k : A -> M B) w a w' :
  m w = (Return a, w') -> bind m k w = k a w'.
Proof. intros H. unfold bind. rewrite H. reflexivity. Qed.

Lemma bind_throw {A B} (m : M A) (k : A -> M B) w e w' :
  m w = (Throw e, w') -> bind m k w = (Throw e, w').
Proof. intros H. unfold bind. rewrite H. reflexivity. Qed.

Lemma world_eta w : {| this := this w; trace := trace w |} = w.
Proof. destruct w; reflexivity. Qed.

Lemma bind_ret {A B} (a : A) (k : A -> M B) w : bind (ret a) k w = k a w.
Proof. reflexivity. Qed.

Lemma bind_bind {A B C} (m : M A) (k1 : A -> M B) (k2 : B -> M C) w :
  bind (bind m k1) k2 w = bind m (fun a => bind (k1 a) k2) w.
Proof. unfold bind. destruct (m w) as [[a|e] w']; reflexivity. Qed.

(** [importKey] takes every key but the empty one. *)
Lemma importKey_run raw w :
  raw <> [] ->
  importKey raw w
  = (Return {| key_raw := raw |},
     {| this := this w; trace := trace w ++ [ImportKey raw] |}).
Proof. destruct raw; [congruence|reflexivity]. Qed.

Lemma importKey_empty w :
  importKey [] w
  = (Throw DataError, {| this := this w; trace := trace w ++ [ImportKey []] |}).
Proof. reflexivity. Qed.

Lemma importKey_cases raw w :
  let w' := {| this := this w; trace := trace w ++ [ImportKey raw] |} in
  importKey raw w = (Throw DataError, w')
  \/ importKey raw w = (Return {| key_raw := raw |}, w').
Proof. destruct raw; [left|right]; reflexivity. Qed.

Lemma sign_run cs key d w :
  sign cs key d w
  = (Return (subtle_sign cs (key_raw key) d),
     {| this := this w; trace := trace w ++ [Sign (key_raw key) d] |}).
Proof. reflexivity. Qed.

Lemma digest_run cs d w :
  digest cs d w
  = (Return (subtle_digest cs d),
     {| this := this w; trace := trace w ++ [Digest d] |}).
Proof. reflexivity. Qed.

Lemma sized_nonempty (bs : bytes) : length bs = 32%nat -> bs <> [].
Proof. intros H ->. discriminate. Qed.

Lemma TextEncoder_encode_nonempty pw : pw <> [] -> TextEncoder_encode pw <> [].
Proof.
  destruct pw as [|c rest]; [congruence|]. intros _. cbn [TextEncoder_encode].
  unfold utf8_2, utf8_3, utf8_4.
  repeat match goal with
         | |- context [if ?b then _ else _] => destruct b
         | |- context [match ?l with [] => _ | _ :: _ => _ end] => destruct l
         end; cbn [app]; discriminate.
Qed.

(** [a.map((_, i) => a[i] ^ b[i])] is the XOR of two byte strings of one
    length. *)
Lemma xor_map_bytes_xor a b :
  length a = length b -> xor_map a b = bytes_xor a b.
Proof.
  unfold xor_map, bytes_xor. revert b.
  induction a as [|x a IH]; intros [|y b] Hlen; simpl in *; try discriminate; auto.
  f_equal. rewrite <- IH by lia. apply imap_ext. reflexivity.
Qed.

Lemma bytes_xor_length a b :
  length a = length b -> length (bytes_xor a b) = length a.
Proof.
  unfold bytes_xor. intros H. rewrite length_zip_with. lia.
Qed.

(** ** The derivation of the salted password *)

Section Derivation.
Variable cs : SubtleCrypto.
Hypothesis Hsized : hmac_sha256_sized cs.
Variables str salt : bytes.

(** The loop, started after round [k+1], XORs the rounds [k+2 .. k+n+1]
    into its accumulator and calls nothing but [sign]. *)
Lemma hmac_rounds_run n : forall k ui w,
  length ui = 32%nat ->
  exists calls,
    hmac_rounds cs {| key_raw := str |} n
      (scram_U (subtle_sign cs) str salt (S k)) ui w
    = (Return (fold_left bytes_xor
                 (map (scram_U (subtle_sign cs) str salt) (seq (S (S k)) n)) ui),
       {| this := this w; trace := trace w ++ calls |})
    /\ Forall is_crypto_call calls.
Proof.
  induction n as [|n IH]; intros k ui w Hui.
  - exists []. split; [|constructor].
    simpl. unfold ret. rewrite app_nil_r, world_eta. reflexivity.
  - destruct (IH (S k)
                (bytes_xor ui (scram_U (subtle_sign cs) str salt (S (S k))))
                {| this := this w;
                   trace := trace w
                            ++ [Sign str (scram_U (subtle_sign cs) str salt (S k))] |})
      as (calls & Hrun & Hcalls).
    { rewrite bytes_xor_length; [exact Hui|].
      rewrite Hui. symmetry. apply Hsized. }
    exists (Sign str (scram_U (subtle_sign cs) str salt (S k)) :: calls). split.
    + cbn [hmac_rounds]. unfold sign at 1, bind at 1, perform, ret. cbn [key_raw].
      unfold bind at 1.
      rewrite xor_map_bytes_xor
        by (rewrite Hui; symmetry; apply Hsized).
      change (subtle_sign cs str (scram_U (subtle_sign cs) str salt (S k)))
        with (scram_U (subtle_sign cs) str salt (S (S k))).
      rewrite Hrun. cbn [this trace map seq fold_left].
      rewrite <- app_assoc. reflexivity.
    + constructor; [exact I | exact Hcalls].
Qed.
End Derivation.

(** ** The validation of the challenge *)

Lemma map_attr_pairs_throw pieces e :
  map_attr_pairs pieces = Throw e ->
  e = Error (lit "SASL: Invalid attribute pair entry").
Proof.
  induction pieces as [|p pieces IH]; simpl; [discriminate|].
  destruct (re_attr_pair p); simpl; [|congruence].
  destruct (map_attr_pairs pieces); [discriminate|].
  intros [= <-]. auto.
Qed.

Lemma AuthError_lit (text : string) (reason : string) :
  lit text = lit "SASL: " ++ lit reason -> AuthError (Error (lit text)).
Proof. intros H. exists (lit reason). rewrite H. reflexivity. Qed.

Lemma check_attr_cases v re text w :
  (check_attr v re text w = (Throw (Error (lit text)), w)
   /\ (v = None \/ v = Some [] \/ exists s, v = Some s /\ re s = false))
  \/ (exists s, v = Some s /\ s <> [] /\ re s = true
                /\ check_attr v re text w = (Return s, w)).
Proof.
  unfold check_attr. destruct v as [[|c s]|]; auto.
  destruct (re (c :: s)) eqn:Hre.
  - right. exists (c :: s). auto.
  - left. split; [reflexivity|]. right. right. eauto.
Qed.
Ltac auth_error reason :=
  left; eexists; split; [reflexivity|]; by apply (AuthError_lit _ reason).

Lemma validate_challenge_cases c msg w session :
  saslSession c = Some session ->
  (exists e, validate_challenge c msg w = (Throw e, w) /\ AuthError e)
  \/ (exists pw nonce salt iterationText,
        message session = lit "SASLInitialResponse" /\
        password c = JsString pw /\
        valid_challenge session msg nonce salt iterationText /\
        validate_challenge c msg w
        = (Return (session, pw, (nonce, salt, iterationText)), w)).
Proof.
  intros Hsess.
  remember (validate_challenge c msg w) as r eqn:Hr.
  unfold validate_challenge, valid_challenge, challenge_attr in *.
  rewrite Hsess in Hr. unfold check_protocol in Hr.
  destruct (bool_decide_reflect (message session = lit "SASLInitialResponse")) as [Hmsg|Hmsg];
    [|subst r; auth_error "protocol error"].
  destruct (password c) as [pw| | |]; cbn [as_string] in Hr;
    try (subst r; auth_error "protocol error").
  destruct (data msg) as [serverData| | |]; cbn [as_string] in Hr;
    try (subst r; auth_error "protocol error").
  unfold bind at 1 in Hr. unfold ret at 1 in Hr. unfold parse_attrPairs in Hr.
  destruct (map_attr_pairs (split_comma serverData)) as [entries|e] eqn:Hparse.
  2:{ subst r. left. exists e. split; [reflexivity|].
      apply map_attr_pairs_throw in Hparse. subst e.
      by apply (AuthError_lit _ "Invalid attribute pair entry"). }
  unfold bind at 1 in Hr. unfold ret at 1 in Hr.
  destruct (check_attr_cases (fromEntries entries !! lit "r") re_nonce
              "SASL: SCRAM-SERVER-FIRST-MESSAGE: nonce missing/unprintable" w)
    as [[Ht _]|(nonce & Hr1 & _ & Hr2 & Hok)].
  { rewrite (bind_throw _ _ _ _ _ Ht) in Hr. subst r.
    auth_error "SCRAM-SERVER-FIRST-MESSAGE: nonce missing/unprintable". }
  rewrite (bind_run _ _ _ _ _ Hok) in Hr. clear Hok.
  destruct (check_attr_cases (fromEntries entries !! lit "s") re_base64
              "SASL: SCRAM-SERVER-FIRST-MESSAGE: salt missing/not base64" w)
    as [[Ht _]|(salt & Hs1 & Hs0 & Hs2 & Hok)].
  { rewrite (bind_throw _ _ _ _ _ Ht) in Hr. subst r.
    auth_error "SCRAM-SERVER-FIRST-MESSAGE: salt missing/not base64". }
  rewrite (bind_run _ _ _ _ _ Hok) in Hr. clear Hok.
  destruct (check_attr_cases (fromEntries entries !! lit "i") re_iterations
              "SASL: SCRAM-SERVER-FIRST-MESSAGE: missing/invalid iteration count" w)
    as [[Ht _]|(iterationText & Hi1 & _ & Hi2 & Hok)].
  { rewrite (bind_throw _ _ _ _ _ Ht) in Hr. subst r.
    auth_error "SCRAM-SERVER-FIRST-MESSAGE: missing/invalid iteration count". }
  rewrite (bind_run _ _ _ _ _ Hok) in Hr. clear Hok.
  destruct (startsWith nonce (clientNonce session)) eqn:Hstarts;
    [|subst r; auth_error "SCRAM-SERVER-FIRST-MESSAGE: server nonce does not start with client nonce"].
  destruct (Z.eqb_spec (jslength nonce) (jslength (clientNonce session))) as [Hlen|Hlen];
    [subst r; auth_error "SCRAM-SERVER-FIRST-MESSAGE: server nonce is too short"|].
  subst r. right. exists pw, nonce, salt, iterationText.
  repeat split; auto.
Qed.

Lemma re_nonce_printable s : re_nonce s = true -> printable_nonce s.
Proof.
  unfold re_nonce, printable_nonce. intros H.
  assert (Hall : forallb re_nonce_char s = true) by (destruct s; [discriminate|exact H]).
  clear H. induction s as [|c s IH]; [constructor|].
  simpl in Hall. apply andb_prop in Hall as [Hc Hs].
  constructor; [|auto].
  unfold re_nonce_char in Hc. unfold printable_ascii. lia.
Qed.

Lemma re_b64_char_alphabet c : re_b64_char c = true -> base64_alphabet c.
Proof. unfold re_b64_char, base64_alphabet. lia. Qed.

Lemma re_base64_text s : re_base64 s = true -> base64_text s.
Proof.
  remember (length s) as n eqn:Hn. revert s Hn.
  induction n as [n IH] using lt_wf_ind. intros s Hn H.
  destruct s as [|a [|b [|c [|d rest]]]]; try discriminate; [constructor|].
  cbn [re_base64] in H.
  apply andb_prop in H as [Hab H]. apply andb_prop in Hab as [Ha Hb].
  apply re_b64_char_alphabet in Ha, Hb.
  destruct rest as [|x rest'].
  - apply orb_prop in H as [H|H].
    + apply andb_prop in H as [Hc Hd]. apply re_b64_char_alphabet in Hc.
      apply orb_prop in Hd as [Hd|Hd].
      * apply re_b64_char_alphabet in Hd.
        apply base64_group; auto. apply base64_end.
      * apply Z.eqb_eq in Hd. subst d. by apply base64_pad1.
    + apply andb_prop in H as [Hc Hd]. apply Z.eqb_eq in Hc, Hd. subst c d.
      by apply base64_pad2.
  - apply andb_prop in H as [Hcd Hrest]. apply andb_prop in Hcd as [Hc Hd].
    apply re_b64_char_alphabet in Hc, Hd.
    apply base64_group; auto.
    apply (IH (length (x :: rest'))); [subst n; simpl; lia|reflexivity|exact Hrest].
Qed.

Lemma parseInt10_positive s acc :
  Forall (fun c => 48 <= c <= 57) s -> 1 <= acc ->
  1 <= fold_left (fun acc c => 10 * acc + (c - 48)) s acc.
Proof.
  intros Hs. revert acc. induction Hs as [|c s Hc Hs IH]; intros acc Hacc; simpl; [lia|].
  apply IH. lia.
Qed.

Lemma re_iterations_positive s : re_iterations s = true -> positive_integer_text s.
Proof.
  destruct s as [|c s]; [discriminate|]. cbn [re_iterations]. intros H.
  apply andb_prop in H as [Hc Hs]. 
  assert (Hds : Forall (fun c => 48 <= c <= 57) s).
  { clear Hc. induction s as [|d s IH]; [constructor|].
    simpl in Hs. apply andb_prop in Hs as [Hd Hs]. constructor; [|auto].
    unfold re_digit in Hd. lia. }
  split; [discriminate|]. split.
  - constructor; [lia|exact Hds].
  - unfold parseInt10. cbn [fold_left].
    pose proof (parseInt10_positive s (10 * 0 + (c - 48)) Hds). lia.
Qed.

(** With [crypto.subtle] in place the method is the validation followed by
    the response. *)
Lemma handleAuthSASLContinue_subtle env cs msg w :
  crypto env = CryptoSubtle cs ->
  _handleAuthSASLContinue env msg w
  = bind (validate_challenge (this w) msg)
      (fun '(session, pw, (nonce, salt, iterationText)) =>
         respond cs session pw nonce salt iterationText) w.
Proof.
  intros H. unfold _handleAuthSASLContinue, require_subtle. rewrite H.
  reflexivity.
Qed.

(** A challenge that the validation lets through is a valid one; otherwise
    the method fails with an [AuthError] and leaves the world as it was. *)
Lemma invalid_challenge_fails env cs msg w session :
  crypto env = CryptoSubtle cs ->
  saslSession (this w) = Some session ->
  (forall nonce salt iterationText,
     ~ valid_challenge session msg nonce salt iterationText) ->
  exists e, _handleAuthSASLContinue env msg w = (Throw e, w) /\ AuthError e.
Proof.
  intros Hcs Hsess Hbad. rewrite (handleAuthSASLContinue_subtle _ _ _ _ Hcs).
  destruct (validate_challenge_cases (this w) msg w session Hsess)
    as [(e & Hthrow & Hauth)|(pw & nonce & salt & it & _ & _ & Hvalid & _)].
  - exists e. split; [|exact Hauth]. apply bind_throw. exact Hthrow.
  - destruct (Hbad _ _ _ Hvalid).
Qed.

(* ===================================================================== *)
(** * Failures of [_handleAuthSASLContinue] *)
(* ===================================================================== *)

(** C3: a challenge whose server nonce does not start with the client nonce,
    or is exactly as long as the client nonce, makes the method fail with an
    [AuthError]; the world comes out as it went in, so not one call to
    [crypto.subtle] (no HMAC, no SHA-256) was made before the failure.  The
    method gets as far as the challenge when [crypto.subtle] is there and
    node-postgres has opened the session that holds the client nonce. *)
Theorem nonce_mismatch_is_AuthError env cs msg w session nonce :
  crypto env = CryptoSubtle cs ->
  saslSession (this w) = Some session ->
  challenge_attr msg "r" = Some nonce ->
  startsWith nonce (clientNonce session) = false
  \/ jslength nonce = jslength (clientNonce session) ->
  exists e, _handleAuthSASLContinue env msg w = (Throw e, w) /\ AuthError e.
Proof.
  intros Hcs Hsess Hnonce Hbad.
  apply (invalid_challenge_fails env cs msg w session Hcs Hsess).
  intros nonce' salt it (Hr & _ & _ & _ & _ & _ & _ & Hstarts & Hlen).
  rewrite Hnonce in Hr. injection Hr as <-.
  destruct Hbad as [Hbad|Hbad]; congruence.
Qed.

Lemma nonce_mismatch_is_AuthError_witness :
  exists e,
    _handleAuthSASLContinue example_env
      (challenge "r=rOprNGfwEbeRWgbNEkqO,s=W22ZaJ0SNY7soEsUEjb6gQ==,i=4096")
      example_world
    = (Throw e, example_world) /\ AuthError e.
Proof.
  apply (nonce_mismatch_is_AuthError example_env real_subtle _ example_world
           example_session (lit "rOprNGfwEbeRWgbNEkqO")).
  - reflexivity.
  - reflexivity.
  - vm_compute. reflexivity.
  - right. reflexivity.
Defined.

(** C4: a challenge whose nonce is missing or has a character that is not
    printable ASCII or is a comma, or whose salt is missing or is not base64,
    or whose iteration count is missing or is not a positive integer, makes
    the method fail with an [AuthError], whose text carries the reason; the
    world comes out as it went in, so nothing of the key derivation ran. *)
Theorem malformed_challenge_is_AuthError env cs msg w session :
  crypto env = CryptoSubtle cs ->
  saslSession (this w) = Some session ->
  missing_or_not printable_nonce (challenge_attr msg "r")
  \/ missing_or_not base64_text (challenge_attr msg "s")
  \/ missing_or_not positive_integer_text (challenge_attr msg "i") ->
  exists e, _handleAuthSASLContinue env msg w = (Throw e, w) /\ AuthError e.
Proof.
  intros Hcs Hsess Hbad.
  apply (invalid_challenge_fails env cs msg w session Hcs Hsess).
  intros nonce salt it (Hr & Hr' & Hs & _ & Hs' & Hi & Hi' & _).
  destruct Hbad as [Hbad|[Hbad|Hbad]].
  - apply (Hbad nonce Hr). by apply re_nonce_printable.
  - apply (Hbad salt Hs). by apply re_base64_text.
  - apply (Hbad it Hi). by apply re_iterations_positive.
Qed.

Lemma malformed_challenge_is_AuthError_witness :
  exists e,
    _handleAuthSASLContinue example_env
      (challenge "r=rOprNGfwEbeRWgbNEkqO%hvYDpWUa2RaTCAfuxFIlj)hNlF$k0,s=W22ZaJ0SNY7soEsUEjb6gQ==,i=0")
      example_world
    = (Throw e, example_world) /\ AuthError e.
Proof.
  apply (malformed_challenge_is_AuthError example_env real_subtle _
           example_world example_session).
  - reflexivity.
  - reflexivity.
  - right. right. intros s Hs. vm_compute in Hs. injection Hs as <-.
    intros (_ & _ & Hpos). vm_compute in Hpos. discriminate.
Defined.

(** C7: without [crypto.subtle] and its [importKey] the method fails at
    once with the [ConfigurationError]: whatever the session, the password
    and the challenge are, the outcome is the same and the world is left as
    it was. *)
Theorem missing_crypto_is_ConfigurationError env msg w :
  (forall cs, crypto env <> CryptoSubtle cs) ->
  _handleAuthSASLContinue env msg w = (Throw ConfigurationError, w).
Proof.
  intros H. unfold _handleAuthSASLContinue, require_subtle.
  destruct (crypto env) as [| | |cs]; try reflexivity.
  destruct (H cs). reflexivity.
Qed.

Lemma missing_crypto_is_ConfigurationError_witness :
  _handleAuthSASLContinue example_env_no_subtle
    (challenge "r=rOprNGfwEbeRWgbNEkqO%hv,s=W22ZaJ0SNY7soEsUEjb6gQ==,i=4096")
    example_world
  = (Throw ConfigurationError, example_world).
Proof.
  apply (missing_crypto_is_ConfigurationError example_env_no_subtle).
  intros cs. discriminate.
Defined.

(* ===================================================================== *)
(** * The computation of [_handleAuthSASLContinue] *)
(* ===================================================================== *)

Lemma scram_Hi_length cs str salt n :
  hmac_sha256_sized cs -> (1 <= n)%nat ->
  length (scram_Hi (subtle_sign cs) str salt n) = 32%nat.
Proof.
  intros Hsized Hn. destruct n as [|n]; [lia|]. unfold scram_Hi.
  cbn [seq map].
  assert (H : forall us u,
             length u = 32%nat ->
             Forall (fun x => length x = 32%nat) us ->
             length (fold_left bytes_xor us u) = 32%nat).
  { induction us as [|x us IH]; intros u Hu Hus; [exact Hu|].
    inversion_clear Hus as [|? ? Hx Hus']. cbn [fold_left].
    apply IH; [|exact Hus']. rewrite bytes_xor_length; congruence. }
  apply H; [apply Hsized|].
  apply List.Forall_forall. intros x Hx. apply in_map_iff in Hx as (k & <- & Hk).
  apply in_seq in Hk. destruct k as [|k]; [lia|]. apply Hsized.
Qed.

Lemma derive_saltedPassword_run cs pw salt n w :
  hmac_sha256_sized cs -> pw <> [] -> 1 <= n ->
  exists calls,
    derive_saltedPassword cs pw salt n w
    = (Return (scram_Hi (subtle_sign cs) (TextEncoder_encode pw)
                 (Buffer_from_base64 salt) (Z.to_nat n)),
       {| this := this w; trace := trace w ++ calls |})
    /\ Forall is_crypto_call calls.
Proof.
  intros Hsized Hpw Hn.
  pose proof (TextEncoder_encode_nonempty pw Hpw) as Hstr.
  set (str := TextEncoder_encode pw) in *. set (sb := Buffer_from_base64 salt).
  destruct (hmac_rounds_run cs Hsized str sb (Z.to_nat (n - 1)) 0
              (scram_U (subtle_sign cs) str sb 1)
              {| this := this w;
                 trace := (trace w ++ [ImportKey str]) ++ [Sign str (sb ++ [0; 0; 0; 1])] |})
    as (calls & Hrun & Hcalls).
  { apply Hsized. }
  exists (ImportKey str :: Sign str (sb ++ [0; 0; 0; 1]) :: calls). split.
  - unfold derive_saltedPassword. fold str sb.
    rewrite (bind_run _ _ _ _ _ (importKey_run str w Hstr)).
    unfold sign, bind, perform, ret.
    cbn [key_raw this trace].
    change (subtle_sign cs str (sb ++ [0; 0; 0; 1]))
      with (scram_U (subtle_sign cs) str sb 1).
    rewrite Hrun. cbn [this trace].
    replace (Z.to_nat n) with (S (Z.to_nat (n - 1))) by lia.
    unfold scram_Hi. cbn [seq map].
    repeat rewrite <- app_assoc. reflexivity.
  - repeat constructor. exact Hcalls.
Qed.

(** C1, as amended: for every password that is not empty, every salt and
    every iteration count [n] from 1 to [Number.MAX_SAFE_INTEGER] the
    salted password that the method derives (lines 174-197) is SCRAM's
    [Hi(password, salt, n)]: [U1 = HMAC(password, salt || 00 00 00 01)],
    [U(k+1) = HMAC(password, Uk)], all of [U1 .. Un] XORed together.  It
    is a function of the three alone: the world the derivation starts in
    has no part in it, and the derivation changes nothing of the client. *)
Theorem saltedPassword_is_scram_Hi cs pw salt n :
  hmac_sha256_sized cs ->
  pw <> [] ->
  1 <= n <= MAX_SAFE_INTEGER ->
  forall w, exists w',
    derive_saltedPassword cs pw salt n w
    = (Return (scram_Hi (subtle_sign cs) (TextEncoder_encode pw)
                 (Buffer_from_base64 salt) (Z.to_nat n)), w')
    /\ this w' = this w.
Proof.
  intros Hsized Hpw [Hn _] w.
  destruct (derive_saltedPassword_run cs pw salt n w Hsized Hpw Hn)
    as (calls & Hrun & _).
  eexists. split; [exact Hrun|reflexivity].
Qed.

Lemma saltedPassword_is_scram_Hi_witness :
  exists w',
    derive_saltedPassword real_subtle (lit "password") (lit "c2FsdA==") 2
      example_world
    = (Return (scram_Hi Sha256.hmac (lit "password") (lit "salt") 2), w')
    /\ this w' = this example_world.
Proof.
  apply (saltedPassword_is_scram_Hi real_subtle (lit "password")
           (lit "c2FsdA==") 2 real_subtle_sized).
  - discriminate.
  - unfold MAX_SAFE_INTEGER. lia.
Defined.

(** C1, as stated, fails: it speaks of every password, and for the empty
    password no salted password is derived at all; [importKey] rejects the
    key of no bytes with a [DataError] before the first [sign]. *)
Lemma saltedPassword_empty_password_counterexample :
  derive_saltedPassword real_subtle (lit "") (lit "c2FsdA==") 1 example_world
  = (Throw DataError,
     {| this := this example_world;
        trace := trace example_world ++ [ImportKey []] |}).
Proof. reflexivity. Qed.

(** The derivation, run on the published answers of PBKDF2 with
    HMAC-SHA-256 for the password "password" and the salt "salt", whose one
    block of 32 bytes is [Hi]: one and two iterations. *)
Example saltedPassword_known_answer_1 :
  fst (derive_saltedPassword real_subtle (lit "password") (lit "c2FsdA==") 1
         example_world)
  = Return [18; 15; 182; 207; 252; 248; 179; 44; 67; 231; 34; 82; 86; 196;
            248; 55; 168; 101; 72; 201; 44; 204; 53; 72; 8; 5; 152; 124; 183;
            11; 225; 123].
Proof. vm_compute. reflexivity. Qed.

Example saltedPassword_known_answer_2 :
  fst (derive_saltedPassword real_subtle (lit "password") (lit "c2FsdA==") 2
         example_world)
  = Return [174; 77; 12; 149; 175; 107; 70; 211; 45; 10; 223; 249; 40; 240;
            109; 208; 42; 48; 63; 142; 243; 194; 81; 223; 214; 226; 216; 90;
            149; 71; 76; 67].
Proof. vm_compute. reflexivity. Qed.

Lemma check_attr_ok s re text w :
  s <> [] -> re s = true -> check_attr (Some s) re text w = (Return s, w).
Proof.
  intros Hs Hre. unfold check_attr. destruct s as [|c s]; [done|].
  rewrite Hre. reflexivity.
Qed.

(** A valid challenge passes the validation, which touches nothing. *)
Lemma validate_challenge_valid c msg w session pw nonce salt it :
  saslSession c = Some session ->
  message session = lit "SASLInitialResponse" ->
  password c = JsString pw ->
  valid_challenge session msg nonce salt it ->
  validate_challenge c msg w = (Return (session, pw, (nonce, salt, it)), w).
Proof.
  intros Hsess Hmsg Hpw (Hr & Hr' & Hs & Hs0 & Hs' & Hi & Hi' & Hst & Hlen).
  unfold challenge_attr in *.
  destruct (data msg) as [serverData| | |] eqn:Hdata; try discriminate.
  destruct (map_attr_pairs (split_comma serverData)) as [entries|] eqn:Hparse;
    try discriminate.
  unfold validate_challenge, check_protocol, parse_attrPairs.
  rewrite Hsess, Hpw, Hdata, (bool_decide_eq_true_2 _ Hmsg).
  cbn [as_string]. unfold bind at 1, ret at 1. rewrite Hparse.
  unfold bind at 1, ret at 1.
  rewrite Hr, Hs, Hi.
  assert (Hn0 : nonce <> []) by (intros ->; discriminate).
  assert (Hi0 : it <> []) by (intros ->; discriminate).
  rewrite (bind_run _ _ _ _ _ (check_attr_ok nonce _ _ w Hn0 Hr')).
  rewrite (bind_run _ _ _ _ _ (check_attr_ok salt _ _ w Hs0 Hs')).
  rewrite (bind_run _ _ _ _ _ (check_attr_ok it _ _ w Hi0 Hi')).
  rewrite Hst. apply Z.eqb_neq in Hlen. rewrite Hlen. reflexivity.
Qed.

Lemma respond_run cs session pw nonce salt it w :
  hmac_sha256_sized cs -> sha256_sized cs -> pw <> [] -> 1 <= parseInt10 it ->
  let hmac := subtle_sign cs in
  let saltedPassword :=
    scram_Hi hmac (TextEncoder_encode pw) (Buffer_from_base64 salt)
      (Z.to_nat (parseInt10 it)) in
  let clientKey := hmac saltedPassword (TextEncoder_encode (lit "Client Key")) in
  let storedKey := subtle_digest cs clientKey in
  let serverKey := hmac saltedPassword (TextEncoder_encode (lit "Server Key")) in
  let authMessage :=
    (lit "n=*,r=" ++ clientNonce session) ++ lit ","
    ++ (lit "r=" ++ nonce ++ lit ",s=" ++ salt ++ lit ",i="
        ++ number_toString (parseInt10 it))
    ++ lit "," ++ (lit "c=biws,r=" ++ nonce) in
  let final :=
    (lit "c=biws,r=" ++ nonce) ++ lit ",p="
    ++ toString_base64
         (bytes_xor clientKey (hmac storedKey (TextEncoder_encode authMessage))) in
  exists calls,
    respond cs session pw nonce salt it w
    = (Return tt,
       {| this :=
            with_saslSession
              {| message := lit "SASLResponse";
                 clientNonce := clientNonce session;
                 serverSignature :=
                   Some (toString_base64
                           (hmac serverKey (TextEncoder_encode authMessage)));
                 response := final |} (this w);
          trace := trace w ++ calls ++ [SendSCRAMClientFinalMessage final] |})
    /\ Forall is_crypto_call calls.
Proof.
  intros Hsized Hdigest Hpw Hn hmac saltedPassword clientKey storedKey serverKey
    authMessage final.
  destruct (derive_saltedPassword_run cs pw salt (parseInt10 it) w Hsized Hpw Hn)
    as (calls & Hrun & Hcalls).
  fold hmac saltedPassword in Hrun.
  assert (Hsp : saltedPassword <> []).
  { apply sized_nonempty, scram_Hi_length; [exact Hsized|lia]. }
  assert (Hstored : storedKey <> []) by apply sized_nonempty, Hdigest.
  assert (Hserver : serverKey <> []) by apply sized_nonempty, Hsized.
  exists (calls ++
          [ImportKey saltedPassword;
           Sign saltedPassword (TextEncoder_encode (lit "Client Key"));
           Digest clientKey;
           ImportKey storedKey;
           Sign storedKey (TextEncoder_encode authMessage);
           ImportKey saltedPassword;
           Sign saltedPassword (TextEncoder_encode (lit "Server Key"));
           ImportKey serverKey;
           Sign serverKey (TextEncoder_encode authMessage)]).
  split.
  - unfold respond. rewrite (bind_run _ _ _ _ _ Hrun).
    rewrite (bind_run _ _ _ _ _ (importKey_run _ _ Hsp)).
    rewrite (bind_run _ _ _ _ _ (sign_run _ _ _ _)).
    rewrite (bind_run _ _ _ _ _ (digest_run _ _ _)).
    cbn [key_raw]. fold hmac. fold clientKey. fold storedKey.
    rewrite (bind_run _ _ _ _ _ (importKey_run _ _ Hstored)).
    rewrite (bind_run _ _ _ _ _ (sign_run _ _ _ _)).
    rewrite (bind_run _ _ _ _ _ (importKey_run _ _ Hsp)).
    rewrite (bind_run _ _ _ _ _ (sign_run _ _ _ _)).
    cbn [key_raw]. fold hmac. fold serverKey.
    rewrite (bind_run _ _ _ _ _ (importKey_run _ _ Hserver)).
    rewrite (bind_run _ _ _ _ _ (sign_run _ _ _ _)).
    unfold perform, ret, set_this, get_this, bind.
    cbn [this trace key_raw saslSession with_saslSession response].
    fold hmac.
    rewrite xor_map_bytes_xor by (unfold clientKey, hmac; rewrite !Hsized; reflexivity).
    repeat rewrite <- (@List.app_assoc Effect). reflexivity.
  - apply Forall_app. split; [exact Hcalls|]. repeat constructor.
Qed.

(** ** The iteration count, parsed and printed again *)

Lemma parseInt10_snoc s d acc :
  fold_left (fun acc c => 10 * acc + (c - 48)) (s ++ [d]) acc
  = 10 * fold_left (fun acc c => 10 * acc + (c - 48)) s acc + (d - 48).
Proof. rewrite fold_left_app. reflexivity. Qed.

Lemma parseInt10_lower s : forall acc,
  Forall (fun c => 48 <= c <= 57) s -> 1 <= acc ->
  2 ^ Z.of_nat (length s) * acc
  <= fold_left (fun acc c => 10 * acc + (c - 48)) s acc.
Proof.
  induction s as [|d s IH]; intros acc Hs Hacc.
  - simpl. lia.
  - inversion Hs as [|? ? Hd Hs']; subst. cbn [fold_left length].
    rewrite Nat2Z.inj_succ, Z.pow_succ_r by lia.
    specialize (IH (10 * acc + (d - 48)) Hs' ltac:(lia)).
    assert (0 < 2 ^ Z.of_nat (length s)) by (apply Z.pow_pos_nonneg; lia).
    nia.
Qed.

Lemma digits_fuel_parse s : forall a fuel acc,
  Forall (fun c => 48 <= c <= 57) s -> 1 <= a <= 9 ->
  (length s < fuel)%nat ->
  digits_fuel fuel (fold_left (fun acc c => 10 * acc + (c - 48)) s a) acc
  = (48 + a) :: s ++ acc.
Proof.
  induction s as [|d s IH] using rev_ind; intros a fuel acc Hs Ha Hfuel.
  - destruct fuel as [|fuel]; [simpl in Hfuel; lia|].
    cbn [fold_left digits_fuel app].
    rewrite Z.mod_small by lia.
    destruct (Z.ltb_spec a 10); [reflexivity|lia].
  - apply Forall_app in Hs as [Hs Hd]. inversion Hd as [|? ? Hd' _]; subst.
    rewrite length_app in Hfuel. cbn [length] in Hfuel.
    destruct fuel as [|fuel]; [lia|].
    rewrite parseInt10_snoc.
    set (F := fold_left (fun acc c => 10 * acc + (c - 48)) s a).
    assert (HF : 1 <= F).
    { unfold F. apply parseInt10_positive; [exact Hs|lia]. }
    cbn [digits_fuel].
    replace ((10 * F + (d - 48)) mod 10) with (d - 48)
      by (rewrite Z.add_comm, Z.mul_comm, Z.mod_add by lia;
          rewrite Z.mod_small by lia; reflexivity).
    replace ((10 * F + (d - 48)) / 10) with F
      by (rewrite Z.add_comm, Z.mul_comm, Z.div_add by lia;
          rewrite Z.div_small by lia; lia).
    destruct (Z.ltb_spec (10 * F + (d - 48)) 10); [lia|].
    unfold F. rewrite IH by (auto; lia).
    replace (48 + (d - 48)) with d by lia.
    rewrite <- app_assoc. reflexivity.
Qed.

(** [String(parseInt(s, 10))] gives back the text of an iteration count
    that passed its format check. *)
Lemma number_toString_parseInt10 s :
  re_iterations s = true -> number_toString (parseInt10 s) = s.
Proof.
  intros H. pose proof (re_iterations_positive s H) as (_ & Hds & _).
  destruct s as [|c s]; [discriminate|].
  cbn [re_iterations] in H. apply andb_prop in H as [Hc _].
  inversion Hds as [|? ? _ Hs]; subst.
  unfold number_toString, parseInt10. cbn [fold_left].
  replace (10 * 0 + (c - 48)) with (c - 48) by lia.
  rewrite digits_fuel_parse; [|exact Hs|lia|].
  - rewrite app_nil_r. f_equal. lia.
  - pose proof (parseInt10_lower s (c - 48) Hs ltac:(lia)) as Hlow.
    set (n := fold_left (fun acc c0 => 10 * acc + (c0 - 48)) s (c - 48)) in *.
    assert (Hpow : 2 ^ Z.of_nat (length s) <= n).
    { assert (0 < 2 ^ Z.of_nat (length s)) by (apply Z.pow_pos_nonneg; lia). nia. }
    assert (Z.of_nat (length s) <= Z.log2 n).
    { apply Z.log2_le_pow2; [|exact Hpow].
      assert (0 < 2 ^ Z.of_nat (length s)) by (apply Z.pow_pos_nonneg; lia). lia. }
    lia.
Qed.

(** C2, as amended: on a valid challenge that consists of the nonce, the
    salt and the iteration count, in this order and nothing else, with a
    password that is not empty and an iteration count of at most
    [Number.MAX_SAFE_INTEGER], the method computes
    [authMessage = clientFirstBare , serverFirst , clientFinalWithoutProof],
    [serverFirst] being the challenge as it came, leaves the session with
    the expected server signature
    [base64(HMAC(HMAC(saltedPassword, "Server Key"), authMessage))] and the
    response [clientFinalWithoutProof ,p= base64(clientKey XOR
    HMAC(SHA-256(clientKey), authMessage))], where
    [clientKey = HMAC(saltedPassword, "Client Key")], and sends exactly that
    response through the connection, once, as the last thing it does;
    everything before it is a call to [crypto.subtle]. *)
Theorem valid_challenge_response env cs msg w session pw nonce salt iterationText :
  crypto env = CryptoSubtle cs ->
  hmac_sha256_sized cs ->
  sha256_sized cs ->
  saslSession (this w) = Some session ->
  message session = lit "SASLInitialResponse" ->
  password (this w) = JsString pw ->
  pw <> [] ->
  valid_challenge session msg nonce salt iterationText ->
  parseInt10 iterationText <= MAX_SAFE_INTEGER ->
  data msg
  = JsString (lit "r=" ++ nonce ++ lit ",s=" ++ salt ++ lit ",i=" ++ iterationText) ->
  let hmac := subtle_sign cs in
  let sha256 := subtle_digest cs in
  let saltedPassword :=
    scram_Hi hmac (TextEncoder_encode pw) (Buffer_from_base64 salt)
      (Z.to_nat (parseInt10 iterationText)) in
  let clientKey := hmac saltedPassword (TextEncoder_encode (lit "Client Key")) in
  let serverKey := hmac saltedPassword (TextEncoder_encode (lit "Server Key")) in
  let clientFirstBare := lit "n=*,r=" ++ clientNonce session in
  let serverFirst := data_text msg in
  let clientFinalWithoutProof := lit "c=biws,r=" ++ nonce in
  let authMessage :=
    clientFirstBare ++ lit "," ++ serverFirst ++ lit ","
    ++ clientFinalWithoutProof in
  let expected :=
    toString_base64 (hmac serverKey (TextEncoder_encode authMessage)) in
  let final :=
    clientFinalWithoutProof ++ lit ",p="
    ++ toString_base64
         (bytes_xor clientKey
            (hmac (sha256 clientKey) (TextEncoder_encode authMessage))) in
  exists calls,
    _handleAuthSASLContinue env msg w
    = (Return tt,
       {| this :=
            with_saslSession
              {| message := lit "SASLResponse";
                 clientNonce := clientNonce session;
                 serverSignature := Some expected;
                 response := final |} (this w);
          trace := trace w ++ calls ++ [SendSCRAMClientFinalMessage final] |})
    /\ Forall is_crypto_call calls.
Proof.
  intros Hcs Hsized Hdigest Hsess Hmsg Hpw Hpw0 Hvalid _ Hdata. cbv zeta.
  rewrite (handleAuthSASLContinue_subtle _ _ _ _ Hcs).
  rewrite (bind_run _ _ _ _ _
             (validate_challenge_valid _ _ w _ _ _ _ _ Hsess Hmsg Hpw Hvalid)).
  destruct Hvalid as (_ & _ & _ & _ & _ & _ & Hit & _).
  pose proof (re_iterations_positive _ Hit) as (_ & _ & Hpos).
  destruct (respond_run cs session pw nonce salt iterationText w Hsized Hdigest
              Hpw0 ltac:(lia)) as (calls & Hrun & Hcalls).
  rewrite (number_toString_parseInt10 _ Hit) in Hrun.
  exists calls. split; [|exact Hcalls].
  unfold data_text. rewrite Hdata.
  rewrite Hrun. repeat rewrite <- (@List.app_assoc Z). reflexivity.
Qed.

Lemma valid_challenge_response_witness :
  exists w',
    _handleAuthSASLContinue example_env
      (challenge "r=rOprNGfwEbeRWgbNEkqO%hvYDpWUa2RaTCAfuxFIlj)hNlF$k0,s=W22ZaJ0SNY7soEsUEjb6gQ==,i=4096")
      example_world
    = (Return tt, w')
    /\ message <$> saslSession (this w') = Some (lit "SASLResponse").
Proof.
  destruct (valid_challenge_response example_env real_subtle
              (challenge "r=rOprNGfwEbeRWgbNEkqO%hvYDpWUa2RaTCAfuxFIlj)hNlF$k0,s=W22ZaJ0SNY7soEsUEjb6gQ==,i=4096")
              example_world example_session (lit "pencil")
              (lit "rOprNGfwEbeRWgbNEkqO%hvYDpWUa2RaTCAfuxFIlj)hNlF$k0")
              (lit "W22ZaJ0SNY7soEsUEjb6gQ==") (lit "4096"))
    as (calls & Hrun & _).
  - reflexivity.
  - exact real_subtle_sized.
  - exact real_subtle_sha256_sized.
  - reflexivity.
  - reflexivity.
  - reflexivity.
  - discriminate.
  - repeat split; try (vm_compute; reflexivity); vm_compute; discriminate.
  - apply Z.leb_le. vm_compute. reflexivity.
  - vm_compute. reflexivity.
  - eexists. split; [exact Hrun|reflexivity].
Defined.

(** C2, as stated, fails in two ways.  With the empty password a valid
    challenge is not answered: [importKey] rejects the key of no bytes and
    nothing is sent.  And for a valid challenge that carries a further
    attribute the message that is signed is not built from the server-first
    message as it came: the server signature that the method expects is not
    the one over the challenge received. *)
Lemma valid_challenge_response_counterexample :
  let nonce := lit "rOprNGfwEbeRWgbNEkqO%hvYDpWUa2RaTCAfuxFIlj)hNlF$k0" in
  let salt := lit "W22ZaJ0SNY7soEsUEjb6gQ==" in
  let plain :=
    challenge "r=rOprNGfwEbeRWgbNEkqO%hvYDpWUa2RaTCAfuxFIlj)hNlF$k0,s=W22ZaJ0SNY7soEsUEjb6gQ==,i=2" in
  let extended :=
    challenge "r=rOprNGfwEbeRWgbNEkqO%hvYDpWUa2RaTCAfuxFIlj)hNlF$k0,s=W22ZaJ0SNY7soEsUEjb6gQ==,i=2,x=1" in
  let hmac := Sha256.hmac in
  let saltedPassword :=
    scram_Hi hmac (TextEncoder_encode (lit "pencil")) (Buffer_from_base64 salt) 2 in
  let serverKey := hmac saltedPassword (TextEncoder_encode (lit "Server Key")) in
  let authMessage :=
    (lit "n=*,r=" ++ clientNonce example_session) ++ lit "," ++ data_text extended
    ++ lit "," ++ (lit "c=biws,r=" ++ nonce) in
  let w' := snd (_handleAuthSASLContinue example_env extended example_world) in
  (valid_challenge example_session plain nonce salt (lit "2")
   /\ _handleAuthSASLContinue example_env plain example_world_empty_password
      = (Throw DataError,
         {| this := this example_world_empty_password;
            trace := trace example_world_empty_password ++ [ImportKey []] |}))
  /\ (valid_challenge example_session extended nonce salt (lit "2")
      /\ fst (_handleAuthSASLContinue example_env extended example_world) = Return tt
      /\ match saslSession (this w') with
         | Some s' => serverSignature s'
         | None => None
         end
         <> Some (toString_base64 (hmac serverKey (TextEncoder_encode authMessage)))).
Proof.
  cbv zeta. split; [split|split; [|split]].
  - repeat split; try (vm_compute; reflexivity); vm_compute; discriminate.
  - vm_compute. reflexivity.
  - repeat split; try (vm_compute; reflexivity); vm_compute; discriminate.
  - vm_compute. reflexivity.
  - vm_compute. discriminate.
Qed.

(** ** The challenge of three attributes

    A challenge that consists of the nonce, the salt and the iteration
    count, in this order and each well-formed, is valid, and the server-first
    message that goes into the authentication message is then the text of
    the challenge itself. *)

Lemma split_comma_app s t :
  Forall (fun c => c <> 44) s ->
  split_comma (s ++ 44 :: t) = s :: split_comma t.
Proof.
  induction 1 as [|c s Hc _ IH]; cbn [app split_comma].
  - reflexivity.
  - destruct (Z.eqb_spec c 44); [contradiction|]. rewrite IH. reflexivity.
Qed.

Lemma split_comma_one s :
  Forall (fun c => c <> 44) s -> split_comma s = [s].
Proof.
  induction 1 as [|c s Hc _ IH]; cbn [split_comma].
  - reflexivity.
  - destruct (Z.eqb_spec c 44); [contradiction|]. rewrite IH. reflexivity.
Qed.

Lemma base64_text_no_comma s : base64_text s -> Forall (fun c => c <> 44) s.
Proof.
  induction 1 as [|a b c d rest Ha Hb Hc Hd _ IH|a b c Ha Hb Hc|a b Ha Hb];
    unfold base64_alphabet in *.
  - constructor.
  - repeat (constructor; [lia|]). exact IH.
  - repeat (constructor; [lia|]). constructor.
  - repeat (constructor; [lia|]). constructor.
Qed.

Lemma canonical_challenge_valid session nonce salt it :
  re_nonce nonce = true ->
  salt <> [] -> re_base64 salt = true ->
  re_iterations it = true ->
  startsWith nonce (clientNonce session) = true ->
  jslength nonce <> jslength (clientNonce session) ->
  valid_challenge session
    {| data := JsString (lit "r=" ++ nonce ++ lit ",s=" ++ salt ++ lit ",i=" ++ it) |}
    nonce salt it.
Proof.
  intros Hn Hs0 Hs Hi Hstarts Hlen.
  assert (Hn' : Forall (fun c => c <> 44) nonce).
  { eapply Forall_impl; [apply re_nonce_printable; exact Hn|].
    cbv beta. tauto. }
  assert (Hs' : Forall (fun c => c <> 44) salt)
    by (apply base64_text_no_comma, re_base64_text; exact Hs).
  assert (Hi' : Forall (fun c => c <> 44) it).
  { destruct (re_iterations_positive it Hi) as (_ & Hd & _).
    eapply Forall_impl; [exact Hd|]. cbv beta. lia. }
  assert (Hparse :
    map_attr_pairs
      (split_comma (lit "r=" ++ nonce ++ lit ",s=" ++ salt ++ lit ",i=" ++ it))
    = Return [(lit "r", nonce); (lit "s", salt); (lit "i", it)]).
  { change (lit "r=") with [114; 61]. change (lit ",s=") with (44 :: [115; 61]).
    change (lit ",i=") with (44 :: [105; 61]).
    replace ([114; 61] ++ nonce ++ (44 :: [115; 61]) ++ salt ++ (44 :: [105; 61]) ++ it)
      with (([114; 61] ++ nonce) ++ 44 :: (([115; 61] ++ salt) ++ 44 :: ([105; 61] ++ it)))
      by (repeat rewrite <- app_assoc; reflexivity).
    rewrite split_comma_app by (repeat constructor; [lia|lia|exact Hn']).
    rewrite split_comma_app by (repeat constructor; [lia|lia|exact Hs']).
    rewrite split_comma_one by (repeat constructor; [lia|lia|exact Hi']).
    reflexivity. }
  unfold valid_challenge, challenge_attr. cbn [data]. rewrite Hparse.
  unfold fromEntries. cbn [fold_left fst snd].
  repeat split; auto.
Qed.

(** A challenge that carries an extension is valid as well; the
    authentication message is built from its three attributes all the same,
    not from its text. *)
Example challenge_with_extension_valid :
  valid_challenge example_session
    (challenge "r=rOprNGfwEbeRWgbNEkqO%hv,s=W22ZaJ0SNY7soEsUEjb6gQ==,i=4096,x=1")
    (lit "rOprNGfwEbeRWgbNEkqO%hv") (lit "W22ZaJ0SNY7soEsUEjb6gQ==") (lit "4096").
Proof. repeat split; try (vm_compute; reflexivity); vm_compute; discriminate. Qed.

(** The whole exchange on the challenge of RFC 7677's example with three
    iterations: the session and the message sent are those that an
    independent implementation of the same steps gives. *)
Example handshake_known_answer :
  let '(outcome, w') :=
    _handleAuthSASLContinue example_env
      (challenge "r=rOprNGfwEbeRWgbNEkqO%hvYDpWUa2RaTCAfuxFIlj)hNlF$k0,s=W22ZaJ0SNY7soEsUEjb6gQ==,i=3")
      example_world in
  outcome = Return tt
  /\ saslSession (this w')
     = Some {| message := lit "SASLResponse";
               clientNonce := lit "rOprNGfwEbeRWgbNEkqO";
               serverSignature :=
                 Some (lit "9BTE7T0O/t9sIVjBV7VCcZF+YTehqKxYvkvs1focscM=");
               response :=
                 lit "c=biws,r=rOprNGfwEbeRWgbNEkqO%hvYDpWUa2RaTCAfuxFIlj)hNlF$k0,p=r0HZKtpayVw/0SyO4THYJCNfOFkucK2pY4H3uuxDBzs=" |}
  /\ last (trace w')
     = Some (SendSCRAMClientFinalMessage
               (lit "c=biws,r=rOprNGfwEbeRWgbNEkqO%hvYDpWUa2RaTCAfuxFIlj)hNlF$k0,p=r0HZKtpayVw/0SyO4THYJCNfOFkucK2pY4H3uuxDBzs=")).
Proof. vm_compute. repeat split; reflexivity. Qed.

(* ===================================================================== *)
(** * The event emitter *)
(* ===================================================================== *)

Lemma listeners_of_addListener ev l ls :
  listeners_of ev (addListener ev l ls) = listeners_of ev ls ++ [l].
Proof. unfold listeners_of, addListener. by rewrite lookup_insert_eq. Qed.

Lemma listeners_of_addListener_ne ev ev' l ls :
  ev <> ev' -> listeners_of ev' (addListener ev l ls) = listeners_of ev' ls.
Proof. intros H. unfold listeners_of, addListener. by rewrite lookup_insert_ne. Qed.

Lemma listeners_of_delete ev (ls : gmap string (list Listener)) :
  listeners_of ev (delete ev ls) = [].
Proof. unfold listeners_of. by rewrite lookup_delete_eq. Qed.

Lemma listeners_of_delete_ne ev ev' (ls : gmap string (list Listener)) :
  ev <> ev' -> listeners_of ev' (delete ev ls) = listeners_of ev' ls.
Proof. intros H. unfold listeners_of. by rewrite lookup_delete_ne. Qed.

Lemma listeners_of_removeListener ev l ls :
  listeners_of ev (removeListener ev l ls) = remove_first l (listeners_of ev ls).
Proof.
  unfold removeListener.
  destruct (remove_first l (listeners_of ev ls)) as [|l' rest] eqn:H.
  - apply listeners_of_delete.
  - unfold listeners_of at 1. by rewrite lookup_insert_eq.
Qed.

Lemma listeners_of_removeListener_ne ev ev' l ls :
  ev <> ev' -> listeners_of ev' (removeListener ev l ls) = listeners_of ev' ls.
Proof.
  intros Hne. unfold removeListener.
  destruct (remove_first l (listeners_of ev ls)).
  - by apply listeners_of_delete_ne.
  - unfold listeners_of. by rewrite lookup_insert_ne.
Qed.

Lemma In_remove_first l l' ls : In l' (remove_first l ls) -> In l' ls.
Proof.
  induction ls as [|x ls IH]; simpl; [auto|].
  destruct (decide (l = x)); simpl; intuition.
Qed.

Lemma with_listeners_id c : with_listeners (fun ls => ls) c = c.
Proof. destruct c as [? ? ? ? ? ? [? ? ?] ?]. reflexivity. Qed.

Lemma attach_listeners_run pg : forall w,
  attach_listeners pg w
  = (Return tt, {| this := with_listeners (attached pg) (this w); trace := trace w |}).
Proof.
  induction pg as [|[ev [o id]] pg IH]; intros w.
  - simpl. unfold ret, attached. simpl. rewrite with_listeners_id, world_eta.
    reflexivity.
  - cbn [attach_listeners]. unfold bind.
    destruct o; unfold con_once, con_on, set_this; rewrite IH; reflexivity.
Qed.

Ltac run_monad :=
  cbv beta iota zeta delta
    [bind get_this set_this perform ret throw when con_on con_once
     con_removeAllListeners this trace connection stream ssl
     forceDisablePgSSL useSecureWebSocket pipelineTLS pipelineConnect
     disableWarningInBrowsers config host user database password
     saslSession con_ssl listeners with_ssl with_listeners andb negb].

(** What [connect] does, in one equation. *)
Lemma connect_run env w :
  let neonConfig := stream (connection (this w)) in
  let c1 := if forceDisablePgSSL neonConfig then with_ssl false (this w) else this w in
  let warned :=
    trace w ++ (if ssl c1 && useSecureWebSocket neonConfig
                then [ConsoleWarn double_encryption_warning] else []) in
  connect env w
  = if likely_missing_parameters env c1
    then (Throw (Error (missing_parameters_message env)),
          {| this := c1; trace := warned |})
    else (Return tt,
          {| this := with_listeners (connected_listeners env neonConfig (ssl c1)) c1;
             trace := warned ++ [SuperConnect] |}).
Proof.
  destruct w as [[cfg h u d p s [cs [f sec tls pc dw] ls] sess] tr].
  cbv zeta. unfold connect, super_connect.
  destruct f, s, sec; run_monad;
    match goal with
    | |- context [likely_missing_parameters ?e ?c] =>
        destruct (likely_missing_parameters e c)
    end; rewrite ?app_nil_r; try reflexivity;
    rewrite attach_listeners_run; run_monad;
    destruct tls, pc; run_monad; reflexivity.
Qed.

(** A call returns, leaves its effects in the trace, leaves the options
    alone, and registers at most the handler that [RearmReadyForQuery]
    registers. *)
Lemma call_run f w :
  exists w',
    call f w = (Return tt, w')
    /\ trace w' = trace w ++ call_effects (stream (connection (this w))) f
    /\ stream (connection (this w')) = stream (connection (this w))
    /\ listeners (connection (this w'))
       = match f with
         | RearmReadyForQuery =>
             addListener "readyForQuery"
               {| once := false; fn := BoundHandleReadyForQuery |}
               (listeners (connection (this w)))
         | _ => listeners (connection (this w))
         end.
Proof.
  destruct w as [[cfg h u d p s [cs [fd sec tls pc dw] ls] sess] tr].
  destruct f; [| | | |destruct dw]; unfold call; run_monad;
    eexists; repeat split; cbn [this trace connection stream listeners];
    rewrite ?app_nil_r;
    repeat rewrite <- (@List.app_assoc Effect); reflexivity.
Qed.

Lemma call_listeners_run ev ls : forall w,
  exists w',
    call_listeners ev ls w = (Return tt, w')
    /\ trace w'
       = trace w
         ++ flat_map (fun l => call_effects (stream (connection (this w))) (fn l)) ls
    /\ stream (connection (this w')) = stream (connection (this w))
    /\ (forall ev' l,
          In l (con_listeners w' ev') ->
          In l (con_listeners w ev')
          \/ (ev' = "readyForQuery"%string
              /\ l = {| once := false; fn := BoundHandleReadyForQuery |}))
    /\ (Forall (fun l => fn l <> RearmReadyForQuery) ls ->
        forall ev', ev' <> ev -> con_listeners w' ev' = con_listeners w ev').
Proof.
  induction ls as [|l ls IH]; intros w.
  - exists w. cbn [call_listeners flat_map]. unfold ret.
    rewrite app_nil_r. repeat split; auto.
  - cbn [call_listeners flat_map].
    set (w0 := if once l
               then {| this := with_listeners (removeListener ev l) (this w);
                       trace := trace w |}
               else w).
    assert (Hw0 : when (once l) (set_this (with_listeners (removeListener ev l))) w
                  = (Return tt, w0)).
    { unfold w0. destruct (once l); reflexivity. }
    assert (Htrace0 : trace w0 = trace w) by (unfold w0; destruct (once l); reflexivity).
    assert (Hstream0 : stream (connection (this w0)) = stream (connection (this w)))
      by (unfold w0; destruct (once l); reflexivity).
    assert (Hin0 : forall ev' l', In l' (con_listeners w0 ev') -> In l' (con_listeners w ev')).
    { unfold w0. destruct (once l); [|auto]. intros ev' l'.
      unfold con_listeners. cbn [this connection with_listeners listeners].
      destruct (decide (ev = ev')) as [<-|Hne].
      - rewrite listeners_of_removeListener. apply In_remove_first.
      - rewrite listeners_of_removeListener_ne by exact Hne. auto. }
    assert (Hne0 : forall ev', ev' <> ev -> con_listeners w0 ev' = con_listeners w ev').
    { unfold w0. destruct (once l); [|auto]. intros ev' Hne.
      unfold con_listeners. cbn [this connection with_listeners listeners].
      rewrite listeners_of_removeListener_ne; auto. }
    rewrite (bind_run _ _ _ _ _ Hw0).
    destruct (call_run (fn l) w0) as (w1 & Hcall & Htrace1 & Hstream1 & Hls1).
    rewrite (bind_run _ _ _ _ _ Hcall).
    destruct (IH w1) as (w' & Hrun & Htrace & Hstream & Hin & Hne).
    exists w'. split; [exact Hrun|]. split; [|split; [|split]].
    + rewrite Htrace, Htrace1, Htrace0, Hstream1, Hstream0.
      rewrite <- app_assoc. reflexivity.
    + congruence.
    + intros ev' l' Hl'. destruct (Hin ev' l' Hl') as [Hold|Hnew]; [|auto].
      unfold con_listeners in Hold. rewrite Hls1 in Hold.
      destruct (fn l); try (left; apply Hin0; exact Hold).
      destruct (decide ("readyForQuery"%string = ev')) as [<-|Hneq].
      * rewrite listeners_of_addListener in Hold.
        apply in_app_or in Hold as [Hold|[<-|[]]]; [left; apply Hin0; exact Hold|auto].
      * rewrite listeners_of_addListener_ne in Hold by exact Hneq.
        left. apply Hin0. exact Hold.
    + intros Hall ev' Hev'. inversion Hall as [|? ? Hl Hls]; subst.
      rewrite (Hne Hls ev' Hev'). unfold con_listeners. rewrite Hls1.
      destruct (fn l); try (apply Hne0; exact Hev'). congruence.
Qed.

(** [emit] returns and leaves in the trace what its listeners leave. *)
Lemma con_emit_run ev w :
  exists w',
    con_emit ev w = (Return tt, w')
    /\ trace w'
       = trace w
         ++ flat_map (fun l => call_effects (stream (connection (this w))) (fn l))
              (con_listeners w ev)
    /\ stream (connection (this w')) = stream (connection (this w))
    /\ (forall ev' l,
          In l (con_listeners w' ev') ->
          In l (con_listeners w ev')
          \/ (ev' = "readyForQuery"%string
              /\ l = {| once := false; fn := BoundHandleReadyForQuery |}))
    /\ (Forall (fun l => fn l <> RearmReadyForQuery) (con_listeners w ev) ->
        forall ev', ev' <> ev -> con_listeners w' ev' = con_listeners w ev').
Proof.
  unfold con_emit. unfold bind, get_this.
  apply (call_listeners_run ev (con_listeners w ev) w).
Qed.

(* ===================================================================== *)
(** * What [connect] leaves on the connection *)
(* ===================================================================== *)

Lemma connect_returned env w w1 :
  connect env w = (Return tt, w1) ->
  let neonConfig := stream (connection (this w)) in
  let ssl1 := ssl (this w) && negb (forceDisablePgSSL neonConfig) in
  ssl (this w1) = ssl1
  /\ stream (connection (this w1)) = neonConfig
  /\ (forall ev,
        con_listeners w1 ev
        = listeners_of ev
            (connected_listeners env neonConfig ssl1 (listeners (connection (this w)))))
  /\ trace w1
     = trace w
       ++ (if ssl1 && useSecureWebSocket neonConfig
           then [ConsoleWarn double_encryption_warning] else [])
       ++ [SuperConnect].
Proof.
  intros H. rewrite connect_run in H. cbv zeta in H.
  match type of H with
  | context [likely_missing_parameters ?e ?c] =>
      destruct (likely_missing_parameters e c); [discriminate|]
  end.
  injection H as <-. cbv zeta. unfold con_listeners.
  destruct (forceDisablePgSSL (stream (connection (this w))));
    cbn [this trace connection stream listeners ssl with_ssl with_listeners negb];
    rewrite ?andb_false_r, ?andb_true_r;
    repeat split; try reflexivity; cbn [andb];
    repeat rewrite <- (@List.app_assoc Effect); reflexivity.
Qed.

Lemma attached_foreign pg : forall ls,
  (forall ev l, In l (listeners_of ev ls) -> foreign l) ->
  forall ev l, In l (listeners_of ev (attached pg ls)) -> foreign l.
Proof.
  unfold attached.
  induction pg as [|[ev0 [o id]] pg IH]; intros ls Hls ev l; cbn [fold_left fst snd].
  - apply Hls.
  - apply IH. clear ev l. intros ev l.
    destruct (decide (ev0 = ev)) as [<-|Hne].
    + rewrite listeners_of_addListener. intros Hin.
      apply in_app_or in Hin as [Hin|[<-|[]]]; [eauto|]. by exists id.
    + rewrite listeners_of_addListener_ne by exact Hne. apply Hls.
Qed.

(** With password pipelining, the listeners of [readyForQuery] are the one
    that re-arms, there are none for the password request, and the
    pipelined start-up comes last on the connect event that is awaited. *)
Lemma connected_readyForQuery env neonConfig s ls :
  pipelineConnect neonConfig = PipelinePassword ->
  listeners_of "readyForQuery" (connected_listeners env neonConfig s ls)
  = [{| once := true; fn := RearmReadyForQuery |}].
Proof.
  intros Hpc. unfold connected_listeners. rewrite Hpc.
  rewrite listeners_of_addListener_ne by (destruct s; discriminate).
  rewrite listeners_of_addListener, listeners_of_delete. reflexivity.
Qed.

Lemma connected_connectEvent env neonConfig (s : bool) ls :
  pipelineConnect neonConfig = PipelinePassword ->
  (forall ev l, In l (listeners_of ev ls) -> foreign l) ->
  exists pre,
    listeners_of (if s then "sslconnect" else "connect")%string
      (connected_listeners env neonConfig s ls)
    = pre ++ [{| once := false; fn := PipelinedStartup |}]
    /\ Forall foreign pre.
Proof.
  intros Hpc Hls. unfold connected_listeners. rewrite Hpc.
  rewrite listeners_of_addListener.
  eexists. split; [reflexivity|].
  rewrite listeners_of_addListener_ne by (destruct s; discriminate).
  rewrite !listeners_of_delete_ne by (destruct s; discriminate).
  apply List.Forall_forall. intros l Hl.
  pose proof (attached_foreign (pg_listeners env) ls Hls) as Hatt.
  destruct s; [|rewrite andb_false_r in Hl; eauto].
  destruct (pipelineTLS neonConfig); cbn [andb] in Hl; [|eauto].
  rewrite listeners_of_addListener_ne in Hl by discriminate. eauto.
Qed.

(** Where each of [connect]'s own listeners can be found. *)
Lemma connected_own env neonConfig (s : bool) ls ev l :
  (forall ev l, In l (listeners_of ev ls) -> foreign l) ->
  In l (listeners_of ev (connected_listeners env neonConfig s ls)) ->
  foreign l
  \/ (fn l = InjectSSLAccept /\ ev = "connect"%string)
  \/ (fn l = RearmReadyForQuery /\ ev = "readyForQuery"%string)
  \/ (fn l = PipelinedStartup
      /\ ev = (if s then "sslconnect" else "connect")%string).
Proof.
  intros Hls. unfold connected_listeners.
  pose proof (attached_foreign (pg_listeners env) ls Hls) as Hatt.
  set (ls1 := attached (pg_listeners env) ls) in *.
  assert (H2 : forall ev l,
             In l (listeners_of ev
                     (if pipelineTLS neonConfig && s
                      then addListener "connect"
                             {| once := false; fn := InjectSSLAccept |} ls1
                      else ls1)) ->
             foreign l \/ (fn l = InjectSSLAccept /\ ev = "connect"%string)).
  { clear ev l. intros ev l. destruct (pipelineTLS neonConfig && s); [|eauto].
    destruct (decide ("connect"%string = ev)) as [<-|Hne].
    - rewrite listeners_of_addListener. intros Hin.
      apply in_app_or in Hin as [Hin|[<-|[]]]; eauto.
    - rewrite listeners_of_addListener_ne by exact Hne. eauto. }
  set (ls2 := if pipelineTLS neonConfig && s then _ else _) in *.
  destruct (pipelineConnect neonConfig).
  2:{ intros Hin. destruct (H2 ev l Hin); auto. }
  intros Hin.
  destruct (decide ((if s then "sslconnect" else "connect")%string = ev)) as [<-|Hne1].
  { rewrite listeners_of_addListener in Hin.
    apply in_app_or in Hin as [Hin|[<-|[]]]; [|auto 6].
    rewrite listeners_of_addListener_ne in Hin by (destruct s; discriminate).
    rewrite !listeners_of_delete_ne in Hin by (destruct s; discriminate).
    destruct (H2 _ l Hin); auto. }
  rewrite listeners_of_addListener_ne in Hin by exact Hne1.
  destruct (decide ("readyForQuery"%string = ev)) as [<-|Hne2].
  { rewrite listeners_of_addListener, listeners_of_delete in Hin.
    destruct Hin as [<-|[]]. auto 6. }
  rewrite listeners_of_addListener_ne in Hin by exact Hne2.
  rewrite listeners_of_delete_ne in Hin by exact Hne2.
  destruct (decide ("authenticationCleartextPassword"%string = ev)) as [<-|Hne3].
  { rewrite listeners_of_delete in Hin. destruct Hin. }
  rewrite listeners_of_delete_ne in Hin by exact Hne3.
  destruct (H2 _ l Hin); auto.
Qed.

(** With TLS pipelining and Postgres-level SSL, the injection of the accept
    byte comes last on the [connect] event. *)
Lemma connected_connect_inject env neonConfig ls :
  pipelineTLS neonConfig = true ->
  exists pre,
    listeners_of "connect" (connected_listeners env neonConfig true ls)
    = pre ++ [{| once := false; fn := InjectSSLAccept |}].
Proof.
  intros Htls. unfold connected_listeners. rewrite Htls. cbn [andb].
  destruct (pipelineConnect neonConfig).
  - rewrite !listeners_of_addListener_ne by discriminate.
    rewrite !listeners_of_delete_ne by discriminate.
    rewrite listeners_of_addListener. eauto.
  - rewrite listeners_of_addListener. eauto.
Qed.

(** ** The first events after [connect] *)

Lemma foreign_effects neonConfig pre e :
  Forall foreign pre ->
  In e (flat_map (fun l => call_effects neonConfig (fn l)) pre) ->
  exists id, e = PgListenerCalled id.
Proof.
  induction 1 as [|l pre [id Hl] _ IH]; cbn [flat_map]; [intros []|].
  intros Hin. apply in_app_or in Hin as [Hin|Hin]; [|auto].
  rewrite Hl in Hin. destruct Hin as [<-|[]]. eauto.
Qed.

(** The listener that re-arms takes itself off and puts the normal handler
    on; the event that triggers it is not handled. *)
Lemma emit_rearm w :
  con_listeners w "readyForQuery" = [{| once := true; fn := RearmReadyForQuery |}] ->
  exists w',
    con_emit "readyForQuery" w = (Return tt, w')
    /\ trace w' = trace w
    /\ con_listeners w' "readyForQuery"
       = [{| once := false; fn := BoundHandleReadyForQuery |}].
Proof.
  intros H. unfold con_emit, bind at 1, get_this. fold (con_listeners w "readyForQuery").
  rewrite H. eexists. split; [reflexivity|]. split; [reflexivity|].
  unfold con_listeners in *. cbn [this connection listeners with_listeners].
  rewrite listeners_of_addListener, listeners_of_removeListener, H.
  cbn [remove_first]. rewrite decide_True by reflexivity. reflexivity.
Qed.

(** The normal handler handles every event and stays. *)
Lemma emit_bound w :
  con_listeners w "readyForQuery" = [{| once := false; fn := BoundHandleReadyForQuery |}] ->
  exists w',
    con_emit "readyForQuery" w = (Return tt, w')
    /\ trace w' = trace w ++ [HandleReadyForQuery]
    /\ con_listeners w' "readyForQuery"
       = [{| once := false; fn := BoundHandleReadyForQuery |}].
Proof.
  intros H. unfold con_emit, bind at 1, get_this. fold (con_listeners w "readyForQuery").
  rewrite H. eexists. split; [reflexivity|]. split; [reflexivity|].
  exact H.
Qed.

Lemma emit_bound_times n : forall w,
  con_listeners w "readyForQuery" = [{| once := false; fn := BoundHandleReadyForQuery |}] ->
  exists w',
    emit_all (repeat "readyForQuery"%string n) w = (Return tt, w')
    /\ trace w' = trace w ++ repeat HandleReadyForQuery n.
Proof.
  induction n as [|n IH]; intros w H.
  - exists w. split; [reflexivity|]. cbn [repeat]. by rewrite app_nil_r.
  - destruct (emit_bound w H) as (w1 & Hrun & Htrace & H1).
    destruct (IH w1 H1) as (w' & Hrun' & Htrace').
    exists w'. split.
    + cbn [repeat emit_all]. rewrite (bind_run _ _ _ _ _ Hrun). exact Hrun'.
    + rewrite Htrace', Htrace. cbn [repeat]. rewrite <- app_assoc. reflexivity.
Qed.

(** After a [connect] with password pipelining the client awaits its
    connect event. *)
Lemma connect_awaiting_startup env w w1 :
  pipelineConnect (stream (connection (this w))) = PipelinePassword ->
  foreign_listeners w ->
  connect env w = (Return tt, w1) ->
  awaiting_startup (if ssl (this w1) then "sslconnect" else "connect") w1.
Proof.
  intros Hpc Hforeign Hconn.
  destruct (connect_returned env w w1 Hconn) as (Hssl & _ & Hls & _).
  rewrite Hssl.
  set (s := ssl (this w) && negb (forceDisablePgSSL (stream (connection (this w))))) in *.
  split; [|split].
  - rewrite Hls. apply connected_readyForQuery. exact Hpc.
  - rewrite Hls. apply connected_connectEvent; assumption.
  - intros ev l Hrfq Hcev Hl. rewrite Hls in Hl.
    destruct (connected_own env _ s _ ev l Hforeign Hl)
      as [Hf|[[Hi _]|[[_ Hev]|[_ Hev]]]]; auto; contradiction.
Qed.

Lemma quiet_effects neonConfig ls e :
  Forall (fun l => foreign l \/ fn l = InjectSSLAccept) ls ->
  In e (flat_map (fun l => call_effects neonConfig (fn l)) ls) ->
  (exists id, e = PgListenerCalled id) \/ e = StreamEmitData (lit "S").
Proof.
  induction 1 as [|l ls Hl _ IH]; cbn [flat_map]; [intros []|].
  intros Hin. apply in_app_or in Hin as [Hin|Hin]; [|auto].
  destruct Hl as [[id Hl]|Hl]; rewrite Hl in Hin; destruct Hin as [<-|[]]; eauto.
Qed.

(** An event other than the awaited one and [readyForQuery] leaves the
    client waiting, and neither sends the password nor declares the client
    ready. *)
Lemma quiet_event cev ev w :
  awaiting_startup cev w ->
  ev <> "readyForQuery"%string -> ev <> cev ->
  exists w' effects,
    con_emit ev w = (Return tt, w')
    /\ trace w' = trace w ++ effects
    /\ ~ In HandleAuthCleartextPassword effects
    /\ ~ In HandleReadyForQuery effects
    /\ awaiting_startup cev w'.
Proof.
  intros (Hrfq & (pre & Hpre & Hfor) & Hother) Hev1 Hev2.
  destruct (con_emit_run ev w) as (w' & Hrun & Htrace & _ & Hin & Hframe).
  assert (Hquiet : Forall (fun l => foreign l \/ fn l = InjectSSLAccept)
                     (con_listeners w ev)).
  { apply List.Forall_forall. intros l Hl. exact (Hother ev l Hev1 Hev2 Hl). }
  assert (Hno : Forall (fun l => fn l <> RearmReadyForQuery) (con_listeners w ev)).
  { eapply Forall_impl; [exact Hquiet|].
    intros l [[id Hl]|Hl]; congruence. }
  exists w'. eexists. split; [exact Hrun|]. split; [exact Htrace|].
  split; [|split; [|split; [|split]]].
  - intros H. destruct (quiet_effects _ _ _ Hquiet H) as [[id Hid]|Hs]; discriminate.
  - intros H. destruct (quiet_effects _ _ _ Hquiet H) as [[id Hid]|Hs]; discriminate.
  - rewrite (Hframe Hno) by auto. exact Hrfq.
  - exists pre. rewrite (Hframe Hno) by auto. auto.
  - intros ev' l Hev1' Hev2' Hl.
    destruct (Hin ev' l Hl) as [Hold|[Heq _]]; [|contradiction].
    exact (Hother ev' l Hev1' Hev2' Hold).
Qed.

Lemma quiet_events cev evs : forall w,
  awaiting_startup cev w ->
  ~ In "readyForQuery"%string evs -> ~ In cev evs ->
  exists w' effects,
    emit_all evs w = (Return tt, w')
    /\ trace w' = trace w ++ effects
    /\ ~ In HandleAuthCleartextPassword effects
    /\ ~ In HandleReadyForQuery effects
    /\ awaiting_startup cev w'.
Proof.
  induction evs as [|ev evs IH]; intros w Hw Hrfq Hcev.
  - exists w, []. split; [reflexivity|]. rewrite app_nil_r. auto.
  - destruct (quiet_event cev ev w Hw) as (w1 & eff1 & Hrun1 & Htr1 & Ha1 & Hr1 & Hw1).
    { intros ->. apply Hrfq. left. reflexivity. }
    { intros ->. apply Hcev. left. reflexivity. }
    destruct (IH w1 Hw1) as (w' & eff & Hrun & Htr & Ha & Hr & Hw').
    { intros H. apply Hrfq. right. exact H. }
    { intros H. apply Hcev. right. exact H. }
    exists w', (eff1 ++ eff). split; [|split; [|split; [|split]]].
    + cbn [emit_all]. rewrite (bind_run _ _ _ _ _ Hrun1). exact Hrun.
    + rewrite Htr, Htr1, <- app_assoc. reflexivity.
    + intros H. apply in_app_or in H as [H|H]; auto.
    + intros H. apply in_app_or in H as [H|H]; auto.
    + exact Hw'.
Qed.

(** The awaited event sends the password and declares the client ready,
    and leaves the listeners of [readyForQuery] alone. *)
Lemma startup_event cev w :
  awaiting_startup cev w ->
  cev <> "readyForQuery"%string ->
  exists w2 before,
    con_emit cev w = (Return tt, w2)
    /\ trace w2
       = trace w ++ before ++ [HandleAuthCleartextPassword; HandleReadyForQuery]
    /\ ~ In HandleAuthCleartextPassword before
    /\ ~ In HandleReadyForQuery before
    /\ con_listeners w2 "readyForQuery"
       = [{| once := true; fn := RearmReadyForQuery |}].
Proof.
  intros (Hrfq & (pre & Hpre & Hfor) & _) Hcev.
  destruct (con_emit_run cev w) as (w2 & Hrun & Htrace & _ & _ & Hframe).
  rewrite Hpre in Htrace, Hframe.
  rewrite flat_map_app in Htrace. cbn [flat_map fn call_effects] in Htrace.
  rewrite app_nil_r in Htrace.
  exists w2.
  exists (flat_map (fun l => call_effects (stream (connection (this w))) (fn l)) pre
          ++ (if disableWarningInBrowsers (stream (connection (this w)))
              then [] else [WarnIfBrowser])).
  split; [exact Hrun|]. split; [|split; [|split]].
  - rewrite Htrace. repeat rewrite <- (@List.app_assoc Effect). reflexivity.
  - intros Hin. apply in_app_or in Hin as [Hin|Hin].
    + destruct (foreign_effects _ _ _ Hfor Hin) as [id Hid]. discriminate.
    + destruct (disableWarningInBrowsers _); [destruct Hin|].
      destruct Hin as [Hin|[]]. discriminate.
  - intros Hin. apply in_app_or in Hin as [Hin|Hin].
    + destruct (foreign_effects _ _ _ Hfor Hin) as [id Hid]. discriminate.
    + destruct (disableWarningInBrowsers _); [destruct Hin|].
      destruct Hin as [Hin|[]]. discriminate.
  - rewrite Hframe; [exact Hrfq| |auto].
    apply Forall_app. split; [|repeat constructor; discriminate].
    eapply Forall_impl; [exact Hfor|]. intros l [id Hl]. congruence.
Qed.

(** C5: with password pipelining, [connect] does away with the wait for the
    server's ready-for-query once.  Whatever other events come first (the
    plain [connect] event of a connection that goes on to TLS, say), the
    (ssl)connect event sends the password and declares the client ready at
    once; the first readyForQuery event that then arrives is not handled
    but puts the normal handler back; and every readyForQuery event after it
    is handled by that handler, once each. *)
Theorem pipelined_connect_is_ready_once env w w1 evs :
  pipelineConnect (stream (connection (this w))) = PipelinePassword ->
  foreign_listeners w ->
  connect env w = (Return tt, w1) ->
  ~ In "readyForQuery"%string evs ->
  ~ In (if ssl (this w1) then "sslconnect" else "connect")%string evs ->
  exists w1' w2 w3 earlier before,
    emit_all evs w1 = (Return tt, w1')
    /\ trace w1' = trace w1 ++ earlier
    /\ ~ In HandleReadyForQuery earlier
    /\ con_emit (if ssl (this w1) then "sslconnect" else "connect") w1'
       = (Return tt, w2)
    /\ trace w2
       = trace w1' ++ before ++ [HandleAuthCleartextPassword; HandleReadyForQuery]
    /\ ~ In HandleReadyForQuery before
    /\ con_emit "readyForQuery" w2 = (Return tt, w3)
    /\ trace w3 = trace w2
    /\ forall n, exists w4,
         emit_all (repeat "readyForQuery"%string n) w3 = (Return tt, w4)
         /\ trace w4 = trace w3 ++ repeat HandleReadyForQuery n.
Proof.
  intros Hpc Hforeign Hconn Hrfq Hcev.
  pose proof (connect_awaiting_startup env w w1 Hpc Hforeign Hconn) as Hw1.
  destruct (quiet_events _ evs w1 Hw1 Hrfq Hcev)
    as (w1' & earlier & Hrun1 & Htrace1 & _ & Hearlier & Hw1').
  destruct (startup_event _ w1' Hw1')
    as (w2 & before & Hrun2 & Htrace2 & _ & Hbefore & Hrfq2).
  { destruct (ssl (this w1)); discriminate. }
  destruct (emit_rearm w2 Hrfq2) as (w3 & Hrun3 & Htrace3 & Hrfq3).
  exists w1', w2, w3, earlier, before. repeat split; auto.
  intros n. apply emit_bound_times. exact Hrfq3.
Qed.

Lemma example_world_foreign : foreign_listeners example_world.
Proof.
  intros ev l H. unfold con_listeners, listeners_of in H. cbn in H.
  rewrite lookup_empty in H. destruct H.
Qed.

Lemma pipelined_connect_is_ready_once_witness :
  let w1 := snd (connect example_env example_world) in
  exists w1' w2 w3 earlier before,
    emit_all ["connect"%string] w1 = (Return tt, w1')
    /\ trace w1' = trace w1 ++ earlier
    /\ ~ In HandleReadyForQuery earlier
    /\ con_emit "sslconnect" w1' = (Return tt, w2)
    /\ trace w2
       = trace w1' ++ before ++ [HandleAuthCleartextPassword; HandleReadyForQuery]
    /\ ~ In HandleReadyForQuery before
    /\ con_emit "readyForQuery" w2 = (Return tt, w3)
    /\ trace w3 = trace w2
    /\ forall n, exists w4,
         emit_all (repeat "readyForQuery"%string n) w3 = (Return tt, w4)
         /\ trace w4 = trace w3 ++ repeat HandleReadyForQuery n.
Proof.
  apply (pipelined_connect_is_ready_once example_env example_world
           (snd (connect example_env example_world)) ["connect"%string]).
  - reflexivity.
  - exact example_world_foreign.
  - vm_compute. reflexivity.
  - intros [H|[]]. discriminate.
  - intros [H|[]]. discriminate.
Defined.

(** C6, as amended: when TLS pipelining is configured and Postgres-level
    SSL is in use ([this.ssl] is set and not forced off), a [connect] that
    returns has arranged for the accept byte [S] to go into the stream's
    data events while the connection's [connect] event is being emitted,
    whatever the server sends. *)
Theorem pipelined_TLS_injects_accept env w :
  pipelineTLS (stream (connection (this w))) = true ->
  ssl (this w) = true ->
  forceDisablePgSSL (stream (connection (this w))) = false ->
  accept_injected_on_connect env w.
Proof.
  intros Htls Hssl Hforce w1 Hconn.
  destruct (connect_returned env w w1 Hconn) as (_ & Hstream & Hls & _).
  rewrite Hssl, Hforce in Hls. cbn [andb negb] in Hls.
  destruct (connected_connect_inject env _ (listeners (connection (this w))) Htls)
    as (pre & Hpre).
  destruct (con_emit_run "connect" w1) as (w2 & Hrun & Htrace & _).
  rewrite Hls, Hpre, flat_map_app in Htrace.
  exists w2. eexists. split; [exact Hrun|]. split; [exact Htrace|].
  apply in_or_app. right. left. reflexivity.
Qed.

Lemma pipelined_TLS_injects_accept_witness :
  accept_injected_on_connect example_env example_world.
Proof.
  apply (pipelined_TLS_injects_accept example_env example_world); reflexivity.
Defined.

(** C6, as stated, fails: TLS pipelining is configured, the client does not
    use Postgres-level SSL, and the [connect] event passes without the
    accept byte. *)
Lemma pipelined_TLS_without_ssl_counterexample :
  pipelineTLS (stream (connection (this example_world_plain))) = true
  /\ ~ accept_injected_on_connect example_env example_world_plain.
Proof.
  split; [reflexivity|]. intros H.
  destruct (H (snd (connect example_env example_world_plain)))
    as (w2 & effects & Hemit & Htrace & Hin).
  { vm_compute. reflexivity. }
  destruct (con_emit_run "connect" (snd (connect example_env example_world_plain)))
    as (w2' & Hemit' & Htrace' & _).
  rewrite Hemit in Hemit'. injection Hemit' as <-.
  rewrite Htrace in Htrace'. apply app_inv_head in Htrace'. subst effects.
  vm_compute in Hin. intuition discriminate.
Qed.

(** ** The double-encryption warning *)

(** C8: with Postgres-level SSL on and the secure WebSocket on, [connect]
    warns and goes on as it does with the secure WebSocket off: same
    outcome, same client but for that option, same effects after the
    warning. *)
Theorem double_encryption_only_warns env w :
  ssl (this w) = true ->
  forceDisablePgSSL (stream (connection (this w))) = false ->
  useSecureWebSocket (stream (connection (this w))) = true ->
  let w_off := {| this := with_useSecureWebSocket false (this w); trace := trace w |} in
  exists effects,
    trace (snd (connect env w_off)) = trace w ++ effects
    /\ trace (snd (connect env w))
       = trace w ++ ConsoleWarn double_encryption_warning :: effects
    /\ fst (connect env w) = fst (connect env w_off)
    /\ this (snd (connect env w))
       = with_useSecureWebSocket true (this (snd (connect env w_off))).
Proof.
  destruct w as [[cfg h u d p s [cs [f sec tls pc dw] ls] sess] tr].
  cbn [this trace connection stream ssl forceDisablePgSSL useSecureWebSocket].
  intros -> -> ->. cbv zeta. rewrite !connect_run. cbv zeta.
  cbn [this trace connection stream ssl forceDisablePgSSL useSecureWebSocket
       with_useSecureWebSocket andb].
  change (likely_missing_parameters env
            (with_useSecureWebSocket false
               {| config := cfg; host := h; user := u; database := d;
                  password := p; ssl := true;
                  connection :=
                    {| con_ssl := cs;
                       stream :=
                         {| forceDisablePgSSL := false; useSecureWebSocket := true;
                            pipelineTLS := tls; pipelineConnect := pc;
                            disableWarningInBrowsers := dw |};
                       listeners := ls |};
                  saslSession := sess |}))
    with (likely_missing_parameters env
            {| config := cfg; host := h; user := u; database := d;
               password := p; ssl := true;
               connection :=
                 {| con_ssl := cs;
                    stream :=
                      {| forceDisablePgSSL := false; useSecureWebSocket := true;
                         pipelineTLS := tls; pipelineConnect := pc;
                         disableWarningInBrowsers := dw |};
                    listeners := ls |};
               saslSession := sess |}).
  match goal with
  | |- context [likely_missing_parameters ?e ?c] =>
      destruct (likely_missing_parameters e c)
  end; cbn [fst snd this trace].
  - exists []. rewrite app_nil_r. repeat split; reflexivity.
  - exists [SuperConnect]. rewrite app_nil_r.
    repeat split; try reflexivity.
    rewrite <- (@List.app_assoc Effect). reflexivity.
Qed.

Lemma double_encryption_only_warns_witness :
  exists effects,
    trace (snd (connect example_env
                  {| this := with_useSecureWebSocket false example_client;
                     trace := [] |}))
    = [] ++ effects
    /\ trace (snd (connect example_env example_world))
       = [] ++ ConsoleWarn double_encryption_warning :: effects
    /\ fst (connect example_env example_world)
       = fst (connect example_env
                {| this := with_useSecureWebSocket false example_client;
                   trace := [] |})
    /\ this (snd (connect example_env example_world))
       = with_useSecureWebSocket true
           (this (snd (connect example_env
                         {| this := with_useSecureWebSocket false example_client;
                            trace := [] |}))).
Proof.
  apply (double_encryption_only_warns example_env example_world); reflexivity.
Defined.

(** ** The password and the TLS handshake *)

Lemma password_effect neonConfig ls :
  In HandleAuthCleartextPassword
    (flat_map (fun l => call_effects neonConfig (fn l)) ls) ->
  exists l, In l ls /\ fn l = PipelinedStartup.
Proof.
  induction ls as [|l ls IH]; cbn [flat_map]; [intros []|].
  intros Hin. apply in_app_or in Hin as [Hin|Hin].
  - exists l. split; [left; reflexivity|].
    destruct (fn l); cbn [call_effects] in Hin; try reflexivity;
      try (destruct Hin as [Hin|[]]; discriminate); destruct Hin.
  - destruct (IH Hin) as (l' & Hl' & Hfn). exists l'. split; [right|]; auto.
Qed.

(** However many events other than [sslconnect] are emitted, the password
    is not sent. *)
Lemma emit_all_without_password evs : forall w,
  startup_on_sslconnect_only w ->
  ~ In "sslconnect"%string evs ->
  exists w' effects,
    emit_all evs w = (Return tt, w')
    /\ trace w' = trace w ++ effects
    /\ ~ In HandleAuthCleartextPassword effects.
Proof.
  induction evs as [|ev evs IH]; intros w Hinv Hevs.
  - exists w, []. split; [reflexivity|]. rewrite app_nil_r. auto.
  - destruct (con_emit_run ev w) as (w1 & Hrun & Htrace & _ & Hin & _).
    destruct (IH w1) as (w' & effects & Hrun' & Htrace' & Hnot).
    + intros ev' l Hl Hfn. destruct (Hin ev' l Hl) as [Hold|[_ ->]].
      * exact (Hinv ev' l Hold Hfn).
      * discriminate.
    + intros H. apply Hevs. right. exact H.
    + exists w'. eexists. split; [|split].
      * cbn [emit_all]. rewrite (bind_run _ _ _ _ _ Hrun). exact Hrun'.
      * rewrite Htrace', Htrace, <- app_assoc. reflexivity.
      * intros H. apply in_app_or in H as [H|H]; [|auto].
        destruct (password_effect _ _ H) as (l & Hl & Hfn).
        apply Hevs. left. exact (Hinv ev l Hl Hfn).
Qed.

(** The listeners of node-postgres at the head of the list are called one
    after the other and leave the listeners of the other events alone. *)
Lemma call_connect_listeners_foreign pre : forall rest s w,
  Forall foreign pre ->
  exists w' effects,
    call_connect_listeners (pre ++ rest) s w = call_connect_listeners rest s w'
    /\ trace w' = trace w ++ effects
    /\ Forall pg_effect effects
    /\ stream (connection (this w')) = stream (connection (this w))
    /\ (forall ev, ev <> "connect"%string -> con_listeners w' ev = con_listeners w ev).
Proof.
  induction pre as [|[o f] pre IH]; intros rest s w Hpre.
  - exists w, []. rewrite app_nil_r. repeat split. constructor.
  - inversion_clear Hpre as [|? ? [id Hid] Hpre']. cbn [fn] in Hid. subst f.
    cbn [app call_connect_listeners fn once].
    set (l := {| once := o; fn := PgListener id |}).
    set (w0 := if o
               then {| this := with_listeners (removeListener "connect" l) (this w);
                       trace := trace w |}
               else w).
    assert (Hw0 : when o (set_this (with_listeners (removeListener "connect" l))) w
                  = (Return tt, w0)).
    { unfold w0. destruct o; reflexivity. }
    assert (Htrace0 : trace w0 = trace w) by (unfold w0; destruct o; reflexivity).
    assert (Hstream0 : stream (connection (this w0)) = stream (connection (this w)))
      by (unfold w0; destruct o; reflexivity).
    assert (Hls0 : forall ev, ev <> "connect"%string ->
                     con_listeners w0 ev = con_listeners w ev).
    { intros ev Hev. unfold w0, con_listeners. destruct o; [|reflexivity].
      cbn [this connection listeners with_listeners].
      apply listeners_of_removeListener_ne. congruence. }
    destruct (call_run (PgListener id) w0) as (w1 & Hcall & Htrace1 & Hstream1 & Hls1).
    destruct (IH rest s w1 Hpre')
      as (w' & effects & Hrun & Htrace & Heffects & Hstream & Hls).
    exists w', (PgListenerCalled id :: effects).
    rewrite (bind_run _ _ _ _ _ Hw0), (bind_run _ _ _ _ _ Hcall), bind_ret.
    split; [exact Hrun|]. split; [|split; [|split]].
    + rewrite Htrace, Htrace1, Htrace0. cbn [call_effects].
      rewrite <- app_assoc. reflexivity.
    + constructor; [exists id; reflexivity|exact Heffects].
    + congruence.
    + intros ev Hev. rewrite (Hls ev Hev), <- (Hls0 ev Hev).
      unfold con_listeners. rewrite Hls1. reflexivity.
Qed.

(** With password pipelining and Postgres-level SSL the listeners of
    [connect] are those of node-postgres and, with TLS pipelining, the
    injection of the accept byte after them. *)
Lemma connected_connect_listeners env neonConfig ls :
  pipelineConnect neonConfig = PipelinePassword ->
  (forall ev l, In l (listeners_of ev ls) -> foreign l) ->
  exists pre,
    listeners_of "connect" (connected_listeners env neonConfig true ls)
    = pre ++ (if pipelineTLS neonConfig
              then [{| once := false; fn := InjectSSLAccept |}] else [])
    /\ Forall foreign pre.
Proof.
  intros Hpc Hls. unfold connected_listeners. rewrite Hpc.
  rewrite !listeners_of_addListener_ne by discriminate.
  rewrite !listeners_of_delete_ne by discriminate.
  pose proof (attached_foreign (pg_listeners env) ls Hls) as Hatt.
  exists (listeners_of "connect" (attached (pg_listeners env) ls)).
  split.
  - rewrite andb_true_r. destruct (pipelineTLS neonConfig).
    + apply listeners_of_addListener.
    + rewrite app_nil_r. reflexivity.
  - apply List.Forall_forall. intros l Hl. exact (Hatt _ l Hl).
Qed.

Lemma pg_effects_without_password effects :
  Forall pg_effect effects -> ~ In HandleAuthCleartextPassword effects.
Proof.
  intros H Hin. rewrite List.Forall_forall in H.
  destruct (H _ Hin) as [id Hid]. discriminate.
Qed.

(** C9, as amended: with password pipelining and Postgres-level SSL the
    listener that sends the password sits on the [sslconnect] event alone:
    [connect] itself does not send the password, no sequence of events
    without [sslconnect] (the plain [connect] event among them) makes a
    listener send it, and the [sslconnect] event that follows them does.
    That event does not wait for the end of the TLS handshake.  When the
    channel opens, the plain [connect] event leaves the TLS upgrade waiting
    for the server's accept byte and the password unsent, unless TLS
    pipelining is on: then the injected accept byte sets off [sslconnect]
    inside the [connect] event, and the password is sent while the upgrade
    is under way and the handshake not complete. *)
Theorem password_waits_for_sslconnect env w w1 :
  pipelineConnect (stream (connection (this w))) = PipelinePassword ->
  ssl (this w) = true ->
  forceDisablePgSSL (stream (connection (this w))) = false ->
  foreign_listeners w ->
  connect env w = (Return tt, w1) ->
  (exists effects,
     trace w1 = trace w ++ effects /\ ~ In HandleAuthCleartextPassword effects)
  /\ (forall evs, ~ In "sslconnect"%string evs ->
      exists w2 effects,
        emit_all evs w1 = (Return tt, w2)
        /\ trace w2 = trace w1 ++ effects
        /\ ~ In HandleAuthCleartextPassword effects)
  /\ (forall evs,
        ~ In "sslconnect"%string evs -> ~ In "readyForQuery"%string evs ->
        exists w2 w3 effects before,
          emit_all evs w1 = (Return tt, w2)
          /\ trace w2 = trace w1 ++ effects
          /\ con_emit "sslconnect" w2 = (Return tt, w3)
          /\ trace w3
             = trace w2 ++ before
               ++ [HandleAuthCleartextPassword; HandleReadyForQuery]
          /\ ~ In HandleAuthCleartextPassword (effects ++ before))
  /\ (exists w2 effects,
        channel_opens w1
        = (Return (if pipelineTLS (stream (connection (this w)))
                   then Upgrading else AwaitingSSLAck), w2)
        /\ trace w2 = trace w1 ++ effects
        /\ (In HandleAuthCleartextPassword effects
            <-> pipelineTLS (stream (connection (this w))) = true)).
Proof.
  intros Hpc Hssl Hforce Hforeign Hconn.
  pose proof (connect_awaiting_startup env w w1 Hpc Hforeign Hconn) as Hw1.
  destruct (connect_returned env w w1 Hconn) as (Hssl1 & Hstream1 & Hls & Htrace).
  rewrite Hssl, Hforce in Hssl1, Hls, Htrace. cbn [andb negb] in Hssl1, Hls, Htrace.
  rewrite Hssl1 in Hw1.
  split; [|split; [|split]].
  - eexists. split; [exact Htrace|].
    intros H. apply in_app_or in H as [H|[H|[]]]; [|discriminate].
    destruct (useSecureWebSocket _); [destruct H as [H|[]]; discriminate|destruct H].
  - intros evs Hevs. apply emit_all_without_password; [|exact Hevs].
    intros ev l Hl Hfn. rewrite Hls in Hl.
    destruct (connected_own env _ true _ ev l Hforeign Hl)
      as [[id Hid]|[[Hi _]|[[Hr _]|[_ Hev]]]]; congruence.
  - intros evs Hevs Hrfq.
    destruct (quiet_events _ evs w1 Hw1 Hrfq Hevs)
      as (w2 & effects & Hrun2 & Htrace2 & Heffects & _ & Hw2).
    destruct (startup_event _ w2 Hw2 ltac:(discriminate))
      as (w3 & before & Hrun3 & Htrace3 & Hbefore & _).
    exists w2, w3, effects, before. repeat split; auto.
    intros H. apply in_app_or in H as [H|H]; auto.
  - destruct (connected_connect_listeners env _ (listeners (connection (this w)))
                Hpc Hforeign) as (pre & Hpre & Hfor).
    unfold channel_opens, bind at 1, get_this. fold (con_listeners w1 "connect").
    rewrite Hls, Hpre. cbn [tls_step].
    destruct (call_connect_listeners_foreign pre
                (if pipelineTLS (stream (connection (this w)))
                 then [{| once := false; fn := InjectSSLAccept |}] else [])
                AwaitingSSLAck w1 Hfor)
      as (w' & effects & Hrun & Htrace' & Heffects & Hstream' & Hls').
    rewrite Hrun.
    destruct (pipelineTLS (stream (connection (this w)))).
    + destruct Hw1 as (_ & (pre2 & Hpre2 & Hfor2) & _).
      cbn [call_connect_listeners fn once when call].
      rewrite bind_ret.
      set (w'' := {| this := this w';
                     trace := trace w' ++ [StreamEmitData (lit "S")] |}).
      assert (Hinject : perform (StreamEmitData (lit "S")) w' = (Return tt, w''))
        by reflexivity.
      rewrite (bind_run _ _ _ _ _ Hinject).
      destruct (con_emit_run "sslconnect" w'') as (w2 & Hemit & Htrace2 & _).
      assert (Hcl : con_listeners w'' "sslconnect" = con_listeners w1 "sslconnect").
      { rewrite <- (Hls' "sslconnect"%string) by discriminate. reflexivity. }
      rewrite Hcl, Hpre2 in Htrace2.
      rewrite flat_map_app in Htrace2. cbn [flat_map fn call_effects] in Htrace2.
      exists w2. eexists. split; [|split].
      * cbn [tls_step]. rewrite bind_bind, (bind_run _ _ _ _ _ Hemit).
        rewrite bind_ret. reflexivity.
      * rewrite Htrace2. unfold w''. cbn [trace]. rewrite Htrace'.
        repeat rewrite <- (@List.app_assoc Effect). reflexivity.
      * split; [reflexivity|]. intros _.
        repeat rewrite in_app_iff. cbn [In]. intuition.
    + exists w', effects. cbn [call_connect_listeners]. split; [reflexivity|].
      split; [exact Htrace'|]. split; [|discriminate].
      intros H. destruct (pg_effects_without_password _ Heffects H).
Qed.

Lemma password_waits_for_sslconnect_witness :
  let w1 := snd (connect example_env example_world) in
  (exists effects,
     trace w1 = trace example_world ++ effects
     /\ ~ In HandleAuthCleartextPassword effects)
  /\ (forall evs, ~ In "sslconnect"%string evs ->
      exists w2 effects,
        emit_all evs w1 = (Return tt, w2)
        /\ trace w2 = trace w1 ++ effects
        /\ ~ In HandleAuthCleartextPassword effects)
  /\ (forall evs,
        ~ In "sslconnect"%string evs -> ~ In "readyForQuery"%string evs ->
        exists w2 w3 effects before,
          emit_all evs w1 = (Return tt, w2)
          /\ trace w2 = trace w1 ++ effects
          /\ con_emit "sslconnect" w2 = (Return tt, w3)
          /\ trace w3
             = trace w2 ++ before
               ++ [HandleAuthCleartextPassword; HandleReadyForQuery]
          /\ ~ In HandleAuthCleartextPassword (effects ++ before))
  /\ (exists w2 effects,
        channel_opens w1
        = (Return (if pipelineTLS (stream (connection (this example_world)))
                   then Upgrading else AwaitingSSLAck), w2)
        /\ trace w2 = trace w1 ++ effects
        /\ (In HandleAuthCleartextPassword effects
            <-> pipelineTLS (stream (connection (this example_world))) = true)).
Proof.
  apply (password_waits_for_sslconnect example_env example_world).
  - reflexivity.
  - reflexivity.
  - reflexivity.
  - exact example_world_foreign.
  - vm_compute. reflexivity.
Defined.

(** C9, as stated, fails: the claim has the password wait for a TLS
    handshake that is complete.  On the example client, with TLS pipelining
    on, the opening of the channel alone sends it: the [connect] event
    calls node-postgres' listener, then the listener of line 80, whose
    accept byte sets off the [sslconnect] event with node-postgres'
    listener and the pipelined start-up, and at the end the TLS upgrade is
    under way, not complete. *)
Lemma password_before_handshake_counterexample :
  let w1 := snd (connect example_env example_world) in
  fst (channel_opens w1) = Return Upgrading
  /\ trace (snd (channel_opens w1))
     = trace w1
       ++ [PgListenerCalled 0; StreamEmitData (lit "S"); PgListenerCalled 1;
           WarnIfBrowser; HandleAuthCleartextPassword; HandleReadyForQuery].
Proof. vm_compute. split; reflexivity. Qed.

(** C10: when neither the configuration object nor [PGHOST] names a host or
    a connection string, and host, user, database and password are
    [localhost], the OS user, the OS user and [null], [connect] throws its
    [Error]; node-postgres' [connect] has not been called, so nothing went
    to the network and no listener was attached: the trace has gained at
    most the double-encryption warning. *)
Theorem connect_throws_on_default_parameters env w :
  config_host (config (this w)) = None ->
  config_connectionString (config (this w)) = None ->
  PGHOST env = None ->
  host (this w) = lit "localhost" ->
  user (this w) = defaultUser env ->
  database (this w) = defaultUser env ->
  password (this w) = JsNull ->
  exists w' warnings,
    connect env w = (Throw (Error (missing_parameters_message env)), w')
    /\ listeners (connection (this w')) = listeners (connection (this w))
    /\ trace w' = trace w ++ warnings
    /\ ~ In SuperConnect warnings.
Proof.
  intros Hhost Hcs Hpg Hh Hu Hd Hp. rewrite connect_run. cbv zeta.
  set (c1 := if forceDisablePgSSL (stream (connection (this w)))
             then with_ssl false (this w) else this w).
  assert (Hlikely : likely_missing_parameters env c1 = true).
  { assert (Heq : likely_missing_parameters env c1
                  = likely_missing_parameters env (this w))
      by (unfold c1; destruct (forceDisablePgSSL _); reflexivity).
    rewrite Heq. unfold likely_missing_parameters, hasConfiguredHost.
    rewrite Hpg, Hh, Hu, Hd, Hp.
    assert (Hnone : forall A, bool_decide (@None A <> None) = false)
      by (intros A; apply bool_decide_eq_false_2; intros H; by apply H).
    destruct (config (this w)) as [| |o]; cbn [config_host config_connectionString] in *;
      rewrite ?Hhost, ?Hcs, ?Hnone;
      rewrite !bool_decide_eq_true_2 by reflexivity; reflexivity. }
  rewrite Hlikely. eexists. eexists. split; [reflexivity|].
  cbn [this trace]. split; [|split; [reflexivity|]].
  - unfold c1. destruct (forceDisablePgSSL _); reflexivity.
  - destruct (ssl c1 && useSecureWebSocket _); [|intros []].
    intros [H|[]]. discriminate.
Qed.

Lemma connect_throws_on_default_parameters_witness :
  exists w' warnings,
    connect example_env example_world_defaults
    = (Throw (Error (missing_parameters_message example_env)), w')
    /\ listeners (connection (this w'))
       = listeners (connection (this example_world_defaults))
    /\ trace w' = trace example_world_defaults ++ warnings
    /\ ~ In SuperConnect warnings.
Proof.
  apply (connect_throws_on_default_parameters example_env example_world_defaults);
    reflexivity.
Defined.

(* ===================================================================== *)
(** * More about [_handleAuthSASLContinue] *)
(* ===================================================================== *)

(** ** The checks, one by one *)

Lemma check_attr_fails v re text w :
  passes re v = false ->
  check_attr v re text w = (Throw (Error (lit text)), w).
Proof.
  unfold passes, check_attr. destruct v as [[|c s]|]; auto.
  intros ->. reflexivity.
Qed.

Lemma check_attr_passes v re text w :
  passes re v = true ->
  exists s, v = Some s /\ check_attr v re text w = (Return s, w).
Proof.
  unfold passes, check_attr. destruct v as [[|c s]|]; try discriminate.
  intros ->. eauto.
Qed.

(** With the session ready and the challenge parsed, the method is the
    checks on the three attributes followed by the response. *)
Lemma handleAuthSASLContinue_parsed env cs msg w session entries :
  crypto env = CryptoSubtle cs ->
  session_ready w session ->
  parses_to msg entries ->
  exists pw,
    password (this w) = JsString pw /\
    _handleAuthSASLContinue env msg w
    = bind
        (nonce <- check_attr (fromEntries entries !! lit "r") re_nonce
                    "SASL: SCRAM-SERVER-FIRST-MESSAGE: nonce missing/unprintable";;
         salt <- check_attr (fromEntries entries !! lit "s") re_base64
                    "SASL: SCRAM-SERVER-FIRST-MESSAGE: salt missing/not base64";;
         iterationText <- check_attr (fromEntries entries !! lit "i") re_iterations
                    "SASL: SCRAM-SERVER-FIRST-MESSAGE: missing/invalid iteration count";;
         when (negb (startsWith nonce (clientNonce session)))
           (throw (Error (lit "SASL: SCRAM-SERVER-FIRST-MESSAGE: server nonce does not start with client nonce")));;
         when (jslength nonce =? jslength (clientNonce session))
           (throw (Error (lit "SASL: SCRAM-SERVER-FIRST-MESSAGE: server nonce is too short")));;
         ret (session, pw, (nonce, salt, iterationText)))
        (fun '(session, pw, (nonce, salt, iterationText)) =>
           respond cs session pw nonce salt iterationText) w.
Proof.
  intros Hcs (Hsess & Hmsg & pw & Hpw) (serverData & Hdata & Hparse).
  exists pw. split; [exact Hpw|].
  rewrite (handleAuthSASLContinue_subtle _ _ _ _ Hcs).
  unfold validate_challenge, check_protocol, parse_attrPairs.
  rewrite Hsess, Hpw, Hdata, (bool_decide_eq_true_2 _ Hmsg).
  cbn [as_string]. unfold bind at 2, ret at 1. rewrite Hparse.
  unfold bind at 2, ret at 1. reflexivity.
Qed.

(** X1: when the session is not in the state node-postgres left it in after
    the initial response, or the password is not a string, or the challenge
    is not a string, the method throws [SASL: protocol error] and leaves
    the world alone. *)
Theorem protocol_error env cs msg w session :
  crypto env = CryptoSubtle cs ->
  saslSession (this w) = Some session ->
  message session <> lit "SASLInitialResponse"
  \/ as_string (password (this w)) = None
  \/ as_string (data msg) = None ->
  _handleAuthSASLContinue env msg w
  = (Throw (Error (lit "SASL: protocol error")), w).
Proof.
  intros Hcs Hsess Hbad.
  rewrite (handleAuthSASLContinue_subtle _ _ _ _ Hcs).
  unfold validate_challenge, check_protocol. rewrite Hsess.
  destruct (bool_decide_reflect (message session = lit "SASLInitialResponse"))
    as [Hmsg|Hmsg]; [|reflexivity].
  destruct (as_string (password (this w))) as [pw|]; [|reflexivity].
  destruct (as_string (data msg)) as [d|]; [|reflexivity].
  destruct Hbad as [H|[H|H]]; [contradiction|discriminate|discriminate].
Qed.

Lemma protocol_error_witness :
  _handleAuthSASLContinue example_env {| data := JsNull |} example_world
  = (Throw (Error (lit "SASL: protocol error")), example_world).
Proof.
  apply (protocol_error example_env real_subtle _ example_world example_session).
  - reflexivity.
  - reflexivity.
  - right. right. reflexivity.
Defined.

Lemma map_attr_pairs_bad pieces :
  Exists (fun p => re_attr_pair p = false) pieces ->
  map_attr_pairs pieces = Throw (Error (lit "SASL: Invalid attribute pair entry")).
Proof.
  induction 1 as [p pieces Hp|p pieces _ IH]; cbn [map_attr_pairs].
  - rewrite Hp. reflexivity.
  - destruct (re_attr_pair p); [|reflexivity]. cbn [negb]. rewrite IH. reflexivity.
Qed.

(** X2: when one of the pieces between the commas of the challenge is not
    a character followed by [=], the method throws [SASL: Invalid attribute
    pair entry] and leaves the world alone, whatever the other pieces are;
    the empty challenge is such a case. *)
Theorem invalid_attribute_pair env cs msg w session serverData :
  crypto env = CryptoSubtle cs ->
  session_ready w session ->
  data msg = JsString serverData ->
  Exists (fun piece => re_attr_pair piece = false) (split_comma serverData) ->
  _handleAuthSASLContinue env msg w
  = (Throw (Error (lit "SASL: Invalid attribute pair entry")), w).
Proof.
  intros Hcs (Hsess & Hmsg & pw & Hpw) Hdata Hbad.
  rewrite (handleAuthSASLContinue_subtle _ _ _ _ Hcs).
  unfold validate_challenge, check_protocol, parse_attrPairs.
  rewrite Hsess, Hpw, Hdata, (bool_decide_eq_true_2 _ Hmsg).
  cbn [as_string]. unfold bind at 2, ret at 1.
  rewrite (map_attr_pairs_bad _ Hbad). reflexivity.
Qed.

Lemma example_session_ready : session_ready example_world example_session.
Proof. split; [reflexivity|]. split; [reflexivity|]. eexists. reflexivity. Qed.

Lemma invalid_attribute_pair_witness :
  _handleAuthSASLContinue example_env (challenge "") example_world
  = (Throw (Error (lit "SASL: Invalid attribute pair entry")), example_world).
Proof.
  apply (invalid_attribute_pair example_env real_subtle _ example_world
           example_session (lit "")).
  - reflexivity.
  - exact example_session_ready.
  - reflexivity.
  - left. reflexivity.
Defined.

(** X3: on a parsed challenge, a nonce that is missing, empty or has a
    character outside [!-+] and [--~] makes the method throw the error about
    the nonce, whatever the salt and the iteration count are: the nonce is
    checked first. *)
Theorem nonce_checked_first env cs msg w session entries :
  crypto env = CryptoSubtle cs ->
  session_ready w session ->
  parses_to msg entries ->
  passes re_nonce (fromEntries entries !! lit "r") = false ->
  _handleAuthSASLContinue env msg w
  = (Throw (Error (lit "SASL: SCRAM-SERVER-FIRST-MESSAGE: nonce missing/unprintable")), w).
Proof.
  intros Hcs Hready Hparse Hnonce.
  destruct (handleAuthSASLContinue_parsed env cs msg w session entries Hcs Hready Hparse)
    as (pw & _ & ->).
  apply bind_throw. apply bind_throw. apply check_attr_fails. exact Hnonce.
Qed.

Lemma nonce_checked_first_witness :
  _handleAuthSASLContinue example_env
    (challenge "r=rOprNGfwEbeRWgbNEkqO and more,s=not base64,i=0") example_world
  = (Throw (Error (lit "SASL: SCRAM-SERVER-FIRST-MESSAGE: nonce missing/unprintable")),
     example_world).
Proof.
  eapply (nonce_checked_first example_env real_subtle _ example_world example_session).
  - reflexivity.
  - exact example_session_ready.
  - eexists. split; [reflexivity|]. vm_compute. reflexivity.
  - vm_compute. reflexivity.
Defined.

(** X4: when the nonce is in order, a salt that is missing, empty or not
    base64 makes the method throw the error about the salt, whatever the
    iteration count is. *)
Theorem salt_checked_second env cs msg w session entries :
  crypto env = CryptoSubtle cs ->
  session_ready w session ->
  parses_to msg entries ->
  passes re_nonce (fromEntries entries !! lit "r") = true ->
  passes re_base64 (fromEntries entries !! lit "s") = false ->
  _handleAuthSASLContinue env msg w
  = (Throw (Error (lit "SASL: SCRAM-SERVER-FIRST-MESSAGE: salt missing/not base64")), w).
Proof.
  intros Hcs Hready Hparse Hnonce Hsalt.
  destruct (handleAuthSASLContinue_parsed env cs msg w session entries Hcs Hready Hparse)
    as (pw & _ & ->).
  destruct (check_attr_passes _ _
              "SASL: SCRAM-SERVER-FIRST-MESSAGE: nonce missing/unprintable" w Hnonce)
    as (nonce & _ & Hok).
  apply bind_throw. rewrite (bind_run _ _ _ _ _ Hok).
  apply bind_throw. apply check_attr_fails. exact Hsalt.
Qed.

Lemma salt_checked_second_witness :
  _handleAuthSASLContinue example_env
    (challenge "r=rOprNGfwEbeRWgbNEkqO%hv,s=,i=0") example_world
  = (Throw (Error (lit "SASL: SCRAM-SERVER-FIRST-MESSAGE: salt missing/not base64")),
     example_world).
Proof.
  eapply (salt_checked_second example_env real_subtle _ example_world example_session).
  - reflexivity.
  - exact example_session_ready.
  - eexists. split; [reflexivity|]. vm_compute. reflexivity.
  - vm_compute. reflexivity.
  - vm_compute. reflexivity.
Defined.

(** X5: when nonce and salt are in order, an iteration count that is
    missing or is not a decimal number without sign and leading zero makes
    the method throw the error about the iteration count, before the nonce
    is compared with the client's. *)
Theorem iterations_checked_third env cs msg w session entries :
  crypto env = CryptoSubtle cs ->
  session_ready w session ->
  parses_to msg entries ->
  passes re_nonce (fromEntries entries !! lit "r") = true ->
  passes re_base64 (fromEntries entries !! lit "s") = true ->
  passes re_iterations (fromEntries entries !! lit "i") = false ->
  _handleAuthSASLContinue env msg w
  = (Throw (Error (lit "SASL: SCRAM-SERVER-FIRST-MESSAGE: missing/invalid iteration count")), w).
Proof.
  intros Hcs Hready Hparse Hnonce Hsalt Hiter.
  destruct (handleAuthSASLContinue_parsed env cs msg w session entries Hcs Hready Hparse)
    as (pw & _ & ->).
  destruct (check_attr_passes _ _
              "SASL: SCRAM-SERVER-FIRST-MESSAGE: nonce missing/unprintable" w Hnonce)
    as (nonce & _ & Hok1).
  destruct (check_attr_passes _ _
              "SASL: SCRAM-SERVER-FIRST-MESSAGE: salt missing/not base64" w Hsalt)
    as (salt & _ & Hok2).
  apply bind_throw. rewrite (bind_run _ _ _ _ _ Hok1), (bind_run _ _ _ _ _ Hok2).
  apply bind_throw. apply check_attr_fails. exact Hiter.
Qed.

Lemma iterations_checked_third_witness :
  _handleAuthSASLContinue example_env
    (challenge "r=some-other-nonce,s=W22ZaJ0SNY7soEsUEjb6gQ==,i=04096") example_world
  = (Throw (Error (lit "SASL: SCRAM-SERVER-FIRST-MESSAGE: missing/invalid iteration count")),
     example_world).
Proof.
  eapply (iterations_checked_third example_env real_subtle _ example_world example_session).
  - reflexivity.
  - exact example_session_ready.
  - eexists. split; [reflexivity|]. vm_compute. reflexivity.
  - vm_compute. reflexivity.
  - vm_compute. reflexivity.
  - vm_compute. reflexivity.
Defined.

Lemma startsWith_refl s : startsWith s s = true.
Proof.
  induction s as [|c s IH]; [reflexivity|].
  cbn [startsWith]. rewrite Z.eqb_refl. exact IH.
Qed.

(** X6: when the three attributes are in order, a server nonce that does
    not start with the client nonce makes the method throw the error that
    says so. *)
Theorem nonce_not_extending env cs msg w session entries nonce :
  crypto env = CryptoSubtle cs ->
  session_ready w session ->
  parses_to msg entries ->
  fromEntries entries !! lit "r" = Some nonce ->
  re_nonce nonce = true ->
  passes re_base64 (fromEntries entries !! lit "s") = true ->
  passes re_iterations (fromEntries entries !! lit "i") = true ->
  startsWith nonce (clientNonce session) = false ->
  _handleAuthSASLContinue env msg w
  = (Throw (Error (lit "SASL: SCRAM-SERVER-FIRST-MESSAGE: server nonce does not start with client nonce")), w).
Proof.
  intros Hcs Hready Hparse Hr Hnonce Hsalt Hiter Hstarts.
  destruct (handleAuthSASLContinue_parsed env cs msg w session entries Hcs Hready Hparse)
    as (pw & _ & ->).
  assert (Hn0 : nonce <> []) by (intros ->; discriminate).
  pose proof (check_attr_ok nonce re_nonce
                "SASL: SCRAM-SERVER-FIRST-MESSAGE: nonce missing/unprintable" w Hn0 Hnonce)
    as Hok1.
  rewrite <- Hr in Hok1.
  destruct (check_attr_passes _ _
              "SASL: SCRAM-SERVER-FIRST-MESSAGE: salt missing/not base64" w Hsalt)
    as (salt & _ & Hok2).
  destruct (check_attr_passes _ _
              "SASL: SCRAM-SERVER-FIRST-MESSAGE: missing/invalid iteration count" w Hiter)
    as (it & _ & Hok3).
  apply bind_throw.
  rewrite (bind_run _ _ _ _ _ Hok1), (bind_run _ _ _ _ _ Hok2),
    (bind_run _ _ _ _ _ Hok3).
  rewrite Hstarts. reflexivity.
Qed.

Lemma nonce_not_extending_witness :
  _handleAuthSASLContinue example_env
    (challenge "r=some-other-nonce,s=W22ZaJ0SNY7soEsUEjb6gQ==,i=4096") example_world
  = (Throw (Error (lit "SASL: SCRAM-SERVER-FIRST-MESSAGE: server nonce does not start with client nonce")),
     example_world).
Proof.
  eapply (nonce_not_extending example_env real_subtle _ example_world example_session).
  - reflexivity.
  - exact example_session_ready.
  - eexists. split; [reflexivity|]. vm_compute. reflexivity.
  - vm_compute. reflexivity.
  - vm_compute. reflexivity.
  - vm_compute. reflexivity.
  - vm_compute. reflexivity.
  - vm_compute. reflexivity.
Defined.

(** X7: when the three attributes are in order and the server nonce is
    the client nonce with nothing added, the method throws [server nonce is
    too short]. *)
Theorem nonce_not_extended env cs msg w session entries :
  crypto env = CryptoSubtle cs ->
  session_ready w session ->
  parses_to msg entries ->
  fromEntries entries !! lit "r" = Some (clientNonce session) ->
  re_nonce (clientNonce session) = true ->
  passes re_base64 (fromEntries entries !! lit "s") = true ->
  passes re_iterations (fromEntries entries !! lit "i") = true ->
  _handleAuthSASLContinue env msg w
  = (Throw (Error (lit "SASL: SCRAM-SERVER-FIRST-MESSAGE: server nonce is too short")), w).
Proof.
  intros Hcs Hready Hparse Hr Hnonce Hsalt Hiter.
  destruct (handleAuthSASLContinue_parsed env cs msg w session entries Hcs Hready Hparse)
    as (pw & _ & ->).
  assert (Hn0 : clientNonce session <> []) by (intros H; rewrite H in Hnonce; discriminate).
  pose proof (check_attr_ok _ re_nonce
                "SASL: SCRAM-SERVER-FIRST-MESSAGE: nonce missing/unprintable" w Hn0 Hnonce)
    as Hok1.
  rewrite <- Hr in Hok1.
  destruct (check_attr_passes _ _
              "SASL: SCRAM-SERVER-FIRST-MESSAGE: salt missing/not base64" w Hsalt)
    as (salt & _ & Hok2).
  destruct (check_attr_passes _ _
              "SASL: SCRAM-SERVER-FIRST-MESSAGE: missing/invalid iteration count" w Hiter)
    as (it & _ & Hok3).
  apply bind_throw.
  rewrite (bind_run _ _ _ _ _ Hok1), (bind_run _ _ _ _ _ Hok2),
    (bind_run _ _ _ _ _ Hok3).
  rewrite startsWith_refl, Z.eqb_refl. reflexivity.
Qed.

Lemma nonce_not_extended_witness :
  _handleAuthSASLContinue example_env
    (challenge "r=rOprNGfwEbeRWgbNEkqO,s=W22ZaJ0SNY7soEsUEjb6gQ==,i=4096") example_world
  = (Throw (Error (lit "SASL: SCRAM-SERVER-FIRST-MESSAGE: server nonce is too short")),
     example_world).
Proof.
  eapply (nonce_not_extended example_env real_subtle _ example_world example_session).
  - reflexivity.
  - exact example_session_ready.
  - eexists. split; [reflexivity|]. vm_compute. reflexivity.
  - vm_compute. reflexivity.
  - vm_compute. reflexivity.
  - vm_compute. reflexivity.
  - vm_compute. reflexivity.
Defined.

(** ** All or nothing *)

Lemma hmac_rounds_returns cs key n : forall ui1 ui w,
  exists v signs,
    hmac_rounds cs key n ui1 ui w
    = (Return v, {| this := this w; trace := trace w ++ signs |})
    /\ Forall is_sign signs /\ length signs = n.
Proof.
  induction n as [|n IH]; intros ui1 ui w.
  - exists ui, []. cbn [hmac_rounds]. unfold ret.
    rewrite app_nil_r, world_eta. repeat split. constructor.
  - cbn [hmac_rounds]. unfold sign at 1, bind at 1, perform, ret.
    unfold bind at 1.
    destruct (IH (subtle_sign cs (key_raw key) ui1)
                (xor_map ui (subtle_sign cs (key_raw key) ui1))
                {| this := this w; trace := trace w ++ [Sign (key_raw key) ui1] |})
      as (v & signs & Hrun & Hsigns & Hlen).
    exists v, (Sign (key_raw key) ui1 :: signs).
    rewrite Hrun. cbn [this trace length]. rewrite <- app_assoc.
    repeat split; [constructor; [exact I|exact Hsigns]|lia].
Qed.

Lemma derive_saltedPassword_returns cs pw salt n w :
  pw <> [] ->
  exists v signs,
    derive_saltedPassword cs pw salt n w
    = (Return v,
       {| this := this w;
          trace := trace w ++ ImportKey (TextEncoder_encode pw) :: signs |})
    /\ Forall is_sign signs /\ length signs = S (Z.to_nat (n - 1)).
Proof.
  intros Hpw. unfold derive_saltedPassword.
  rewrite (bind_run _ _ _ _ _
             (importKey_run _ w (TextEncoder_encode_nonempty pw Hpw))).
  rewrite (bind_run _ _ _ _ _ (sign_run _ _ _ _)).
  cbn [key_raw this trace].
  match goal with
  | |- context [hmac_rounds cs ?k ?m ?a ?b ?w0] =>
      destruct (hmac_rounds_returns cs k m a b w0) as (v & signs & Hrun & Hsigns & Hlen)
  end.
  rewrite Hrun. cbn [this trace].
  exists v.
  exists (Sign (TextEncoder_encode pw) (Buffer_from_base64 salt ++ [0; 0; 0; 1])
          :: signs).
  split; [|split].
  - repeat rewrite <- (@List.app_assoc Effect). reflexivity.
  - constructor; [exact I|exact Hsigns].
  - cbn [length]. rewrite Hlen. reflexivity.
Qed.

Lemma sign_is_crypto signs : Forall is_sign signs -> Forall is_crypto_call signs.
Proof.
  intros H. eapply Forall_impl; [exact H|].
  intros [] He; try destruct He; exact I.
Qed.

Lemma after_after w c1 c2 : after (after w c1) c2 = after w (c1 ++ c2).
Proof. unfold after. cbn [this trace]. rewrite <- app_assoc. reflexivity. Qed.

Lemma crypto_only_importKey raw : crypto_only (importKey raw).
Proof.
  intros w. exists [ImportKey raw]. split; [repeat constructor|].
  destruct (importKey_cases raw w) as [H|H]; [left|right; eexists]; exact H.
Qed.

Lemma crypto_only_sign cs key d : crypto_only (sign cs key d).
Proof.
  intros w. exists [Sign (key_raw key) d]. split; [repeat constructor|].
  right. eexists. apply sign_run.
Qed.

Lemma crypto_only_digest cs d : crypto_only (digest cs d).
Proof.
  intros w. exists [Digest d]. split; [repeat constructor|].
  right. eexists. apply digest_run.
Qed.

Lemma crypto_only_bind {A B} (m : M A) (k : A -> M B) :
  crypto_only m -> (forall a, crypto_only (k a)) -> crypto_only (bind m k).
Proof.
  intros Hm Hk w. destruct (Hm w) as (c1 & Hc1 & [H|(a & H)]).
  - exists c1. split; [exact Hc1|]. left. apply bind_throw. exact H.
  - destruct (Hk a (after w c1)) as (c2 & Hc2 & H2).
    exists (c1 ++ c2). split; [apply Forall_app; split; assumption|].
    rewrite (bind_run _ _ _ _ _ H). rewrite after_after in H2. exact H2.
Qed.

Lemma crypto_only_hmac_rounds cs key n : forall ui1 ui,
  crypto_only (hmac_rounds cs key n ui1 ui).
Proof.
  induction n as [|n IH]; intros ui1 ui; cbn [hmac_rounds].
  - intros w. exists []. split; [constructor|]. right. exists ui.
    unfold ret, after. rewrite app_nil_r, world_eta. reflexivity.
  - apply crypto_only_bind; [apply crypto_only_sign|]. intros a. apply IH.
Qed.

Lemma crypto_only_derive cs pw salt n :
  crypto_only (derive_saltedPassword cs pw salt n).
Proof.
  unfold derive_saltedPassword. cbv zeta.
  apply crypto_only_bind; [apply crypto_only_importKey|]. intros key.
  apply crypto_only_bind; [apply crypto_only_sign|]. intros ui1.
  apply crypto_only_hmac_rounds.
Qed.

Lemma answers_or_rejects_bind {A} (m : M A) (k : A -> M unit) :
  crypto_only m -> (forall a, answers_or_rejects (k a)) ->
  answers_or_rejects (bind m k).
Proof.
  intros Hm Hk w. destruct (Hm w) as (c1 & Hc1 & [H|(a & H)]).
  - exists c1. split; [exact Hc1|]. left. apply bind_throw. exact H.
  - destruct (Hk a (after w c1)) as (c2 & Hc2 & H2).
    exists (c1 ++ c2). split; [apply Forall_app; split; assumption|].
    rewrite (bind_run _ _ _ _ _ H).
    destruct H2 as [H2|(s' & Hs' & H2)].
    + left. rewrite after_after in H2. exact H2.
    + right. exists s'. split; [exact Hs'|]. rewrite H2.
      unfold after. cbn [this trace].
      repeat rewrite <- (@List.app_assoc Effect). reflexivity.
Qed.

(** The response: calls to [crypto.subtle], then, unless [importKey] has
    rejected a key, the session moved on and its response sent, last. *)
Lemma respond_cases cs session pw nonce salt it :
  answers_or_rejects (respond cs session pw nonce salt it).
Proof.
  unfold respond. cbv zeta.
  apply answers_or_rejects_bind; [apply crypto_only_derive|]. intros saltedPassword.
  apply answers_or_rejects_bind; [apply crypto_only_importKey|]. intros ckHmacKey.
  apply answers_or_rejects_bind; [apply crypto_only_sign|]. intros clientKey.
  apply answers_or_rejects_bind; [apply crypto_only_digest|]. intros storedKey.
  apply answers_or_rejects_bind; [apply crypto_only_importKey|]. intros csHmacKey.
  apply answers_or_rejects_bind; [apply crypto_only_sign|]. intros clientSignature.
  apply answers_or_rejects_bind; [apply crypto_only_importKey|]. intros skHmacKey.
  apply answers_or_rejects_bind; [apply crypto_only_sign|]. intros serverKey.
  apply answers_or_rejects_bind; [apply crypto_only_importKey|]. intros ssbHmacKey.
  apply answers_or_rejects_bind; [apply crypto_only_sign|]. intros serverSignatureBytes.
  intros w. exists []. split; [constructor|]. right.
  eexists. split; [|unfold set_this, get_this, perform, bind;
                    cbn [this trace saslSession with_saslSession]; reflexivity].
  reflexivity.
Qed.

Lemma validate_challenge_world c msg w :
  snd (validate_challenge c msg w) = w.
Proof.
  destruct (saslSession c) as [session|] eqn:Hsess.
  - destruct (validate_challenge_cases c msg w session Hsess)
      as [(e & -> & _)|(pw & nonce & salt & it & _ & _ & _ & ->)]; reflexivity.
  - unfold validate_challenge, check_protocol. rewrite Hsess. reflexivity.
Qed.

(** X8: the method does all of its work or none of it.  When it throws,
    the client and its session are as they were and nothing has been sent:
    an error of the method's own comes before any call to [crypto.subtle]
    and leaves the world as it was, and the [DataError] of [importKey]
    comes after such calls alone.  When it returns, the session has moved
    on to [SASLResponse] and the session's response has been sent through
    the connection as the last effect, after calls to [crypto.subtle]
    only. *)
Theorem all_or_nothing env msg w outcome w' :
  _handleAuthSASLContinue env msg w = (outcome, w') ->
  match outcome with
  | Throw e =>
      this w' = this w
      /\ exists calls,
           trace w' = trace w ++ calls
           /\ Forall is_crypto_call calls
           /\ (e <> DataError -> calls = [])
  | Return _ =>
      exists s' calls,
        saslSession (this w') = Some s'
        /\ message s' = lit "SASLResponse"
        /\ trace w' = trace w ++ calls ++ [SendSCRAMClientFinalMessage (response s')]
        /\ Forall is_crypto_call calls
  end.
Proof.
  intros Hrun.
  assert (Hnone : forall e : Exn,
             this w = this w
             /\ exists calls,
                  trace w = trace w ++ calls
                  /\ Forall is_crypto_call calls
                  /\ (e <> DataError -> calls = [])).
  { intros e. split; [reflexivity|]. exists [].
    rewrite app_nil_r. repeat split. constructor. }
  destruct (crypto env) as [| | |cs] eqn:Hcs;
    try (unfold _handleAuthSASLContinue, require_subtle in Hrun;
         rewrite Hcs in Hrun; injection Hrun as <- <-; apply Hnone).
  rewrite (handleAuthSASLContinue_subtle _ _ _ _ Hcs) in Hrun.
  pose proof (validate_challenge_world (this w) msg w) as Hw.
  destruct (validate_challenge (this w) msg w) as [[[[session pw] [[nonce salt] it]]|e] w0] eqn:Hv;
    cbn [snd] in Hw; subst w0.
  - rewrite (bind_run _ _ _ _ _ Hv) in Hrun.
    destruct (respond_cases cs session pw nonce salt it w)
      as (calls & Hcalls & [Hresp|(s' & Hs' & Hresp)]);
      rewrite Hresp in Hrun; injection Hrun as <- <-.
    + split; [reflexivity|]. exists calls. repeat split; [exact Hcalls|]. congruence.
    + exists s', calls. repeat split; assumption.
  - rewrite (bind_throw _ _ _ _ _ Hv) in Hrun. injection Hrun as <- <-.
    apply Hnone.
Qed.

Lemma all_or_nothing_witness :
  let first :=
    challenge "r=rOprNGfwEbeRWgbNEkqO%hvYDpWUa2RaTCAfuxFIlj)hNlF$k0,s=W22ZaJ0SNY7soEsUEjb6gQ==,i=2" in
  let w' := snd (_handleAuthSASLContinue example_env first example_world) in
  exists s' calls,
    saslSession (this w') = Some s'
    /\ message s' = lit "SASLResponse"
    /\ trace w' = trace example_world ++ calls
                  ++ [SendSCRAMClientFinalMessage (response s')]
    /\ Forall is_crypto_call calls.
Proof.
  apply (all_or_nothing example_env
           (challenge "r=rOprNGfwEbeRWgbNEkqO%hvYDpWUa2RaTCAfuxFIlj)hNlF$k0,s=W22ZaJ0SNY7soEsUEjb6gQ==,i=2")
           example_world (Return tt)).
  vm_compute. reflexivity.
Defined.

(** X9: a session is answered once: after a run that returned, a further
    call on the same client throws [SASL: protocol error], whatever the
    challenge is, and changes nothing. *)
Theorem second_challenge_is_protocol_error env msg w w' :
  _handleAuthSASLContinue env msg w = (Return tt, w') ->
  forall msg',
    _handleAuthSASLContinue env msg' w'
    = (Throw (Error (lit "SASL: protocol error")), w').
Proof.
  intros Hrun msg'.
  destruct (crypto env) as [| | |cs] eqn:Hcs;
    try (unfold _handleAuthSASLContinue, require_subtle in Hrun;
         rewrite Hcs in Hrun; discriminate).
  rewrite (handleAuthSASLContinue_subtle _ _ _ _ Hcs) in Hrun.
  pose proof (validate_challenge_world (this w) msg w) as Hw.
  destruct (validate_challenge (this w) msg w) as [[[[session pw] [[nonce salt] it]]|e] w0] eqn:Hv;
    cbn [snd] in Hw; subst w0.
  2:{ rewrite (bind_throw _ _ _ _ _ Hv) in Hrun. discriminate. }
  rewrite (bind_run _ _ _ _ _ Hv) in Hrun.
  destruct (respond_cases cs session pw nonce salt it w)
    as (calls & _ & [Hresp|(s' & Hmsg & Hresp)]);
    rewrite Hresp in Hrun; [discriminate|]. injection Hrun as <-.
  assert (Hsess : saslSession
                    (this {| this := with_saslSession s' (this w);
                             trace := trace w ++ calls
                                      ++ [SendSCRAMClientFinalMessage (response s')] |})
                  = Some s') by reflexivity.
  rewrite (handleAuthSASLContinue_subtle _ _ _ _ Hcs).
  unfold validate_challenge, check_protocol. rewrite Hsess.
  rewrite bool_decide_eq_false_2; [reflexivity|].
  rewrite Hmsg. discriminate.
Qed.

Lemma second_challenge_is_protocol_error_witness :
  let first :=
    challenge "r=rOprNGfwEbeRWgbNEkqO%hvYDpWUa2RaTCAfuxFIlj)hNlF$k0,s=W22ZaJ0SNY7soEsUEjb6gQ==,i=1" in
  let w' := snd (_handleAuthSASLContinue example_env first example_world) in
  _handleAuthSASLContinue example_env first w'
  = (Throw (Error (lit "SASL: protocol error")), w').
Proof.
  cbv zeta.
  apply (second_challenge_is_protocol_error example_env
           (challenge "r=rOprNGfwEbeRWgbNEkqO%hvYDpWUa2RaTCAfuxFIlj)hNlF$k0,s=W22ZaJ0SNY7soEsUEjb6gQ==,i=1")
           example_world).
  vm_compute. reflexivity.
Defined.

Lemma protocol_error_run env cs msg w session :
  crypto env = CryptoSubtle cs ->
  saslSession (this w) = Some session ->
  message session <> lit "SASLInitialResponse"
  \/ as_string (password (this w)) = None ->
  _handleAuthSASLContinue env msg w
  = (Throw (Error (lit "SASL: protocol error")), w).
Proof.
  intros Hcs Hsess Hbad.
  rewrite (handleAuthSASLContinue_subtle _ _ _ _ Hcs).
  unfold validate_challenge, check_protocol. rewrite Hsess.
  destruct (bool_decide_reflect (message session = lit "SASLInitialResponse"))
    as [Hmsg|Hmsg]; [|reflexivity].
  destruct (as_string (password (this w))) as [pw|]; [|reflexivity].
  destruct Hbad as [H|H]; [contradiction|discriminate].
Qed.

(** ** What the challenge is read for *)

(** X10: of a challenge that parses the method reads the attributes [r],
    [s] and [i] and nothing else: two challenges that agree on the three
    (whatever their order, and whatever other attributes they carry) have
    the same outcome and leave the same world. *)
Theorem only_three_attributes_count env msg1 msg2 w entries1 entries2 :
  parses_to msg1 entries1 ->
  parses_to msg2 entries2 ->
  fromEntries entries1 !! lit "r" = fromEntries entries2 !! lit "r" ->
  fromEntries entries1 !! lit "s" = fromEntries entries2 !! lit "s" ->
  fromEntries entries1 !! lit "i" = fromEntries entries2 !! lit "i" ->
  _handleAuthSASLContinue env msg1 w = _handleAuthSASLContinue env msg2 w.
Proof.
  intros H1 H2 Hr Hs Hi.
  destruct (crypto env) as [| | |cs] eqn:Hcs;
    try (unfold _handleAuthSASLContinue, require_subtle; rewrite Hcs; reflexivity).
  destruct (saslSession (this w)) as [session|] eqn:Hsess.
  2:{ rewrite !(handleAuthSASLContinue_subtle _ _ _ _ Hcs).
      unfold validate_challenge, check_protocol. rewrite Hsess. reflexivity. }
  destruct (bool_decide_reflect (message session = lit "SASLInitialResponse"))
    as [Hmsg|Hmsg].
  2:{ rewrite (protocol_error_run env cs msg1 w session Hcs Hsess) by auto.
      rewrite (protocol_error_run env cs msg2 w session Hcs Hsess) by auto.
      reflexivity. }
  destruct (password (this w)) as [pw| | |] eqn:Hpw;
    try (rewrite (protocol_error_run env cs msg1 w session Hcs Hsess)
           by (rewrite Hpw; auto);
         rewrite (protocol_error_run env cs msg2 w session Hcs Hsess)
           by (rewrite Hpw; auto);
         reflexivity).
  assert (Hready : session_ready w session) by (repeat split; eauto).
  destruct (handleAuthSASLContinue_parsed env cs msg1 w session entries1 Hcs Hready H1)
    as (pw1 & Hpw1 & ->).
  destruct (handleAuthSASLContinue_parsed env cs msg2 w session entries2 Hcs Hready H2)
    as (pw2 & Hpw2 & ->).
  rewrite Hr, Hs, Hi.
  assert (pw1 = pw2) as -> by congruence. reflexivity.
Qed.

Lemma only_three_attributes_count_witness :
  _handleAuthSASLContinue example_env
    (challenge "r=rOprNGfwEbeRWgbNEkqO%hv,s=W22ZaJ0SNY7soEsUEjb6gQ==,i=4096")
    example_world
  = _handleAuthSASLContinue example_env
      (challenge "x=1,s=AAAA,i=4096,r=rOprNGfwEbeRWgbNEkqO%hv,s=W22ZaJ0SNY7soEsUEjb6gQ==,m=ext")
      example_world.
Proof.
  eapply (only_three_attributes_count example_env _ _ example_world).
  - eexists. split; [reflexivity|]. vm_compute. reflexivity.
  - eexists. split; [reflexivity|]. vm_compute. reflexivity.
  - vm_compute. reflexivity.
  - vm_compute. reflexivity.
  - vm_compute. reflexivity.
Defined.

(** X11: [Object.fromEntries] keeps the last entry of a name: the
    attribute that the method sees under a name is the value of the last
    piece of the challenge that starts with that name. *)
Theorem last_entry_wins entries name :
  fromEntries entries !! name = last_value name entries.
Proof.
  unfold fromEntries.
  assert (H : forall (m : gmap (list Z) (list Z)),
             fold_left (fun o e => <[fst e := snd e]> o) entries m !! name
             = match last_value name entries with
               | Some v => Some v
               | None => m !! name
               end).
  { induction entries as [|[n v] rest IH]; intros m; cbn [fold_left last_value fst snd].
    - reflexivity.
    - rewrite IH. destruct (last_value name rest); [reflexivity|].
      destruct (decide (n = name)) as [->|Hne].
      + apply lookup_insert_eq.
      + apply lookup_insert_ne. exact Hne. }
  rewrite H. destruct (last_value name entries); reflexivity.
Qed.

(** X12: the derivation of the salted password, for a password that is
    not empty, imports the password as one key and then calls [sign] once
    per iteration, and nothing else: the work is the iteration count the
    server asks for (a count within the integers that JavaScript counts
    exactly). *)
Theorem derivation_signs_once_per_iteration cs pw salt n w :
  pw <> [] ->
  1 <= n <= MAX_SAFE_INTEGER ->
  exists saltedPassword signs,
    derive_saltedPassword cs pw salt n w
    = (Return saltedPassword,
       {| this := this w;
          trace := trace w ++ ImportKey (TextEncoder_encode pw) :: signs |})
    /\ Forall is_sign signs
    /\ length signs = Z.to_nat n.
Proof.
  intros Hpw Hn.
  destruct (derive_saltedPassword_returns cs pw salt n w Hpw)
    as (v & signs & Hrun & Hsigns & Hlen).
  exists v, signs. repeat split; auto. lia.
Qed.

Lemma derivation_signs_once_per_iteration_witness :
  exists saltedPassword signs,
    derive_saltedPassword real_subtle (lit "pencil") (lit "W22ZaJ0SNY7soEsUEjb6gQ==")
      4096 example_world
    = (Return saltedPassword,
       {| this := this example_world;
          trace := trace example_world
                   ++ ImportKey (TextEncoder_encode (lit "pencil")) :: signs |})
    /\ Forall is_sign signs
    /\ length signs = Z.to_nat 4096.
Proof.
  apply (derivation_signs_once_per_iteration real_subtle (lit "pencil")
           (lit "W22ZaJ0SNY7soEsUEjb6gQ==") 4096 example_world).
  - discriminate.
  - unfold MAX_SAFE_INTEGER. lia.
Defined.

(** ** The salt as base64 *)

Lemma re_b64_char_of_alphabet c : base64_alphabet c -> re_b64_char c = true.
Proof. unfold re_b64_char, base64_alphabet. lia. Qed.

Lemma base64_text_re s : base64_text s -> re_base64 s = true.
Proof.
  induction 1 as [|a b c d rest Ha Hb Hc Hd _ IH|a b c Ha Hb Hc|a b Ha Hb];
    cbn [re_base64]; [reflexivity| | |];
    repeat match goal with
           | H : base64_alphabet _ |- _ => apply re_b64_char_of_alphabet in H; rewrite H
           end; cbn [andb orb].
  - destruct rest; [reflexivity|exact IH].
  - rewrite Z.eqb_refl, orb_true_r. reflexivity.
  - rewrite Z.eqb_refl, orb_true_r. reflexivity.
Qed.

(** X13: the format check of the salt accepts the base64 texts of RFC 4648
    and nothing else: groups of four characters of [A-Za-z0-9+/], of which
    the last may end in [=] or [==]. *)
Theorem salt_format_is_base64 s : re_base64 s = true <-> base64_text s.
Proof. split; [apply re_base64_text|apply base64_text_re]. Qed.

Lemma forallb_range (P : Z -> bool) (n : nat) :
  forallb P (map Z.of_nat (seq 0 n)) = true ->
  forall x, 0 <= x < Z.of_nat n -> P x = true.
Proof.
  intros H x Hx. rewrite forallb_forall in H. apply H.
  apply in_map_iff. exists (Z.to_nat x). split; [lia|].
  apply in_seq. lia.
Qed.

Lemma forallb_range2 (P : Z -> Z -> bool) (n m : nat) :
  forallb (fun x => forallb (P x) (map Z.of_nat (seq 0 m))) (map Z.of_nat (seq 0 n)) = true ->
  forall x y, 0 <= x < Z.of_nat n -> 0 <= y < Z.of_nat m -> P x y = true.
Proof.
  intros H x y Hx Hy.
  apply (forallb_range (P x) m); [|exact Hy].
  apply (forallb_range (fun x => forallb (P x) (map Z.of_nat (seq 0 m))) n H x Hx).
Qed.

(** The character of a sextet is in the alphabet and has the sextet as its
    value. *)
Lemma b64char_value n :
  0 <= n < 64 -> b64value (b64char n) = Some n /\ base64_alphabet (b64char n).
Proof.
  intros Hn. unfold b64value, b64char, base64_alphabet.
  destruct (Z.ltb_spec n 26); [split; [|lia]|].
  { destruct (Z.leb_spec 65 (65 + n)), (Z.leb_spec (65 + n) 90); try lia.
    cbn [andb]. f_equal. lia. }
  destruct (Z.ltb_spec n 52); [split; [|lia]|].
  { destruct (Z.leb_spec 65 (97 + (n - 26))), (Z.leb_spec (97 + (n - 26)) 90),
      (Z.leb_spec 97 (97 + (n - 26))), (Z.leb_spec (97 + (n - 26)) 122);
      try lia; cbn [andb]; f_equal; lia. }
  destruct (Z.ltb_spec n 62); [split; [|lia]|].
  { destruct (Z.leb_spec 65 (48 + (n - 52))), (Z.leb_spec (48 + (n - 52)) 90),
      (Z.leb_spec 97 (48 + (n - 52))), (Z.leb_spec (48 + (n - 52)) 122),
      (Z.leb_spec 48 (48 + (n - 52))), (Z.leb_spec (48 + (n - 52)) 57);
      try lia; cbn [andb]; f_equal; lia. }
  destruct (Z.eqb_spec n 62); [subst; split; [reflexivity|lia]|].
  assert (n = 63) by lia. subst. split; [reflexivity|lia].
Qed.

(** The bit operations of the encoder and the decoder on two neighbouring
    bytes, checked on all pairs of bytes. *)
Lemma base64_bits a b :
  is_byte a -> is_byte b ->
  let s0 := Z.shiftr a 2 in
  let s1 := Z.lor (Z.shiftl (Z.land a 3) 4) (Z.shiftr b 4) in
  let s2 := Z.lor (Z.shiftl (Z.land a 15) 2) (Z.shiftr b 6) in
  let s3 := Z.land b 63 in
  (0 <= s0 < 64 /\ 0 <= s1 < 64 /\ 0 <= s2 < 64 /\ 0 <= s3 < 64
   /\ 0 <= Z.shiftl (Z.land a 3) 4 < 64 /\ 0 <= Z.shiftl (Z.land a 15) 2 < 64)
  /\ Z.lor (Z.shiftl s0 2) (Z.shiftr s1 4) = a
  /\ Z.lor (Z.shiftl s0 2) (Z.shiftr (Z.shiftl (Z.land a 3) 4) 4) = a
  /\ Z.land s1 15 = Z.shiftr b 4
  /\ Z.lor (Z.shiftl (Z.shiftr a 4) 4) (Z.shiftr s2 2) = a
  /\ Z.lor (Z.shiftl (Z.shiftr a 4) 4) (Z.shiftr (Z.shiftl (Z.land a 15) 2) 2) = a
  /\ Z.lor (Z.shiftl (Z.land s2 3) 6) s3 = b.
Proof.
  intros Ha Hb. cbv zeta.
  pose (P := fun a b : Z =>
    let s0 := Z.shiftr a 2 in
    let s1 := Z.lor (Z.shiftl (Z.land a 3) 4) (Z.shiftr b 4) in
    let s2 := Z.lor (Z.shiftl (Z.land a 15) 2) (Z.shiftr b 6) in
    let s3 := Z.land b 63 in
    sextet_ok s0 && sextet_ok s1 && sextet_ok s2 && sextet_ok s3
    && sextet_ok (Z.shiftl (Z.land a 3) 4) && sextet_ok (Z.shiftl (Z.land a 15) 2)
    && (Z.lor (Z.shiftl s0 2) (Z.shiftr s1 4) =? a)
    && (Z.lor (Z.shiftl s0 2) (Z.shiftr (Z.shiftl (Z.land a 3) 4) 4) =? a)
    && (Z.land s1 15 =? Z.shiftr b 4)
    && (Z.lor (Z.shiftl (Z.shiftr a 4) 4) (Z.shiftr s2 2) =? a)
    && (Z.lor (Z.shiftl (Z.shiftr a 4) 4) (Z.shiftr (Z.shiftl (Z.land a 15) 2) 2) =? a)
    && (Z.lor (Z.shiftl (Z.land s2 3) 6) s3 =? b)).
  assert (H : P a b = true).
  { apply (forallb_range2 P 256 256); [vm_compute; reflexivity|exact Ha|exact Hb]. }
  unfold P, sextet_ok in H. cbv zeta in H.
  repeat (apply andb_prop in H as [H ?]).
  repeat match goal with
         | H : (_ =? _) = true |- _ => apply Z.eqb_eq in H
         end.
  repeat split; try assumption; lia.
Qed.

Lemma sextets_char n rest :
  0 <= n < 64 -> sextets (b64char n :: rest) = n :: sextets rest.
Proof.
  intros Hn. cbn [sextets]. destruct (b64char_value n Hn) as [-> _]. reflexivity.
Qed.

Lemma base64_roundtrip_and_text bs :
  Forall is_byte bs ->
  Buffer_from_base64 (toString_base64 bs) = bs
  /\ base64_text (toString_base64 bs).
Proof.
  unfold Buffer_from_base64.
  remember (length bs) as n eqn:Hn. revert bs Hn.
  induction n as [n IH] using lt_wf_ind. intros bs Hn Hbs.
  destruct bs as [|a [|b [|c rest]]].
  - split; [reflexivity|constructor].
  - inversion Hbs as [|? ? Ha _]; subst.
    destruct (base64_bits a 0 Ha ltac:(unfold is_byte; lia))
      as ((H0 & _ & _ & _ & H1 & _) & _ & Hid & _).
    cbn [toString_base64].
    rewrite !sextets_char by assumption. cbn [sextets bytes_of_sextets b64value].
    split.
    + cbn. rewrite Hid. reflexivity.
    + apply base64_pad2; apply b64char_value; assumption.
  - inversion Hbs as [|? ? Ha Hbs']; subst. inversion Hbs' as [|? ? Hb _]; subst.
    destruct (base64_bits a b Ha Hb)
      as ((H0 & H1 & _) & Hid1 & _ & Hid2 & _).
    destruct (base64_bits b 0 Hb ltac:(unfold is_byte; lia))
      as ((_ & _ & _ & _ & _ & H2) & _ & _ & _ & _ & Hid3 & _).
    cbn [toString_base64].
    rewrite !sextets_char by assumption. cbn [sextets bytes_of_sextets b64value].
    split.
    + cbn. rewrite Hid1, Hid2, Hid3. reflexivity.
    + apply base64_pad1; apply b64char_value; assumption.
  - inversion Hbs as [|? ? Ha Hbs']; subst. inversion Hbs' as [|? ? Hb Hbs'']; subst.
    inversion Hbs'' as [|? ? Hc Hrest]; subst.
    destruct (base64_bits a b Ha Hb)
      as ((H0 & H1 & _) & Hid1 & _ & Hid2 & _).
    destruct (base64_bits b c Hb Hc)
      as ((_ & _ & H2 & H3 & _) & _ & _ & _ & Hid3 & _ & Hid4).
    destruct (IH (length rest) ltac:(cbn [length]; lia) rest eq_refl Hrest)
      as [IHr IHt].
    cbn [toString_base64 app].
    rewrite !sextets_char by assumption. cbn [bytes_of_sextets app].
    split.
    + rewrite Hid1, Hid2, Hid3, Hid4, IHr. reflexivity.
    + apply base64_group; try (apply b64char_value; assumption). exact IHt.
Qed.

(** X14: the salt goes through: every non-empty byte string, written in
    base64, passes the checks on the salt, and [Buffer.from(salt, 'base64')]
    gives the bytes back. *)
Theorem salt_roundtrip bs :
  bs <> [] -> Forall is_byte bs ->
  passes re_base64 (Some (toString_base64 bs)) = true
  /\ Buffer_from_base64 (toString_base64 bs) = bs.
Proof.
  intros Hne Hbs.
  destruct (base64_roundtrip_and_text bs Hbs) as [Hround Htext].
  split; [|exact Hround].
  apply base64_text_re in Htext. unfold passes.
  destruct (toString_base64 bs) as [|c s] eqn:He; [|exact Htext].
  destruct bs as [|a [|b [|c' rest]]]; [contradiction|discriminate..].
Qed.

Lemma salt_roundtrip_witness :
  passes re_base64
    (Some (toString_base64
             [91; 109; 153; 104; 157; 18; 53; 142; 236; 160; 75; 20; 18; 54; 250; 129]))
  = true
  /\ Buffer_from_base64
       (toString_base64
          [91; 109; 153; 104; 157; 18; 53; 142; 236; 160; 75; 20; 18; 54; 250; 129])
     = [91; 109; 153; 104; 157; 18; 53; 142; 236; 160; 75; 20; 18; 54; 250; 129].
Proof.
  apply (salt_roundtrip
           [91; 109; 153; 104; 157; 18; 53; 142; 236; 160; 75; 20; 18; 54; 250; 129]).
  - discriminate.
  - repeat constructor; unfold is_byte; lia.
Defined.

(** ** What a run that returns tells *)

Lemma startsWith_app s p :
  startsWith s p = true -> exists t, s = p ++ t.
Proof.
  revert s. induction p as [|c p IH]; intros s H.
  - exists s. reflexivity.
  - destruct s as [|d s]; [discriminate|]. cbn [startsWith] in H.
    apply andb_prop in H as [Hc Hp]. apply Z.eqb_eq in Hc. subst d.
    destruct (IH s Hp) as [t ->]. exists t. reflexivity.
Qed.

(** X15: the method answers valid challenges only: when it returns, the
    session was the one node-postgres opened, the password was a string,
    the challenge passed every check, and the server nonce is the client
    nonce with something added. *)
Theorem answered_challenge_was_valid env msg w w' :
  _handleAuthSASLContinue env msg w = (Return tt, w') ->
  exists session nonce salt iterationText suffix,
    session_ready w session
    /\ valid_challenge session msg nonce salt iterationText
    /\ nonce = clientNonce session ++ suffix
    /\ suffix <> [].
Proof.
  intros Hrun.
  destruct (crypto env) as [| | |cs] eqn:Hcs;
    try (unfold _handleAuthSASLContinue, require_subtle in Hrun;
         rewrite Hcs in Hrun; discriminate).
  rewrite (handleAuthSASLContinue_subtle _ _ _ _ Hcs) in Hrun.
  destruct (saslSession (this w)) as [session|] eqn:Hsess.
  2:{ unfold validate_challenge, check_protocol in Hrun. rewrite Hsess in Hrun.
      discriminate. }
  destruct (validate_challenge_cases (this w) msg w session Hsess)
    as [(e & Hthrow & _)|(pw & nonce & salt & it & Hmsg & Hpw & Hvalid & _)].
  { rewrite (bind_throw _ _ _ _ _ Hthrow) in Hrun. discriminate. }
  pose proof Hvalid as (_ & _ & _ & _ & _ & _ & _ & Hstarts & Hlen).
  destruct (startsWith_app _ _ Hstarts) as [suffix Hsuffix].
  exists session, nonce, salt, it, suffix.
  split; [repeat split; eauto|]. split; [exact Hvalid|]. split; [exact Hsuffix|].
  intros ->. apply Hlen. rewrite Hsuffix, app_nil_r. reflexivity.
Qed.

Lemma answered_challenge_was_valid_witness :
  let msg :=
    challenge "r=rOprNGfwEbeRWgbNEkqO%hvYDpWUa2RaTCAfuxFIlj)hNlF$k0,s=W22ZaJ0SNY7soEsUEjb6gQ==,i=1" in
  exists session nonce salt iterationText suffix,
    session_ready example_world session
    /\ valid_challenge session msg nonce salt iterationText
    /\ nonce = clientNonce session ++ suffix
    /\ suffix <> [].
Proof.
  apply (answered_challenge_was_valid example_env
           (challenge "r=rOprNGfwEbeRWgbNEkqO%hvYDpWUa2RaTCAfuxFIlj)hNlF$k0,s=W22ZaJ0SNY7soEsUEjb6gQ==,i=1")
           example_world
           (snd (_handleAuthSASLContinue example_env
                   (challenge "r=rOprNGfwEbeRWgbNEkqO%hvYDpWUa2RaTCAfuxFIlj)hNlF$k0,s=W22ZaJ0SNY7soEsUEjb6gQ==,i=1")
                   example_world))).
  vm_compute. reflexivity.
Defined.

(** ** The bytes that are signed *)

Lemma TextEncoder_encode_ascii s :
  Forall (fun c => 0 <= c < 128) s -> TextEncoder_encode s = s.
Proof.
  induction 1 as [|c s Hc _ IH]; [reflexivity|].
  cbn [TextEncoder_encode]. destruct (Z.ltb_spec c 128); [|lia].
  rewrite IH. reflexivity.
Qed.

Lemma lit_ascii (text : string) :
  forallb (fun c => (0 <=? c) && (c <? 128)) (lit text) = true ->
  Forall (fun c => 0 <= c < 128) (lit text).
Proof.
  intros H. apply List.Forall_forall. intros c Hc.
  rewrite forallb_forall in H. specialize (H c Hc). lia.
Qed.

(** X16: on a valid challenge (with an iteration count that JavaScript
    holds exactly) the authentication message is plain ASCII (the client
    nonce, being the start of a printable server nonce, is printable too),
    so the bytes that [TextEncoder] hands to [sign] are the characters of
    the message one by one. *)
Theorem authMessage_bytes_are_its_characters session msg nonce salt iterationText :
  valid_challenge session msg nonce salt iterationText ->
  parseInt10 iterationText <= MAX_SAFE_INTEGER ->
  let authMessage :=
    (lit "n=*,r=" ++ clientNonce session) ++ lit ","
    ++ (lit "r=" ++ nonce ++ lit ",s=" ++ salt ++ lit ",i="
        ++ number_toString (parseInt10 iterationText))
    ++ lit "," ++ (lit "c=biws,r=" ++ nonce) in
  TextEncoder_encode authMessage = authMessage.
Proof.
  intros (_ & Hn & _ & _ & Hs & _ & Hi & Hstarts & _) _. cbv zeta.
  apply TextEncoder_encode_ascii.
  assert (Hnonce : Forall (fun c => 0 <= c < 128) nonce).
  { eapply Forall_impl; [apply re_nonce_printable; exact Hn|].
    unfold printable_ascii. cbv beta. lia. }
  assert (Hcn : Forall (fun c => 0 <= c < 128) (clientNonce session)).
  { destruct (startsWith_app _ _ Hstarts) as [t Ht]. rewrite Ht in Hnonce.
    apply Forall_app in Hnonce. tauto. }
  assert (Hsalt : Forall (fun c => 0 <= c < 128) salt).
  { apply re_base64_text in Hs. clear -Hs.
    induction Hs; unfold base64_alphabet in *;
      repeat (constructor; [lia|]); auto. }
  assert (Hit : Forall (fun c => 0 <= c < 128) (number_toString (parseInt10 iterationText))).
  { rewrite (number_toString_parseInt10 _ Hi).
    destruct (re_iterations_positive _ Hi) as (_ & Hd & _).
    eapply Forall_impl; [exact Hd|]. cbv beta. lia. }
  repeat (apply Forall_app; split); auto;
    apply lit_ascii; vm_compute; reflexivity.
Qed.

Lemma authMessage_bytes_are_its_characters_witness :
  let authMessage :=
    (lit "n=*,r=" ++ clientNonce example_session) ++ lit ","
    ++ (lit "r=" ++ lit "rOprNGfwEbeRWgbNEkqO%hv" ++ lit ",s="
        ++ lit "W22ZaJ0SNY7soEsUEjb6gQ==" ++ lit ",i="
        ++ number_toString (parseInt10 (lit "4096")))
    ++ lit "," ++ (lit "c=biws,r=" ++ lit "rOprNGfwEbeRWgbNEkqO%hv") in
  TextEncoder_encode authMessage = authMessage.
Proof.
  apply (authMessage_bytes_are_its_characters example_session
           (challenge "r=rOprNGfwEbeRWgbNEkqO%hv,s=W22ZaJ0SNY7soEsUEjb6gQ==,i=4096,x=1")).
  - repeat split; try (vm_compute; reflexivity); vm_compute; discriminate.
  - apply Z.leb_le. vm_compute. reflexivity.
Defined.

(** X17: the iteration count survives [parseInt] and the conversion back
    to a string: a text that passed the format check, of a count that
    JavaScript holds exactly, is printed into the server-first message as
    it came. *)
Theorem iteration_count_printed_as_received s :
  re_iterations s = true ->
  parseInt10 s <= MAX_SAFE_INTEGER ->
  number_toString (parseInt10 s) = s.
Proof. intros H _. apply number_toString_parseInt10. exact H. Qed.

Lemma iteration_count_printed_as_received_witness :
  number_toString (parseInt10 (lit "4096")) = lit "4096".
Proof.
  apply (iteration_count_printed_as_received (lit "4096")).
  - reflexivity.
  - apply Z.leb_le. vm_compute. reflexivity.
Defined.

(** X18: when the challenge is the nonce, the salt and the iteration count
    in this order and nothing else, each of them well-formed and the count
    one that JavaScript holds exactly, and the password is not empty, the
    method returns (given a [crypto.subtle] whose tags and hashes have 32
    bytes), and the server signature it expects is computed over the
    client-first message, the text of the challenge as it came, and the
    client-final message without proof. *)
Theorem plain_challenge_signed_verbatim env cs w session pw nonce salt it :
  crypto env = CryptoSubtle cs ->
  hmac_sha256_sized cs ->
  sha256_sized cs ->
  saslSession (this w) = Some session ->
  message session = lit "SASLInitialResponse" ->
  password (this w) = JsString pw ->
  pw <> [] ->
  re_nonce nonce = true ->
  salt <> [] -> re_base64 salt = true ->
  re_iterations it = true ->
  parseInt10 it <= MAX_SAFE_INTEGER ->
  startsWith nonce (clientNonce session) = true ->
  jslength nonce <> jslength (clientNonce session) ->
  let text := lit "r=" ++ nonce ++ lit ",s=" ++ salt ++ lit ",i=" ++ it in
  let saltedPassword :=
    scram_Hi (subtle_sign cs) (TextEncoder_encode pw) (Buffer_from_base64 salt)
      (Z.to_nat (parseInt10 it)) in
  let serverKey :=
    subtle_sign cs saltedPassword (TextEncoder_encode (lit "Server Key")) in
  exists w' s',
    _handleAuthSASLContinue env {| data := JsString text |} w = (Return tt, w')
    /\ saslSession (this w') = Some s'
    /\ serverSignature s'
       = Some (toString_base64
                 (subtle_sign cs serverKey
                    (TextEncoder_encode
                       ((lit "n=*,r=" ++ clientNonce session) ++ lit "," ++ text
                        ++ lit "," ++ (lit "c=biws,r=" ++ nonce))))).
Proof.
  intros Hcs Hsized Hdigest Hsess Hmsg Hpw Hpw0 Hn Hs0 Hs Hi _ Hstarts Hlen. cbv zeta.
  pose proof (canonical_challenge_valid session nonce salt it Hn Hs0 Hs Hi Hstarts Hlen)
    as Hvalid.
  rewrite (handleAuthSASLContinue_subtle _ _ _ _ Hcs).
  rewrite (bind_run _ _ _ _ _
             (validate_challenge_valid _ _ w _ _ _ _ _ Hsess Hmsg Hpw Hvalid)).
  pose proof (re_iterations_positive _ Hi) as (_ & _ & Hpos).
  destruct (respond_run cs session pw nonce salt it w Hsized Hdigest Hpw0 ltac:(lia))
    as (calls & Hrun & _).
  rewrite (number_toString_parseInt10 _ Hi) in Hrun.
  rewrite Hrun. eexists. eexists. split; [reflexivity|].
  cbn [this saslSession with_saslSession serverSignature].
  split; reflexivity.
Qed.

Lemma plain_challenge_signed_verbatim_witness :
  exists w' s',
    _handleAuthSASLContinue example_env
      {| data := JsString (lit "r=" ++ lit "rOprNGfwEbeRWgbNEkqO%hv" ++ lit ",s="
                           ++ lit "W22ZaJ0SNY7soEsUEjb6gQ==" ++ lit ",i=" ++ lit "4096") |}
      example_world
    = (Return tt, w')
    /\ saslSession (this w') = Some s'
    /\ serverSignature s' <> None.
Proof.
  destruct (plain_challenge_signed_verbatim example_env real_subtle example_world
              example_session (lit "pencil") (lit "rOprNGfwEbeRWgbNEkqO%hv")
              (lit "W22ZaJ0SNY7soEsUEjb6gQ==") (lit "4096"))
    as (w' & s' & Hrun & Hsess & Hsig).
  - reflexivity.
  - exact real_subtle_sized.
  - exact real_subtle_sha256_sized.
  - reflexivity.
  - reflexivity.
  - reflexivity.
  - discriminate.
  - reflexivity.
  - discriminate.
  - reflexivity.
  - reflexivity.
  - apply Z.leb_le. vm_compute. reflexivity.
  - reflexivity.
  - vm_compute. discriminate.
  - exists w', s'. split; [exact Hrun|]. split; [exact Hsess|].
    rewrite Hsig. discriminate.
Defined.

(** ** The pieces of the challenge *)

Lemma split_comma_cons c s :
  split_comma (c :: s)
  = if c =? 44 then [] :: split_comma s
    else match split_comma s with
         | [] => [[c]]
         | piece :: pieces => (c :: piece) :: pieces
         end.
Proof. reflexivity. Qed.

Lemma split_comma_nonempty s : split_comma s <> [].
Proof.
  destruct s as [|c s]; [discriminate|]. rewrite split_comma_cons.
  destruct (c =? 44); [discriminate|]. destruct (split_comma s); discriminate.
Qed.

(** X19: [split(',')] loses nothing: no piece has a comma in it, there is
    always a piece, and the pieces joined with commas are the challenge. *)
Theorem split_comma_join s :
  split_comma s <> []
  /\ Forall (Forall (fun c => c <> 44)) (split_comma s)
  /\ join_comma (split_comma s) = s.
Proof.
  split; [apply split_comma_nonempty|].
  induction s as [|c s [IH1 IH2]]; [repeat constructor|].
  rewrite split_comma_cons. destruct (Z.eqb_spec c 44) as [->|Hc].
  - split; [constructor; [constructor|exact IH1]|].
    pose proof (split_comma_nonempty s) as Hne.
    cbn [join_comma]. destruct (split_comma s) as [|p ps]; [contradiction|].
    cbn [app]. rewrite IH2. reflexivity.
  - pose proof (split_comma_nonempty s) as Hne.
    destruct (split_comma s) as [|p ps]; [contradiction|].
    inversion_clear IH1 as [|? ? Hp Hps]. split.
    + constructor; [constructor; assumption|exact Hps].
    + cbn [join_comma] in *. destruct ps; cbn [app]; rewrite IH2; reflexivity.
Qed.

(* ===================================================================== *)
(** * More about [connect] *)
(* ===================================================================== *)

(** X20: [connect] throws for one reason only: when it throws, the error
    is the one about the missing parameters, neither the configuration
    object nor [PGHOST] names a host or a connection string, and host, user,
    database and password are [localhost], the OS user, the OS user and
    [null]. *)
Theorem connect_throws_only_on_default_parameters env w e w' :
  connect env w = (Throw e, w') ->
  e = Error (missing_parameters_message env)
  /\ config_host (config (this w)) = None
  /\ config_connectionString (config (this w)) = None
  /\ PGHOST env = None
  /\ host (this w) = lit "localhost"
  /\ user (this w) = defaultUser env
  /\ database (this w) = defaultUser env
  /\ password (this w) = JsNull.
Proof.
  intros H. rewrite connect_run in H. cbv zeta in H.
  set (c1 := if forceDisablePgSSL (stream (connection (this w)))
             then with_ssl false (this w) else this w) in *.
  assert (Heq : likely_missing_parameters env c1
                = likely_missing_parameters env (this w))
    by (unfold c1; destruct (forceDisablePgSSL _); reflexivity).
  destruct (likely_missing_parameters env c1) eqn:Hl; [|discriminate].
  injection H as <- _. split; [reflexivity|].
  symmetry in Heq. unfold likely_missing_parameters, hasConfiguredHost in Heq.
  repeat (apply andb_prop in Heq as [Heq ?]).
  apply negb_true_iff in Heq.
  apply orb_false_elim in Heq as [Heq Hpg]. apply orb_false_elim in Heq as [Hh Hc].
  repeat match goal with
         | H : bool_decide _ = true |- _ => apply bool_decide_eq_true_1 in H
         | H : bool_decide _ = false |- _ => apply bool_decide_eq_false_1 in H
         end.
  assert (Hnn : forall (o : option (list Z)), ~ o <> None -> o = None)
    by (intros [x|] Ho; [exfalso; apply Ho; discriminate|reflexivity]).
  repeat split; auto.
  - destruct (config (this w)) as [| |o]; cbn [config_host]; auto.
    apply bool_decide_eq_false_1 in Hh. auto.
  - destruct (config (this w)) as [| |o]; cbn [config_connectionString]; auto.
    apply bool_decide_eq_false_1 in Hc. auto.
  - destruct (password (this w)); try discriminate. reflexivity.
Qed.

Lemma connect_throws_only_on_default_parameters_witness :
  missing_parameters_message example_env = missing_parameters_message example_env
  /\ config_host (config (this example_world_defaults)) = None
  /\ config_connectionString (config (this example_world_defaults)) = None
  /\ PGHOST example_env = None
  /\ host (this example_world_defaults) = lit "localhost"
  /\ user (this example_world_defaults) = defaultUser example_env
  /\ database (this example_world_defaults) = defaultUser example_env
  /\ password (this example_world_defaults) = JsNull.
Proof.
  destruct (connect_throws_only_on_default_parameters example_env
              example_world_defaults
              (Error (missing_parameters_message example_env))
              (snd (connect example_env example_world_defaults)))
    as (_ & H).
  - vm_compute. reflexivity.
  - split; [reflexivity|exact H].
Defined.

(** X21: what [connect] does to the outside world, in all: it warns of
    double encryption when, and only when, Postgres-level SSL is on, not
    forced off, and the secure WebSocket is on; then, unless it throws, it
    calls node-postgres' [connect], once; and that is all. *)
Theorem connect_effects env w :
  let neonConfig := stream (connection (this w)) in
  trace (snd (connect env w))
  = trace w
    ++ (if ssl (this w) && negb (forceDisablePgSSL neonConfig)
           && useSecureWebSocket neonConfig
        then [ConsoleWarn double_encryption_warning] else [])
    ++ match fst (connect env w) with
       | Return _ => [SuperConnect]
       | Throw _ => []
       end.
Proof.
  cbv zeta. rewrite connect_run. cbv zeta.
  match goal with
  | |- context [likely_missing_parameters ?e ?c] =>
      destruct (likely_missing_parameters e c)
  end; cbn [fst snd trace];
    destruct (forceDisablePgSSL (stream (connection (this w))));
    cbn [ssl with_ssl negb andb]; rewrite ?andb_false_r, ?andb_true_r, ?app_nil_r;
    cbn [andb]; rewrite ?app_nil_r; try reflexivity;
    rewrite <- (@List.app_assoc Effect); reflexivity.
Qed.

Lemma attached_listeners_of pg : forall ls ev,
  listeners_of ev (attached pg ls) = listeners_of ev ls ++ pg_listeners_of ev pg.
Proof.
  unfold attached, pg_listeners_of.
  induction pg as [|[ev0 [o id]] pg IH]; intros ls ev; cbn [fold_left fst snd].
  - rewrite app_nil_r. reflexivity.
  - rewrite IH. rewrite filter_cons. cbn [fst].
    destruct (decide (ev0 = ev)) as [->|Hne].
    + rewrite listeners_of_addListener. cbn [map fst snd].
      rewrite <- app_assoc. reflexivity.
    + rewrite listeners_of_addListener_ne by exact Hne. reflexivity.
Qed.

(** X22: with [forceDisablePgSSL] the client and its connection have
    their [ssl] switched off before anything else: whether [connect] throws
    or returns, both are off afterwards, no warning of double encryption
    was given, and no listener was registered to inject the accept byte. *)
Theorem forceDisablePgSSL_switches_ssl_off env w :
  forceDisablePgSSL (stream (connection (this w))) = true ->
  let w' := snd (connect env w) in
  ssl (this w') = false
  /\ con_ssl (connection (this w')) = false
  /\ (forall text, In (ConsoleWarn text) (trace w') -> In (ConsoleWarn text) (trace w))
  /\ (forall ev l,
        In l (con_listeners w' ev) -> fn l = InjectSSLAccept ->
        In l (con_listeners w ev)).
Proof.
  intros Hforce. cbv zeta.
  rewrite connect_run. cbv zeta. rewrite Hforce.
  match goal with
  | |- context [likely_missing_parameters ?e ?c] =>
      destruct (likely_missing_parameters e c)
  end; cbn [fst snd this trace ssl con_ssl connection with_ssl with_listeners
            listeners stream andb]; rewrite app_nil_r.
  - repeat split; auto.
  - split; [reflexivity|]. split; [reflexivity|]. split.
    { intros text H. apply in_app_or in H as [H|[H|[]]]; [exact H|discriminate]. }
    intros ev l Hl Hfn. unfold con_listeners in *.
    cbn [this connection listeners with_listeners with_ssl] in *.
    unfold connected_listeners in Hl. rewrite andb_false_r in Hl.
    cbv zeta iota in Hl.
    assert (Hatt : forall ev,
               In l (listeners_of ev (attached (pg_listeners env)
                                        (listeners (connection (this w))))) ->
               In l (listeners_of ev (listeners (connection (this w))))).
    { intros ev' H. rewrite attached_listeners_of in H.
      apply in_app_or in H as [H|H]; [exact H|].
      unfold pg_listeners_of in H. apply in_map_iff in H as (x & <- & _).
      discriminate. }
    destruct (pipelineConnect (stream (connection (this w)))); [|auto].
    destruct (decide ("connect"%string = ev)) as [<-|Hne1].
    { rewrite listeners_of_addListener in Hl.
      apply in_app_or in Hl as [Hl|[<-|[]]]; [|discriminate].
      rewrite listeners_of_addListener_ne in Hl by discriminate.
      rewrite !listeners_of_delete_ne in Hl by discriminate. auto. }
    rewrite listeners_of_addListener_ne in Hl by exact Hne1.
    destruct (decide ("readyForQuery"%string = ev)) as [<-|Hne2].
    { rewrite listeners_of_addListener, listeners_of_delete in Hl.
      destruct Hl as [<-|[]]. discriminate. }
    rewrite listeners_of_addListener_ne in Hl by exact Hne2.
    rewrite listeners_of_delete_ne in Hl by exact Hne2.
    destruct (decide ("authenticationCleartextPassword"%string = ev)) as [<-|Hne3].
    { rewrite listeners_of_delete in Hl. destruct Hl. }
    rewrite listeners_of_delete_ne in Hl by exact Hne3. auto.
Qed.

Lemma forceDisablePgSSL_switches_ssl_off_witness :
  let w' := snd (connect example_env example_world_forced) in
  ssl (this w') = false
  /\ con_ssl (connection (this w')) = false
  /\ (forall text, In (ConsoleWarn text) (trace w') ->
                   In (ConsoleWarn text) (trace example_world_forced))
  /\ (forall ev l,
        In l (con_listeners w' ev) -> fn l = InjectSSLAccept ->
        In l (con_listeners example_world_forced ev)).
Proof.
  apply (forceDisablePgSSL_switches_ssl_off example_env example_world_forced).
  reflexivity.
Defined.

(** X23: without password pipelining [connect] takes no listener away and
    adds no start-up of its own: on every event the connection has the
    listeners it had, then those of node-postgres, and, on [connect] alone
    and only with TLS pipelining and Postgres-level SSL, the injection of
    the accept byte. *)
Theorem unpipelined_connect_keeps_listeners env w w1 ev :
  pipelineConnect (stream (connection (this w))) = PipelineOff ->
  connect env w = (Return tt, w1) ->
  con_listeners w1 ev
  = con_listeners w ev
    ++ pg_listeners_of ev (pg_listeners env)
    ++ (if pipelineTLS (stream (connection (this w))) && ssl (this w1)
           && bool_decide (ev = "connect"%string)
        then [{| once := false; fn := InjectSSLAccept |}] else []).
Proof.
  intros Hpc Hconn.
  destruct (connect_returned env w w1 Hconn) as (Hssl & _ & Hls & _).
  rewrite Hls, Hssl. unfold connected_listeners, con_listeners. rewrite Hpc.
  destruct (pipelineTLS _ && (ssl (this w) && _)); cbn [andb].
  - destruct (decide (ev = "connect"%string)) as [->|Hne].
    + rewrite bool_decide_eq_true_2 by reflexivity.
      rewrite listeners_of_addListener, attached_listeners_of.
      rewrite <- app_assoc. reflexivity.
    + rewrite bool_decide_eq_false_2 by exact Hne.
      rewrite listeners_of_addListener_ne by congruence.
      rewrite attached_listeners_of, app_nil_r. reflexivity.
  - rewrite attached_listeners_of, app_nil_r. reflexivity.
Qed.

Lemma unpipelined_connect_keeps_listeners_witness :
  con_listeners (snd (connect example_env example_world_unpipelined)) "connect"
  = con_listeners example_world_unpipelined "connect"
    ++ pg_listeners_of "connect" (pg_listeners example_env)
    ++ (if pipelineTLS (stream (connection (this example_world_unpipelined)))
           && ssl (this (snd (connect example_env example_world_unpipelined)))
           && bool_decide ("connect"%string = "connect"%string)
        then [{| once := false; fn := InjectSSLAccept |}] else []).
Proof.
  apply (unpipelined_connect_keeps_listeners example_env example_world_unpipelined
           (snd (connect example_env example_world_unpipelined)) "connect").
  - reflexivity.
  - vm_compute. reflexivity.
Defined.

(** X24: with password pipelining nothing answers the server's request
    for the password any more: after [connect] the event
    [authenticationCleartextPassword] has no listener, node-postgres' own
    included, and emitting it changes nothing. *)
Theorem password_request_is_ignored env w w1 :
  pipelineConnect (stream (connection (this w))) = PipelinePassword ->
  connect env w = (Return tt, w1) ->
  con_listeners w1 "authenticationCleartextPassword" = []
  /\ con_emit "authenticationCleartextPassword" w1 = (Return tt, w1).
Proof.
  intros Hpc Hconn.
  destruct (connect_returned env w w1 Hconn) as (_ & _ & Hls & _).
  assert (H : con_listeners w1 "authenticationCleartextPassword" = []).
  { rewrite Hls. unfold connected_listeners. rewrite Hpc.
    rewrite listeners_of_addListener_ne by (destruct (_ && _); discriminate).
    rewrite listeners_of_addListener_ne by discriminate.
    rewrite listeners_of_delete_ne by discriminate.
    apply listeners_of_delete. }
  split; [exact H|].
  unfold con_emit, bind, get_this. fold (con_listeners w1 "authenticationCleartextPassword").
  rewrite H. reflexivity.
Qed.

Lemma password_request_is_ignored_witness :
  let w1 := snd (connect example_env example_world) in
  con_listeners w1 "authenticationCleartextPassword" = []
  /\ con_emit "authenticationCleartextPassword" w1 = (Return tt, w1).
Proof.
  apply (password_request_is_ignored example_env example_world
           (snd (connect example_env example_world))).
  - reflexivity.
  - vm_compute. reflexivity.
Defined.

(** X25: the pipelined start-up warns of use in a browser unless
    [disableWarningInBrowsers] is set, and does so before it sends the
    password: the awaited connect event calls node-postgres' listeners, then
    [warnIfBrowser] (or not), then [_handleAuthCleartextPassword] and
    [_handleReadyForQuery], and nothing else. *)
Theorem startup_warns_in_browsers_unless_disabled env w w1 :
  pipelineConnect (stream (connection (this w))) = PipelinePassword ->
  foreign_listeners w ->
  connect env w = (Return tt, w1) ->
  exists w2 before,
    con_emit (if ssl (this w1) then "sslconnect" else "connect") w1 = (Return tt, w2)
    /\ trace w2
       = trace w1 ++ before
         ++ (if disableWarningInBrowsers (stream (connection (this w)))
             then [] else [WarnIfBrowser])
         ++ [HandleAuthCleartextPassword; HandleReadyForQuery]
    /\ Forall pg_effect before.
Proof.
  intros Hpc Hforeign Hconn.
  destruct (connect_awaiting_startup env w w1 Hpc Hforeign Hconn)
    as (_ & (pre & Hpre & Hfor) & _).
  destruct (connect_returned env w w1 Hconn) as (_ & Hstream & _).
  destruct (con_emit_run (if ssl (this w1) then "sslconnect" else "connect")%string w1)
    as (w2 & Hrun & Htrace & _).
  rewrite Hpre, Hstream in Htrace.
  rewrite flat_map_app in Htrace. cbn [flat_map fn call_effects] in Htrace.
  rewrite app_nil_r in Htrace.
  exists w2. eexists. split; [exact Hrun|]. split; [exact Htrace|].
  apply List.Forall_forall. intros e He.
  exact (foreign_effects _ _ _ Hfor He).
Qed.

Lemma startup_warns_in_browsers_unless_disabled_witness :
  let w1 := snd (connect example_env example_world) in
  exists w2 before,
    con_emit (if ssl (this w1) then "sslconnect" else "connect") w1 = (Return tt, w2)
    /\ trace w2
       = trace w1 ++ before
         ++ (if disableWarningInBrowsers (stream (connection (this example_world)))
             then [] else [WarnIfBrowser])
         ++ [HandleAuthCleartextPassword; HandleReadyForQuery]
    /\ Forall pg_effect before.
Proof.
  apply (startup_warns_in_browsers_unless_disabled example_env example_world
           (snd (connect example_env example_world))).
  - reflexivity.
  - exact example_world_foreign.
  - vm_compute. reflexivity.
Defined.

(** X26: what [connect] leaves alone: the configuration, host, user,
    database, password, SASL session and socket are those of before,
    whether it throws or returns, and the two [ssl] fields change only by
    being switched off under [forceDisablePgSSL]. *)
Theorem connect_frame env w :
  let c := this w in
  let c' := this (snd (connect env w)) in
  config c' = config c
  /\ host c' = host c
  /\ user c' = user c
  /\ database c' = database c
  /\ password c' = password c
  /\ saslSession c' = saslSession c
  /\ stream (connection c') = stream (connection c)
  /\ ssl c' = ssl c && negb (forceDisablePgSSL (stream (connection c)))
  /\ con_ssl (connection c')
     = con_ssl (connection c) && negb (forceDisablePgSSL (stream (connection c))).
Proof.
  cbv zeta. rewrite connect_run. cbv zeta.
  match goal with
  | |- context [likely_missing_parameters ?e ?c] =>
      destruct (likely_missing_parameters e c)
  end; cbn [snd this];
    destruct (forceDisablePgSSL (stream (connection (this w))));
    cbn [config host user database password saslSession stream connection ssl
         con_ssl with_ssl with_listeners negb];
    rewrite ?andb_false_r, ?andb_true_r; repeat split; reflexivity.
Qed.

Lemma remove_first_keeps l last pre :
  l <> last ->
  Forall foreign pre ->
  exists pre', remove_first l (pre ++ [last]) = pre' ++ [last] /\ Forall foreign pre'.
Proof.
  intros Hne. induction 1 as [|x pre Hx Hpre IH]; cbn [app remove_first].
  - rewrite decide_False by exact Hne. exists []. auto.
  - destruct (decide (l = x)).
    + exists pre. auto.
    + destruct IH as (pre' & -> & Hpre'). exists (x :: pre'). auto.
Qed.

(** Calling listeners of node-postgres and the pipelined start-up leaves
    the start-up registered, last. *)
Lemma call_listeners_keeps ev ls : forall w,
  Forall (fun l => foreign l \/ l = {| once := false; fn := PipelinedStartup |}) ls ->
  (exists pre,
      con_listeners w ev = pre ++ [{| once := false; fn := PipelinedStartup |}]
      /\ Forall foreign pre) ->
  exists w' pre',
    call_listeners ev ls w = (Return tt, w')
    /\ con_listeners w' ev = pre' ++ [{| once := false; fn := PipelinedStartup |}]
    /\ Forall foreign pre'.
Proof.
  induction ls as [|l ls IH]; intros w Hls (pre & Hpre & Hfor).
  - exists w, pre. auto.
  - inversion_clear Hls as [|? ? Hl Hls'].
    cbn [call_listeners].
    set (w0 := if once l
               then {| this := with_listeners (removeListener ev l) (this w);
                       trace := trace w |}
               else w).
    assert (Hw0 : when (once l) (set_this (with_listeners (removeListener ev l))) w
                  = (Return tt, w0)).
    { unfold w0. destruct (once l); reflexivity. }
    assert (H0 : exists pre0,
               con_listeners w0 ev
               = pre0 ++ [{| once := false; fn := PipelinedStartup |}]
               /\ Forall foreign pre0).
    { unfold w0. destruct Hl as [[id Hid]| ->]; [|cbn [once]; eauto].
      destruct (once l); [|eauto].
      unfold con_listeners. cbn [this connection listeners with_listeners].
      rewrite listeners_of_removeListener. fold (con_listeners w ev). rewrite Hpre.
      apply remove_first_keeps; [|exact Hfor].
      intros ->. discriminate. }
    destruct (call_run (fn l) w0) as (w1 & Hcall & _ & _ & Hls1).
    assert (H1 : listeners (connection (this w1)) = listeners (connection (this w0))).
    { destruct Hl as [[id Hid]| ->]; [rewrite Hid in Hls1|]; exact Hls1. }
    destruct (IH w1 Hls') as (w' & pre' & Hrun & H').
    { unfold con_listeners. rewrite H1. exact H0. }
    exists w', pre'. split; [|exact H'].
    rewrite (bind_run _ _ _ _ _ Hw0), (bind_run _ _ _ _ _ Hcall). exact Hrun.
Qed.

(** X27: the pipelined start-up is registered with [on], not [once]: it
    stays after it has run, and a second (ssl)connect event sends the
    password and declares the client ready a second time. *)
Theorem startup_listener_stays env w w1 :
  pipelineConnect (stream (connection (this w))) = PipelinePassword ->
  foreign_listeners w ->
  connect env w = (Return tt, w1) ->
  exists w2 w3 before,
    con_emit (if ssl (this w1) then "sslconnect" else "connect") w1 = (Return tt, w2)
    /\ con_emit (if ssl (this w1) then "sslconnect" else "connect") w2 = (Return tt, w3)
    /\ trace w3
       = trace w2 ++ before
         ++ (if disableWarningInBrowsers (stream (connection (this w)))
             then [] else [WarnIfBrowser])
         ++ [HandleAuthCleartextPassword; HandleReadyForQuery]
    /\ Forall pg_effect before.
Proof.
  intros Hpc Hforeign Hconn.
  destruct (connect_awaiting_startup env w w1 Hpc Hforeign Hconn)
    as (_ & (pre & Hpre & Hfor) & _).
  destruct (connect_returned env w w1 Hconn) as (_ & Hstream & _).
  set (cev := (if ssl (this w1) then "sslconnect" else "connect")%string) in *.
  destruct (call_listeners_keeps cev (con_listeners w1 cev) w1)
    as (w2 & pre2 & Hrun2 & Hpre2 & Hfor2).
  { rewrite Hpre. apply Forall_app. split; [|constructor; [right; reflexivity|constructor]].
    eapply Forall_impl; [exact Hfor|]. intros l Hl. left. exact Hl. }
  { eauto. }
  assert (Hemit : con_emit cev w1 = (Return tt, w2)) by exact Hrun2.
  destruct (con_emit_run cev w1) as (w2' & Hrun2' & _ & Hstream2 & _).
  rewrite Hemit in Hrun2'. injection Hrun2' as <-.
  destruct (con_emit_run cev w2) as (w3 & Hrun3 & Htrace3 & _).
  rewrite Hpre2, Hstream2, Hstream in Htrace3.
  rewrite flat_map_app in Htrace3. cbn [flat_map fn call_effects] in Htrace3.
  rewrite app_nil_r in Htrace3.
  exists w2, w3. eexists. split; [exact Hemit|]. split; [exact Hrun3|].
  split; [exact Htrace3|].
  apply List.Forall_forall. intros e He.
  exact (foreign_effects _ _ _ Hfor2 He).
Qed.

Lemma startup_listener_stays_witness :
  let w1 := snd (connect example_env example_world) in
  exists w2 w3 before,
    con_emit (if ssl (this w1) then "sslconnect" else "connect") w1 = (Return tt, w2)
    /\ con_emit (if ssl (this w1) then "sslconnect" else "connect") w2 = (Return tt, w3)
    /\ trace w3
       = trace w2 ++ before
         ++ (if disableWarningInBrowsers (stream (connection (this example_world)))
             then [] else [WarnIfBrowser])
         ++ [HandleAuthCleartextPassword; HandleReadyForQuery]
    /\ Forall pg_effect before.
Proof.
  apply (startup_listener_stays example_env example_world
           (snd (connect example_env example_world))).
  - reflexivity.
  - exact example_world_foreign.
  - vm_compute. reflexivity.
Defined.
